(** * A shallow embedding of the path-following library

    The development follows the TypeScript sources: [types.ts] (the enums and
    the waypoint record), [state.ts] (the class [PathFSM]), [path.ts] (the
    class [Path]) and [smartpath.ts] (the class [SmartPath], which extends
    [Path]).

    Modelling decisions.
    - The objects are mutable; every method becomes a function from the store
      before the call to the store after the call (explicit state passing).
      One record, [World], holds the fields of the FSM, of [Path] and of
      [SmartPath], together with what the host keeps for them: the handle of
      the search service, the connections on the per-frame signal, the
      retries suspended in [task.wait], and a trace of everything observable
      (diagnostics, caller callbacks, commands sent to the humanoid, calls of
      the search service).
    - Callbacks are closures over the store, as in the source: the record
      [PathFSMEvents] holds optional store transformers.
    - An [async] method runs synchronously up to its first suspension.  The
      only suspension modelled is [task.wait] inside [waitForRetry]: the part
      of a recovery sequence that follows it is a separate function, run when
      the host wakes the suspended retry.  The call of the search service is
      taken as atomic; its answer is an argument of the method that calls it.
    - Coordinates, distances and thresholds are real numbers; delays are
      rationals; counters are integers. *)

From Stdlib Require Import List Bool Arith ZArith QArith Qpower Reals String.
From Stdlib Require Import Lia Lra.
Import ListNotations.

Close Scope Q_scope.

(** ** types.ts *)

Inductive PathState : Type :=
| Idle | Computing | Following | Blocked | Completed | Failed | Paused.

Inductive PathStatus : Type :=
| Success | ClosestNoPath | ClosestOutOfRange
| FailStartNotEmpty | FailFinishNotEmpty | NoPath.

(** The host's [Enum.PathWaypointAction], as far as the library reads it. *)
Inductive PathWaypointAction : Type := Walk | Jump.

(** The host's [Vector3]: three coordinates, component-wise subtraction and the
    Euclidean norm. *)
Record Vector3 : Type := mkVector3 { vX : R; vY : R; vZ : R }.

Definition sub (a b : Vector3) : Vector3 :=
  mkVector3 (vX a - vX b) (vY a - vY b) (vZ a - vZ b).

Definition Magnitude (v : Vector3) : R :=
  sqrt (vX v * vX v + vY v * vY v + vZ v * vZ v).

Record Waypoint : Type := mkWaypoint
  { position : Vector3; action : PathWaypointAction }.

(** The host's [PathWaypoint], read by [extractWaypoints]. *)
Record PathWaypoint : Type := mkPathWaypoint
  { Position : Vector3; Action : PathWaypointAction }.

(** A humanoid is known to the library by reference only. *)
Definition Humanoid : Type := nat.

Definition PathState_eqb (a b : PathState) : bool :=
  match a, b with
  | Idle, Idle | Computing, Computing | Following, Following
  | Blocked, Blocked | Completed, Completed | Failed, Failed
  | Paused, Paused => true
  | _, _ => false
  end.

Definition PathStatus_eqb (a b : PathStatus) : bool :=
  match a, b with
  | Success, Success | ClosestNoPath, ClosestNoPath
  | ClosestOutOfRange, ClosestOutOfRange
  | FailStartNotEmpty, FailStartNotEmpty
  | FailFinishNotEmpty, FailFinishNotEmpty | NoPath, NoPath => true
  | _, _ => false
  end.

Definition PathWaypointAction_eqb (a b : PathWaypointAction) : bool :=
  match a, b with
  | Walk, Walk | Jump, Jump => true
  | _, _ => false
  end.

(** The enums are string enums; a template literal prints the member's name. *)
Definition PathState_name (s : PathState) : string :=
  match s with
  | Idle => "Idle" | Computing => "Computing" | Following => "Following"
  | Blocked => "Blocked" | Completed => "Completed" | Failed => "Failed"
  | Paused => "Paused"
  end.

(** ** The store *)

(** What can be observed from outside, in the order it happens. *)
Inductive Obs : Type :=
| Warn (msg : string)                       (* [warn(...)] *)
| StateChanged (oldState newState : PathState)  (* caller's onStateChanged *)
| WaypointReached (wp : Waypoint) (index : nat) (* caller's onWaypointReached *)
| PathCompleted                             (* caller's onPathCompleted *)
| PathFailed (reason : PathStatus)          (* caller's onPathFailed *)
| PathBlocked                               (* caller's onPathBlocked *)
| SearchCall (start finish : Vector3)       (* [robloxPath.ComputeAsync] *)
| SetJump (h : Humanoid)                    (* [humanoid.Jump = true] *)
| MoveTo (h : Humanoid) (target : Vector3)  (* [humanoid.MoveTo] *)
| DestroyCall.                              (* [robloxPath.Destroy] *)

(** A live connection on [RunService.Heartbeat]: the closure made by
    [followNextWaypoint] captures the humanoid, the waypoint and the
    threshold. *)
Record Tick : Type := mkTick
  { tick_id : nat;
    tick_humanoid : Humanoid;
    tick_waypoint : Waypoint;
    tick_reachedDistance : R }.

(** A recovery sequence suspended in [task.wait(delay)]. *)
Inductive RetryKind : Type := AfterBlocked | AfterFailure.

Record Suspended : Type := mkSuspended
  { sus_kind : RetryKind; sus_delay : Q }.

Record World : Type := mkWorld
  { (* PathFSM *)
    currentState : PathState;
    (* the search handle [robloxPath] *)
    robloxStatus : PathStatus;
    robloxWaypoints : list PathWaypoint;
    (* Path *)
    currentWaypoints : list Waypoint;
    currentWaypointIndex : nat;
    followConnection : option nat;
    pathBlockedConnection : bool;
    (* SmartPath *)
    retryAttempts : Z;
    lastStart : option Vector3;
    lastFinish : option Vector3;
    currentHumanoid : option Humanoid;
    currentWaypointDistance : option R;
    (* the host *)
    heartbeat : list Tick;
    nextConnection : nat;
    suspended : list Suspended;
    trace : list Obs }.

Definition set_currentState (v : PathState) (w : World) : World :=
  mkWorld v (robloxStatus w) (robloxWaypoints w) (currentWaypoints w)
    (currentWaypointIndex w) (followConnection w) (pathBlockedConnection w)
    (retryAttempts w) (lastStart w) (lastFinish w) (currentHumanoid w)
    (currentWaypointDistance w) (heartbeat w) (nextConnection w)
    (suspended w) (trace w).

Definition set_roblox (st : PathStatus) (wps : list PathWaypoint) (w : World)
  : World :=
  mkWorld (currentState w) st wps (currentWaypoints w)
    (currentWaypointIndex w) (followConnection w) (pathBlockedConnection w)
    (retryAttempts w) (lastStart w) (lastFinish w) (currentHumanoid w)
    (currentWaypointDistance w) (heartbeat w) (nextConnection w)
    (suspended w) (trace w).

Definition set_currentWaypoints (v : list Waypoint) (w : World) : World :=
  mkWorld (currentState w) (robloxStatus w) (robloxWaypoints w) v
    (currentWaypointIndex w) (followConnection w) (pathBlockedConnection w)
    (retryAttempts w) (lastStart w) (lastFinish w) (currentHumanoid w)
    (currentWaypointDistance w) (heartbeat w) (nextConnection w)
    (suspended w) (trace w).

Definition set_currentWaypointIndex (v : nat) (w : World) : World :=
  mkWorld (currentState w) (robloxStatus w) (robloxWaypoints w)
    (currentWaypoints w) v (followConnection w) (pathBlockedConnection w)
    (retryAttempts w) (lastStart w) (lastFinish w) (currentHumanoid w)
    (currentWaypointDistance w) (heartbeat w) (nextConnection w)
    (suspended w) (trace w).

Definition set_followConnection (v : option nat) (w : World) : World :=
  mkWorld (currentState w) (robloxStatus w) (robloxWaypoints w)
    (currentWaypoints w) (currentWaypointIndex w) v (pathBlockedConnection w)
    (retryAttempts w) (lastStart w) (lastFinish w) (currentHumanoid w)
    (currentWaypointDistance w) (heartbeat w) (nextConnection w)
    (suspended w) (trace w).

Definition set_pathBlockedConnection (v : bool) (w : World) : World :=
  mkWorld (currentState w) (robloxStatus w) (robloxWaypoints w)
    (currentWaypoints w) (currentWaypointIndex w) (followConnection w) v
    (retryAttempts w) (lastStart w) (lastFinish w) (currentHumanoid w)
    (currentWaypointDistance w) (heartbeat w) (nextConnection w)
    (suspended w) (trace w).

Definition set_retryAttempts (v : Z) (w : World) : World :=
  mkWorld (currentState w) (robloxStatus w) (robloxWaypoints w)
    (currentWaypoints w) (currentWaypointIndex w) (followConnection w)
    (pathBlockedConnection w) v (lastStart w) (lastFinish w)
    (currentHumanoid w) (currentWaypointDistance w) (heartbeat w)
    (nextConnection w) (suspended w) (trace w).

Definition set_lastEndpoints (s f : option Vector3) (w : World) : World :=
  mkWorld (currentState w) (robloxStatus w) (robloxWaypoints w)
    (currentWaypoints w) (currentWaypointIndex w) (followConnection w)
    (pathBlockedConnection w) (retryAttempts w) s f
    (currentHumanoid w) (currentWaypointDistance w) (heartbeat w)
    (nextConnection w) (suspended w) (trace w).

Definition set_followContext (h : option Humanoid) (d : option R) (w : World)
  : World :=
  mkWorld (currentState w) (robloxStatus w) (robloxWaypoints w)
    (currentWaypoints w) (currentWaypointIndex w) (followConnection w)
    (pathBlockedConnection w) (retryAttempts w) (lastStart w) (lastFinish w)
    h d (heartbeat w) (nextConnection w) (suspended w) (trace w).

Definition set_heartbeat (v : list Tick) (n : nat) (w : World) : World :=
  mkWorld (currentState w) (robloxStatus w) (robloxWaypoints w)
    (currentWaypoints w) (currentWaypointIndex w) (followConnection w)
    (pathBlockedConnection w) (retryAttempts w) (lastStart w) (lastFinish w)
    (currentHumanoid w) (currentWaypointDistance w) v n
    (suspended w) (trace w).

Definition set_suspended (v : list Suspended) (w : World) : World :=
  mkWorld (currentState w) (robloxStatus w) (robloxWaypoints w)
    (currentWaypoints w) (currentWaypointIndex w) (followConnection w)
    (pathBlockedConnection w) (retryAttempts w) (lastStart w) (lastFinish w)
    (currentHumanoid w) (currentWaypointDistance w) (heartbeat w)
    (nextConnection w) v (trace w).

Definition set_trace (v : list Obs) (w : World) : World :=
  mkWorld (currentState w) (robloxStatus w) (robloxWaypoints w)
    (currentWaypoints w) (currentWaypointIndex w) (followConnection w)
    (pathBlockedConnection w) (retryAttempts w) (lastStart w) (lastFinish w)
    (currentHumanoid w) (currentWaypointDistance w) (heartbeat w)
    (nextConnection w) (suspended w) v.

(** Appends one observable event to the trace. *)
Definition emit (o : Obs) (w : World) : World :=
  set_trace (trace w ++ [o]) w.

(** The global [warn]. *)
Definition warn (msg : string) (w : World) : World := emit (Warn msg) w.

(** ** state.ts: PathFSM *)

Record PathFSMEvents : Type := mkEvents
  { onStateChanged : option (PathState -> PathState -> World -> World);
    onWaypointReached : option (Waypoint -> nat -> World -> World);
    onPathCompleted : option (World -> World);
    onPathFailed : option (PathStatus -> World -> World);
    onPathBlocked : option (World -> World) }.

Module PathFSM.

(** The [Map] built by the constructor, as its list of entries. *)
Definition validTransitions : list (PathState * list PathState) :=
  [ (Idle, [Computing]);
    (Computing, [Following; Failed]);
    (Following, [Blocked; Completed; Failed; Paused; Computing]);
    (Blocked, [Computing; Failed; Following]);
    (Paused, [Following; Computing; Failed]);
    (Completed, [Idle; Computing]);
    (Failed, [Idle; Computing]) ].

(** [Map.prototype.get]: the value of the first entry with that key. *)
Fixpoint Map_get (m : list (PathState * list PathState)) (k : PathState)
  : option (list PathState) :=
  match m with
  | [] => None
  | (k', v) :: rest => if PathState_eqb k' k then Some v else Map_get rest k
  end.

(** [Array.prototype.includes]. *)
Definition includes (l : list PathState) (x : PathState) : bool :=
  existsb (PathState_eqb x) l.

Definition getCurrentState (w : World) : PathState := currentState w.

Definition canTransitionTo (newState : PathState) (w : World) : bool :=
  match Map_get validTransitions (currentState w) with
  | Some validStates => includes validStates newState
  | None => false
  end.

Definition transitionTo (ev : PathFSMEvents) (newState : PathState)
    (w : World) : bool * World :=
  if negb (canTransitionTo newState w) then
    (false,
     warn ("Invalid state transition from "
           ++ PathState_name (currentState w) ++ " to "
           ++ PathState_name newState) w)
  else
    let oldState := currentState w in
    let w := set_currentState newState w in
    let w := match onStateChanged ev with
             | Some cb => cb oldState newState w
             | None => w
             end in
    (true, w).

Definition triggerWaypointReached (ev : PathFSMEvents) (waypoint : Waypoint)
    (index : nat) (w : World) : World :=
  match onWaypointReached ev with
  | Some cb => cb waypoint index w
  | None => w
  end.

Definition triggerPathCompleted (ev : PathFSMEvents) (w : World) : World :=
  let w := snd (transitionTo ev Completed w) in
  match onPathCompleted ev with
  | Some cb => cb w
  | None => w
  end.

Definition triggerPathFailed (ev : PathFSMEvents) (reason : PathStatus)
    (w : World) : World :=
  let w := snd (transitionTo ev Failed w) in
  match onPathFailed ev with
  | Some cb => cb reason w
  | None => w
  end.

Definition triggerPathBlocked (ev : PathFSMEvents) (w : World) : World :=
  let w := snd (transitionTo ev Blocked w) in
  match onPathBlocked ev with
  | Some cb => cb w
  | None => w
  end.

Definition reset (w : World) : World := set_currentState Idle w.

Definition getValidTransitions (w : World) : list PathState :=
  match Map_get validTransitions (currentState w) with
  | Some l => l
  | None => []
  end.

Definition isTerminalState (w : World) : bool :=
  PathState_eqb (currentState w) Completed
  || PathState_eqb (currentState w) Failed.

Definition isActiveState (w : World) : bool :=
  PathState_eqb (currentState w) Computing
  || PathState_eqb (currentState w) Following.

End PathFSM.

(** ** path.ts: Path *)

Module Path.

(** An [async] method either resolves with a value or rejects with what was
    thrown. *)
Inductive Outcome : Type :=
| Resolved (status : PathStatus)
| Raised (message : string).

(** The constructor.  The FSM starts in [Idle], the caches are empty and the
    listener on the search handle's blocked signal is connected.  The status
    a new search handle reports is the host's; it is an argument. *)
Definition construct (hostStatus : PathStatus) : World :=
  mkWorld Idle hostStatus [] [] 0 None true 0%Z None None None None
    [] 0 [] [].

Definition getState (w : World) : PathState := PathFSM.getCurrentState w.

(** [connection.Disconnect()] on a heartbeat connection. *)
Definition Disconnect (id : nat) (w : World) : World :=
  set_heartbeat (filter (fun t => negb (tick_id t =? id)) (heartbeat w))
    (nextConnection w) w.

(** [RunService.Heartbeat.Connect(...)]: returns a fresh connection. *)
Definition Connect (h : Humanoid) (wp : Waypoint) (d : R) (w : World)
  : nat * World :=
  let id := nextConnection w in
  (id, set_heartbeat (heartbeat w ++ [mkTick id h wp d]) (S id) w).

Definition cleanupConnections (w : World) : World :=
  match followConnection w with
  | Some c => set_followConnection None (Disconnect c w)
  | None => w
  end.

Definition extractWaypoints (w : World) : World :=
  let waypoints := robloxWaypoints w in
  let w := set_currentWaypoints
             (map (fun wp => mkWaypoint (Position wp) (Action wp)) waypoints)
             w in
  set_currentWaypointIndex 0 w.

(** [answer] is what the search service reports for this call: the status
    of the handle after [ComputeAsync] and the waypoints it then holds. *)
Definition computeAsync (ev : PathFSMEvents) (start finish : Vector3)
    (answer : PathStatus * list PathWaypoint) (w : World)
  : Outcome * World :=
  let (accepted, w) := PathFSM.transitionTo ev Computing w in
  if negb accepted then
    (Raised ("Cannot compute path in current state: "
             ++ PathState_name (getState w)), w)
  else
    let w := emit (SearchCall start finish) w in
    let w := set_roblox (fst answer) (snd answer) w in
    let status := robloxStatus w in
    let w := if PathStatus_eqb status Success
             then extractWaypoints w
             else PathFSM.triggerPathFailed ev status w in
    (Resolved status, w).

Definition followNextWaypoint (ev : PathFSMEvents) (humanoid : Humanoid)
    (waypointReachedDistance : R) (w : World) : World :=
  if List.length (currentWaypoints w) <=? currentWaypointIndex w then
    cleanupConnections (PathFSM.triggerPathCompleted ev w)
  else
    match nth_error (currentWaypoints w) (currentWaypointIndex w) with
    | None => w
    | Some waypoint =>
        let w := if PathWaypointAction_eqb (action waypoint) Jump
                 then emit (SetJump humanoid) w else w in
        let w := emit (MoveTo humanoid (position waypoint)) w in
        let (c, w) := Connect humanoid waypoint waypointReachedDistance w in
        set_followConnection (Some c) w
    end.

(** The closure connected by [followNextWaypoint], run on a tick.
    [rootPart] is the position of the humanoid's root part, if it has
    one. *)
Definition onHeartbeat (ev : PathFSMEvents) (t : Tick)
    (rootPart : option Vector3) (w : World) : World :=
  match rootPart with
  | None => w
  | Some p =>
      let waypoint := tick_waypoint t in
      let distance := Magnitude (sub p (position waypoint)) in
      if Rle_dec distance (tick_reachedDistance t) then
        let w := cleanupConnections w in
        let w := PathFSM.triggerWaypointReached ev waypoint
                   (currentWaypointIndex w) w in
        let w := set_currentWaypointIndex (S (currentWaypointIndex w)) w in
        if PathState_eqb (getState w) Following
        then followNextWaypoint ev (tick_humanoid t)
               (tick_reachedDistance t) w
        else w
      else w
  end.

(** The host fires the tick on connection [id], if it is still connected. *)
Definition tick (ev : PathFSMEvents) (id : nat) (rootPart : option Vector3)
    (w : World) : World :=
  match find (fun t => tick_id t =? id) (heartbeat w) with
  | Some t => onHeartbeat ev t rootPart w
  | None => w
  end.

(** The default value of the parameter [waypointReachedDistance]. *)
Definition defaultReachedDistance (d : option R) : R :=
  match d with Some d => d | None => 5%R end.

Definition startFollowing (ev : PathFSMEvents) (humanoid : Humanoid)
    (waypointReachedDistance : option R) (w : World) : World :=
  let d := defaultReachedDistance waypointReachedDistance in
  if List.length (currentWaypoints w) =? 0 then
    PathFSM.triggerPathFailed ev NoPath w
  else
    let (accepted, w) := PathFSM.transitionTo ev Following w in
    if negb accepted then
      warn ("Cannot start following in current state: "
            ++ PathState_name (getState w)) w
    else
      let w := cleanupConnections w in
      followNextWaypoint ev humanoid d w.

Definition pause (ev : PathFSMEvents) (w : World) : World :=
  let (accepted, w) := PathFSM.transitionTo ev Paused w in
  if accepted then cleanupConnections w else w.

Definition resume (ev : PathFSMEvents) (humanoid : Humanoid)
    (waypointReachedDistance : option R) (w : World) : World :=
  let d := defaultReachedDistance waypointReachedDistance in
  let (accepted, w) := PathFSM.transitionTo ev Following w in
  if accepted then followNextWaypoint ev humanoid d w else w.

Definition stop (ev : PathFSMEvents) (w : World) : World :=
  let w := cleanupConnections w in
  let w := snd (PathFSM.transitionTo ev Idle w) in
  set_currentWaypointIndex 0 w.

(** The listener connected by [setupPathBlockedListener]. *)
Definition onBlocked (ev : PathFSMEvents) (w : World) : World :=
  if PathState_eqb (getState w) Following
  then PathFSM.triggerPathBlocked ev w
  else w.

(** The host fires the blocked signal of the search handle. *)
Definition blockedSignal (ev : PathFSMEvents) (w : World) : World :=
  if pathBlockedConnection w then onBlocked ev w else w.

Definition getWaypoints (w : World) : option (list Waypoint) :=
  if negb (PathStatus_eqb (robloxStatus w) Success) then None
  else Some (currentWaypoints w).

(** The body of the [for] loop of [getDistance], run [n] times from
    index [i]. *)
Fixpoint getDistance_loop (wps : list Waypoint) (n i : nat)
    (totalDistance : R) : R :=
  match n with
  | O => totalDistance
  | S n' =>
      match nth_error wps i, nth_error wps (i + 1) with
      | Some current, Some nextWaypoint =>
          getDistance_loop wps n' (i + 1)
            (totalDistance
             + Magnitude (sub (position current) (position nextWaypoint)))
      | _, _ => totalDistance
      end
  end.

Definition getDistance (w : World) : R :=
  if negb (PathStatus_eqb (robloxStatus w) Success)
     || (List.length (currentWaypoints w) =? 0)
  then 0%R
  else getDistance_loop (currentWaypoints w)
         (List.length (currentWaypoints w) - 1) 0 0%R.

Definition getStatus (w : World) : PathStatus := robloxStatus w.

Definition isSuccess (w : World) : bool :=
  PathStatus_eqb (robloxStatus w) Success.

Definition getCurrentWaypointIndex (w : World) : nat :=
  currentWaypointIndex w.

Definition getWaypointCount (w : World) : nat :=
  List.length (currentWaypoints w).

Definition destroy (ev : PathFSMEvents) (w : World) : World :=
  let w := stop ev w in
  let w := if pathBlockedConnection w
           then set_pathBlockedConnection false w else w in
  emit DestroyCall w.

End Path.

(** ** smartpath.ts: SmartPath *)

Module SmartPath.

(** The options as the caller gives them: every field may be absent. *)
Record SmartPathOptions : Type := mkSmartPathOptions
  { opt_maxRetries : option Z;
    opt_retryDelay : option Q;
    opt_useExponentialBackoff : option bool;
    opt_shouldRetry : option (PathStatus -> Z -> bool) }.

(** [Required<SmartPathOptions>], the field [smartOptions]. *)
Record RequiredOptions : Type := mkRequiredOptions
  { maxRetries : Z;
    retryDelay : Q;
    useExponentialBackoff : bool;
    shouldRetry : PathStatus -> Z -> bool }.

(** [defaultShouldRetry] reads [this.smartOptions.maxRetries]. *)
Definition defaultShouldRetry (smartOptions_maxRetries : Z)
    (reason : PathStatus) (attempt : Z) : bool :=
  if PathStatus_eqb reason NoPath then false
  else if PathStatus_eqb reason ClosestOutOfRange then false
  else (attempt <? smartOptions_maxRetries)%Z.

Definition normalizeSmartOptions (options : SmartPathOptions)
  : RequiredOptions :=
  let m := match opt_maxRetries options with Some v => v | None => 3%Z end in
  {| maxRetries := m;
     retryDelay :=
       match opt_retryDelay options with Some v => v | None => 1%Q end;
     useExponentialBackoff :=
       match opt_useExponentialBackoff options with
       | Some v => v
       | None => true
       end;
     shouldRetry :=
       match opt_shouldRetry options with
       | Some f => f
       | None => fun reason attempt => defaultShouldRetry m reason attempt
       end |}.

Definition shouldAttemptRetry (so : RequiredOptions) (w : World) : bool :=
  (retryAttempts w <? maxRetries so)%Z.

(** The delay computed by [waitForRetry]. *)
Definition retryWait (so : RequiredOptions) (w : World) : Q :=
  let delay := retryDelay so in
  if useExponentialBackoff so
  then (delay * 2 ^ (retryAttempts w - 1))%Q
  else delay.

(** [await this.waitForRetry()]: the sequence of kind [k] is suspended in
    [task.wait(delay)]; the rest of it runs when the host wakes it. *)
Definition waitForRetry (so : RequiredOptions) (k : RetryKind) (w : World)
  : World :=
  set_suspended (suspended w ++ [mkSuspended k (retryWait so w)]) w.

(** [handleBlocked], up to its suspension. *)
Definition handleBlocked (so : RequiredOptions) (w : World) : World :=
  if negb (shouldAttemptRetry so w) then w
  else
    let w := set_retryAttempts (retryAttempts w + 1)%Z w in
    waitForRetry so AfterBlocked w.

(** [handleFailure], up to its suspension. *)
Definition handleFailure (so : RequiredOptions) (reason : PathStatus)
    (w : World) : World :=
  if negb (shouldRetry so reason (retryAttempts w)) then w
  else if negb (shouldAttemptRetry so w) then w
  else
    let w := set_retryAttempts (retryAttempts w + 1)%Z w in
    waitForRetry so AfterFailure w.

(** The events handed to the FSM by the constructor. *)
Definition enhancedEvents (fsmEvents : PathFSMEvents) (so : RequiredOptions)
  : PathFSMEvents :=
  {| onStateChanged := onStateChanged fsmEvents;
     onWaypointReached := onWaypointReached fsmEvents;
     onPathCompleted := onPathCompleted fsmEvents;
     onPathFailed :=
       Some (fun reason w =>
               let w := match onPathFailed fsmEvents with
                        | Some cb => cb reason w
                        | None => w
                        end in
               handleFailure so reason w);
     onPathBlocked :=
       Some (fun w =>
               let w := match onPathBlocked fsmEvents with
                        | Some cb => cb w
                        | None => w
                        end in
               handleBlocked so w) |}.

Section Methods.

Variable fsmEvents : PathFSMEvents.
Variable smartOptions : SmartPathOptions.

Let so : RequiredOptions := normalizeSmartOptions smartOptions.
Let ev : PathFSMEvents := enhancedEvents fsmEvents so.

Definition computeAsync (start finish : Vector3)
    (answer : PathStatus * list PathWaypoint) (w : World)
  : Path.Outcome * World :=
  let w := set_lastEndpoints (Some start) (Some finish) w in
  let w := set_retryAttempts 0%Z w in
  Path.computeAsync ev start finish answer w.

Definition startFollowing (humanoid : Humanoid)
    (waypointReachedDistance : option R) (w : World) : World :=
  let d := Path.defaultReachedDistance waypointReachedDistance in
  let w := set_followContext (Some humanoid) (Some d) w in
  Path.startFollowing ev humanoid (Some d) w.

(** [handleBlocked], after its suspension. *)
Definition handleBlocked_resumed
    (answer : PathStatus * list PathWaypoint) (w : World) : World :=
  match lastStart w, lastFinish w with
  | Some s, Some f =>
      match computeAsync s f answer w with
      | (Path.Resolved status, w) =>
          if PathStatus_eqb status Success then
            match currentHumanoid w with
            | Some h => startFollowing h (currentWaypointDistance w) w
            | None => w
            end
          else w
      | (Path.Raised error, w) =>
          warn ("SmartPath retry failed: " ++ error) w
      end
  | _, _ => w
  end.

(** [handleFailure], after its suspension. *)
Definition handleFailure_resumed
    (answer : PathStatus * list PathWaypoint) (w : World) : World :=
  match lastStart w, lastFinish w with
  | Some s, Some f =>
      match computeAsync s f answer w with
      | (Path.Resolved _, w) => w
      | (Path.Raised error, w) =>
          warn ("SmartPath retry failed: " ++ error) w
      end
  | _, _ => w
  end.

(** The host ends the [task.wait] of the [i]-th suspended recovery
    sequence; [answer] is what the search service will report if the
    sequence recomputes. *)
Definition wake (i : nat) (answer : PathStatus * list PathWaypoint)
    (w : World) : World :=
  match nth_error (suspended w) i with
  | None => w
  | Some s =>
      let w := set_suspended
                 (firstn i (suspended w) ++ skipn (S i) (suspended w)) w in
      match sus_kind s with
      | AfterBlocked => handleBlocked_resumed answer w
      | AfterFailure => handleFailure_resumed answer w
      end
  end.

Definition getRetryAttempts (w : World) : Z := retryAttempts w.

Definition getMaxRetries : Z := maxRetries so.

Definition areRetriesExhausted (w : World) : bool :=
  (retryAttempts w >=? maxRetries so)%Z.

Definition resetRetries (w : World) : World := set_retryAttempts 0%Z w.

Definition destroy (w : World) : World :=
  let w := set_lastEndpoints None None w in
  let w := set_followContext None None w in
  let w := set_retryAttempts 0%Z w in
  Path.destroy ev w.

End Methods.

End SmartPath.

(** ** Instances

    The caller's callbacks are code the library does not see.  They are taken
    as observers: a callback that was supplied records its call, with its
    arguments, in the trace, and touches nothing else. *)

Record Callbacks : Type := mkCallbacks
  { with_onStateChanged : bool;
    with_onWaypointReached : bool;
    with_onPathCompleted : bool;
    with_onPathFailed : bool;
    with_onPathBlocked : bool }.

Definition callerEvents (c : Callbacks) : PathFSMEvents :=
  {| onStateChanged :=
       if with_onStateChanged c
       then Some (fun o n => emit (StateChanged o n)) else None;
     onWaypointReached :=
       if with_onWaypointReached c
       then Some (fun wp i => emit (WaypointReached wp i)) else None;
     onPathCompleted :=
       if with_onPathCompleted c then Some (emit PathCompleted) else None;
     onPathFailed :=
       if with_onPathFailed c
       then Some (fun reason => emit (PathFailed reason)) else None;
     onPathBlocked :=
       if with_onPathBlocked c then Some (emit PathBlocked) else None |}.

(** An instance is a [Path] or a [SmartPath]; the events its FSM holds are the
    caller's, or the caller's wrapped by the [SmartPath] constructor. *)
Inductive Instance : Type :=
| APath (c : Callbacks)
| ASmartPath (c : Callbacks) (smartOptions : SmartPath.SmartPathOptions).

Definition eventsOf (i : Instance) : PathFSMEvents :=
  match i with
  | APath c => callerEvents c
  | ASmartPath c o =>
      SmartPath.enhancedEvents (callerEvents c)
        (SmartPath.normalizeSmartOptions o)
  end.

Definition callbacksOf (i : Instance) : Callbacks :=
  match i with APath c => c | ASmartPath c _ => c end.

(** What a caller's callback adds to the trace: its call if it was supplied. *)
Definition fired (supplied : bool) (o : Obs) : list Obs :=
  if supplied then [o] else [].

(** ** Vocabulary of the statements and the scenarios they use *)

(** [canTransitionTo] reads the current state only. *)
Definition allowed (S T : PathState) : bool :=
  match PathFSM.Map_get PathFSM.validTransitions S with
  | Some validStates => PathFSM.includes validStates T
  | None => false
  end.

Definition invalidTransition (S T : PathState) : string :=
  "Invalid state transition from " ++ PathState_name S ++ " to "
  ++ PathState_name T.

Definition retry_only (w w' : World) : Prop :=
  set_suspended (suspended w) (set_retryAttempts (retryAttempts w) w') = w.

(** What the [SmartPath] wrapper of a callback runs after the caller's. *)
Definition afterFailed (i : Instance) (reason : PathStatus) (w : World)
  : World :=
  match i with
  | APath _ => w
  | ASmartPath _ o =>
      SmartPath.handleFailure (SmartPath.normalizeSmartOptions o) reason w
  end.

Definition afterBlocked (i : Instance) (w : World) : World :=
  match i with
  | APath _ => w
  | ASmartPath _ o =>
      SmartPath.handleBlocked (SmartPath.normalizeSmartOptions o) w
  end.

(** Appends caller-visible events to the trace. *)
Definition emits (l : list Obs) (w : World) : World :=
  set_trace (trace w ++ l) w.

(** What a validated transition to [T] adds to the trace in state [S]. *)
Definition transitionTrace (i : Instance) (S T : PathState) : list Obs :=
  if allowed S T
  then fired (with_onStateChanged (callbacksOf i)) (StateChanged S T)
  else [Warn (invalidTransition S T)].

Definition allCallbacks : Callbacks := mkCallbacks true true true true true.

Definition cannotCompute (S : PathState) : string :=
  "Cannot compute path in current state: " ++ PathState_name S.

(** The store in which [computeAsync] reads the answer of the search. *)
Definition searched (i : Instance) (start finish : Vector3)
    (answer : PathStatus * list PathWaypoint) (w : World) : World :=
  set_roblox (fst answer) (snd answer)
    (emit (SearchCall start finish)
       (snd (PathFSM.transitionTo (eventsOf i) Computing w))).

(** Three waypoints as the search service reports them. *)
Definition route : list PathWaypoint :=
  [ mkPathWaypoint (mkVector3 0 0 0) Walk;
    mkPathWaypoint (mkVector3 3 0 0) Walk;
    mkPathWaypoint (mkVector3 3 4 0) Jump ].

Definition startPoint : Vector3 := mkVector3 0 0 0.
Definition finishPoint : Vector3 := mkVector3 3 4 0.

(** A controller that computed [route] and is following it. *)
Definition followingRoute (i : Instance) : World :=
  Path.startFollowing (eventsOf i) 1 None
    (snd (Path.computeAsync (eventsOf i) startPoint finishPoint
            (Success, route) (Path.construct NoPath))).

(** The controller following [route], once a tick has found the humanoid at
    the first waypoint. *)
Definition reachedFirst (i : Instance) : World :=
  Path.tick (eventsOf i) 0 (Some startPoint) (followingRoute i).

(** The method a call reaches on an instance: [SmartPath] overrides
    [computeAsync] and [startFollowing]. *)
Definition computeAsync_of (i : Instance) (start finish : Vector3)
    (answer : PathStatus * list PathWaypoint) (w : World)
  : Path.Outcome * World :=
  match i with
  | APath c => Path.computeAsync (callerEvents c) start finish answer w
  | ASmartPath c o =>
      SmartPath.computeAsync (callerEvents c) o start finish answer w
  end.

Definition startFollowing_of (i : Instance) (h : Humanoid) (d : option R)
    (w : World) : World :=
  match i with
  | APath c => Path.startFollowing (callerEvents c) h d w
  | ASmartPath c o => SmartPath.startFollowing (callerEvents c) o h d w
  end.

(** What [followNextWaypoint] sends to the humanoid for a waypoint. *)
Definition driveTrace (h : Humanoid) (wp : Waypoint) : list Obs :=
  (if PathWaypointAction_eqb (action wp) Jump then [SetJump h] else [])
  ++ [MoveTo h (position wp)].

(** The Euclidean distance between two points. *)
Definition euclid (a b : Vector3) : R :=
  sqrt ((vX a - vX b) * (vX a - vX b) + (vY a - vY b) * (vY a - vY b)
        + (vZ a - vZ b) * (vZ a - vZ b)).

(** The sum of the distances between consecutive waypoints. *)
Fixpoint consecutiveSum (wps : list Waypoint) : R :=
  match wps with
  | a :: rest =>
      match rest with
      | b :: _ => euclid (position a) (position b) + consecutiveSum rest
      | [] => 0
      end
  | [] => 0
  end.

(** The factor of the backoff at attempt [n]. *)
Definition backoffFactor (so : SmartPath.RequiredOptions) (n : Z) : Q :=
  if SmartPath.useExponentialBackoff so then inject_Z (2 ^ (n - 1)) else 1%Q.

(** A [SmartPath] told to wait one second, with the defaults otherwise
    (three retries, exponential backoff). *)
Definition oneSecond : SmartPath.RequiredOptions :=
  SmartPath.normalizeSmartOptions
    (SmartPath.mkSmartPathOptions None (Some 1%Q) None None).

(** A [SmartPath] with [maxRetries] 2 and a delay of one second. *)
Definition twoRetries : SmartPath.SmartPathOptions :=
  SmartPath.mkSmartPathOptions (Some 2%Z) (Some 1%Q) (Some true) None.

Definition smartTwo : Instance := ASmartPath allCallbacks twoRetries.

(** The number of calls of the search service in a trace. *)
Definition searchCalls (t : list Obs) : nat :=
  List.length
    (filter (fun o => match o with SearchCall _ _ => true | _ => false end) t).

(** One blocked event while following, then the recovery it suspended runs
    to its end, the search succeeding again. *)
Definition blockedAndRecovered (w : World) : World :=
  SmartPath.wake (callerEvents allCallbacks) twoRetries 0 (Success, route)
    (Path.blockedSignal (eventsOf smartTwo) w).

(** The caller computes [route] on a [SmartPath] with [maxRetries] 2 and
    follows it. *)
Definition smartFollowing : World :=
  startFollowing_of smartTwo 1 None
    (snd (computeAsync_of smartTwo startPoint finishPoint (Success, route)
            (Path.construct NoPath))).

(** ** utils.ts: PathfindingUtils *)

From Stdlib Require Import Qround Sorted.
Close Scope Q_scope.

(** A comparison of two numbers, as a boolean. *)
Definition Rleb (a b : R) : bool := if Rle_dec a b then true else false.
Definition Rltb (a b : R) : bool := if Rlt_dec a b then true else false.



(** [for (let i = from; i < from + count; i++) acc = body(i, acc)]. *)
Fixpoint forLoop {A : Type} (count from : nat) (body : nat -> A -> A)
    (acc : A) : A :=
  match count with
  | O => acc
  | S count' => forLoop count' (S from) body (body from acc)
  end.

(** [array.push(x)], where [x] is the result of reading an array: reading
    outside the array gives [undefined], and pushing that adds nothing. *)
Definition push {A : Type} (array : list A) (x : option A) : list A :=
  match x with
  | Some v => array ++ [v]
  | None => array
  end.

(** [maxDistance] may be [math.huge]. *)
Inductive MaxDistance : Type := huge | finite (q : Q).

(** [PathOptions]: every field may be absent.  [modifiers] is a table from
    material names to costs, kept as the list of its entries. *)
Record PathOptions : Type := mkPathOptions
  { opt_agentRadius : option Q;
    opt_agentHeight : option Q;
    opt_agentCanJump : option bool;
    opt_agentCanClimb : option bool;
    opt_maxDistance : option MaxDistance;
    opt_modifiers : option (list (string * Q)) }.

(** [Required<PathOptions>]. *)
Record RequiredPathOptions : Type := mkRequiredPathOptions
  { agentRadius : Q;
    agentHeight : Q;
    agentCanJump : bool;
    agentCanClimb : bool;
    maxDistance : MaxDistance;
    modifiers : list (string * Q) }.

(** [a ?? b]. *)
Definition orElse {A : Type} (a : option A) (b : A) : A :=
  match a with Some v => v | None => b end.

(** [Path.normalizeOptions] of path.ts. *)
Definition Path_normalizeOptions (options : PathOptions)
  : RequiredPathOptions :=
  {| agentRadius := orElse (opt_agentRadius options) 2%Q;
     agentHeight := orElse (opt_agentHeight options) 5%Q;
     agentCanJump := orElse (opt_agentCanJump options) true;
     agentCanClimb := orElse (opt_agentCanClimb options) false;
     maxDistance := orElse (opt_maxDistance options) huge;
     modifiers := orElse (opt_modifiers options) [] |}.

Module PathfindingUtils.

(** What an [async] function settles with. *)
Inductive Settled (A : Type) : Type :=
| Fulfilled (value : A)
| Rejected (message : string).
Arguments Fulfilled {A} value.
Arguments Rejected {A} message.

(** [new Path(options)] with no events; the options only reach the host's
    [CreatePath].  [hostStatus] is the status of the new search handle. *)
Definition noEvents : PathFSMEvents := mkEvents None None None None None.

(** The path object is returned as its store. *)
Definition createPath (hostStatus : PathStatus) (start finish : Vector3)
    (answer : PathStatus * list PathWaypoint) : Settled World :=
  let path := Path.construct hostStatus in
  match Path.computeAsync noEvents start finish answer path with
  | (Path.Resolved _, path) => Fulfilled path
  | (Path.Raised message, _) => Rejected message
  end.

(** [new SmartPath(options, {}, { maxRetries })]. *)
Definition createSmartPath (hostStatus : PathStatus) (start finish : Vector3)
    (maxRetries : option Z) (answer : PathStatus * list PathWaypoint)
  : Settled World :=
  let smartOptions :=
    SmartPath.mkSmartPathOptions (Some (orElse maxRetries 3%Z)) None None None
  in
  let path := Path.construct hostStatus in
  match SmartPath.computeAsync noEvents smartOptions start finish answer path
  with
  | (Path.Resolved _, path) => Fulfilled path
  | (Path.Raised message, _) => Rejected message
  end.

(** The three one-shot queries return their result with the store of the
    path they destroyed. *)
Definition getWaypoints (hostStatus : PathStatus) (start finish : Vector3)
    (answer : PathStatus * list PathWaypoint)
  : Settled (option (list Waypoint) * World) :=
  match createPath hostStatus start finish answer with
  | Fulfilled path =>
      let waypoints := Path.getWaypoints path in
      let path := Path.destroy noEvents path in
      Fulfilled (waypoints, path)
  | Rejected message => Rejected message
  end.

Definition getPathDistance (hostStatus : PathStatus) (start finish : Vector3)
    (answer : PathStatus * list PathWaypoint) : Settled (R * World) :=
  match createPath hostStatus start finish answer with
  | Fulfilled path =>
      let distance := Path.getDistance path in
      let path := Path.destroy noEvents path in
      Fulfilled (distance, path)
  | Rejected message => Rejected message
  end.

Definition pathExists (hostStatus : PathStatus) (start finish : Vector3)
    (answer : PathStatus * list PathWaypoint) : Settled (bool * World) :=
  let path := Path.construct hostStatus in
  match Path.computeAsync noEvents start finish answer path with
  | (Path.Resolved status, path) =>
      let exists_ := Path.isSuccess path in
      let path := Path.destroy noEvents path in
      Fulfilled (exists_, path)
  | (Path.Raised message, _) => Rejected message
  end.

Definition getStraightLineDistance (start finish : Vector3) : R :=
  Magnitude (sub start finish).


(** [waypoints[index]] for a number [index]. *)
Definition at_ (waypoints : list Waypoint) (index : Z) : option Waypoint :=
  if (index <? 0)%Z then None else nth_error waypoints (Z.to_nat index).

(** [maxWaypoints] is taken as an integer; the quotient [step] and the
    products [i * step] are exact. *)
Definition filterWaypoints (waypoints : list Waypoint) (maxWaypoints : Z)
  : list Waypoint :=
  if (Z.of_nat (List.length waypoints) <=? maxWaypoints)%Z then waypoints
  else
    let filtered := [] in
    let step :=
      (inject_Z (Z.of_nat (List.length waypoints) - 1)
       / inject_Z (maxWaypoints - 1))%Q in
    let filtered := push filtered (at_ waypoints 0) in
    let filtered :=
      forLoop (Z.to_nat (maxWaypoints - 1 - 1)) 1
        (fun i filtered =>
           let index := Qfloor (inject_Z (Z.of_nat i) * step) in
           push filtered (at_ waypoints index))
        filtered in
    push filtered
      (at_ waypoints (Z.of_nat (List.length waypoints) - 1)).

Definition calculateWaypointDistance (waypoints : list Waypoint) : R :=
  if List.length waypoints <? 2 then 0%R
  else
    forLoop (List.length waypoints - 1) 1
      (fun i totalDistance =>
         match nth_error waypoints (i - 1), nth_error waypoints i with
         | Some a, Some b =>
             (totalDistance + Magnitude (sub (position a) (position b)))%R
         | _, _ => totalDistance
         end)
      0%R.

Definition findJumpWaypoints (waypoints : list Waypoint) : list nat :=
  forLoop (List.length waypoints) 0
    (fun i jumpIndices =>
       match nth_error waypoints i with
       | Some wp =>
           if PathWaypointAction_eqb (action wp) Jump
           then jumpIndices ++ [i] else jumpIndices
       | None => jumpIndices
       end)
    [].



(** The result is an index, or -1. *)
Definition findClosestWaypoint (position_ : Vector3)
    (waypoints : list Waypoint) : Z :=
  match waypoints with
  | [] => (-1)%Z
  | first :: _ =>
      let closestIndex := 0 in
      let closestDistance := Magnitude (sub position_ (position first)) in
      let (closestIndex, _) :=
        forLoop (List.length waypoints - 1) 1
          (fun i (closest : nat * R) =>
             match nth_error waypoints i with
             | Some wp =>
                 let distance := Magnitude (sub position_ (position wp)) in
                 if Rltb distance (snd closest) then (i, distance)
                 else closest
             | None => closest
             end)
          (closestIndex, closestDistance) in
      Z.of_nat closestIndex
  end.

Section SimplifyPath.

(** The host's [Vector3.Unit] and [Vector3.Dot]. *)
Variable Unit : Vector3 -> Vector3.
Variable Dot : Vector3 -> Vector3 -> R.

(** [math.clamp] and [math.rad]. *)
Definition clamp (x lo hi : R) : R := Rmax lo (Rmin hi x).
Definition rad (degrees : R) : R := (degrees * PI / 180)%R.

(** The default value of the parameter [tolerance] is 10. *)
Definition simplifyPath (waypoints : list Waypoint) (tolerance : option R)
  : list Waypoint :=
  if List.length waypoints <=? 2 then waypoints
  else
    let simplified := push [] (nth_error waypoints 0) in
    let toleranceRad := rad (orElse tolerance 10%R) in
    let simplified :=
      forLoop (List.length waypoints - 1 - 1) 1
        (fun i simplified =>
           match nth_error waypoints (i - 1), nth_error waypoints i,
                 nth_error waypoints (i + 1) with
           | Some p, Some c, Some n =>
               let prev := position p in
               let current := position c in
               let nextWaypoint := position n in
               let dir1 := Unit (sub current prev) in
               let dir2 := Unit (sub nextWaypoint current) in
               let dot := Dot dir1 dir2 in
               let angle := acos (clamp dot (-1) 1) in
               if Rltb toleranceRad angle
                  || negb (PathWaypointAction_eqb (action c) Walk)
               then push simplified (Some c) else simplified
           | _, _, _ => simplified
           end)
        simplified in
    push simplified (nth_error waypoints (List.length waypoints - 1)).

End SimplifyPath.

Definition validateOptions (options : option PathOptions)
  : RequiredPathOptions :=
  {| agentRadius :=
       orElse (match options with Some o => opt_agentRadius o | None => None end)
         2%Q;
     agentHeight :=
       orElse (match options with Some o => opt_agentHeight o | None => None end)
         5%Q;
     agentCanJump :=
       orElse (match options with Some o => opt_agentCanJump o | None => None end)
         true;
     agentCanClimb :=
       orElse
         (match options with Some o => opt_agentCanClimb o | None => None end)
         false;
     maxDistance :=
       orElse (match options with Some o => opt_maxDistance o | None => None end)
         huge;
     modifiers :=
       orElse (match options with Some o => opt_modifiers o | None => None end)
         [] |}.

(** The loop over the entries of [modifiers]: it counts them and stops,
    adding one to the impact, at the sixth. *)
Fixpoint modifiersLoop (entries : list (string * Q)) (modifierCount : nat)
    (impact : nat) : nat :=
  match entries with
  | [] => impact
  | _ :: rest =>
      let modifierCount := S modifierCount in
      if 5 <? modifierCount then impact + 1
      else modifiersLoop rest modifierCount impact
  end.

Definition estimatePerformanceImpact (start finish : Vector3)
    (options : option PathOptions) : string :=
  let distance := getStraightLineDistance start finish in
  let validatedOptions := validateOptions options in
  let impact := 0 in
  let impact :=
    if Rltb 500 distance then impact + 2
    else if Rltb 200 distance then impact + 1
    else impact in
  let impact :=
    match maxDistance validatedOptions with
    | huge => impact
    | finite d => if Qlt_le_dec 1000 d then impact + 1 else impact
    end in
  let impact := if agentCanClimb validatedOptions then impact + 1 else impact in
  let impact :=
    if Qlt_le_dec 5 (agentRadius validatedOptions) then impact + 1
    else impact in
  let impact :=
    match modifiers validatedOptions with
    | [] => impact
    | _ :: _ => modifiersLoop (modifiers validatedOptions) 0 impact
    end in
  if 4 <=? impact then "high"
  else if 2 <=? impact then "medium"
  else "low".

End PathfindingUtils.

(** ** Vocabulary of the further statements *)

(** Options in which every field is given: a [Required<PathOptions>] read
    as a [PathOptions]. *)
Definition given (r : RequiredPathOptions) : PathOptions :=
  mkPathOptions (Some (agentRadius r)) (Some (agentHeight r))
    (Some (agentCanJump r)) (Some (agentCanClimb r))
    (Some (maxDistance r)) (Some (modifiers r)).

(** The options of a constructor called without any: [{}]. *)
Definition noOptions : PathOptions :=
  mkPathOptions None None None None None None.

(** The waypoint at index [i] asks for a jump. *)
Definition isJumpAt (wps : list Waypoint) (i : nat) : bool :=
  match nth_error wps i with
  | Some wp => PathWaypointAction_eqb (action wp) Jump
  | None => false
  end.

(** Among the first [n] waypoints, the one at index [k] is closest to [p],
    and it is the first that close. *)
Definition closestAmong (p : Vector3) (wps : list Waypoint) (n k : nat)
  : Prop :=
  k < n
  /\ exists wk,
       nth_error wps k = Some wk
       /\ (forall j wj, j < n -> nth_error wps j = Some wj ->
           (euclid p (position wk) <= euclid p (position wj))%R)
       /\ (forall j wj, j < k -> nth_error wps j = Some wj ->
           (euclid p (position wk) < euclid p (position wj))%R).


(** Five waypoints on a line. *)
Definition fiveWaypoints : list Waypoint :=
  [ mkWaypoint (mkVector3 0 0 0) Walk; mkWaypoint (mkVector3 1 0 0) Walk;
    mkWaypoint (mkVector3 2 0 0) Jump; mkWaypoint (mkVector3 3 0 0) Walk;
    mkWaypoint (mkVector3 4 0 0) Walk ].

(** The test [simplifyPath] applies to the waypoint at index [i]: the path
    turns there by more than the tolerance, or the waypoint is not a plain
    walk. *)
Definition turnsOrActs (Unit : Vector3 -> Vector3)
    (Dot : Vector3 -> Vector3 -> R) (wps : list Waypoint)
    (tolerance : option R) (i : nat) : bool :=
  match nth_error wps (i - 1), nth_error wps i, nth_error wps (i + 1) with
  | Some p, Some c, Some n =>
      Rltb (PathfindingUtils.rad (orElse tolerance 10%R))
        (acos (PathfindingUtils.clamp
                 (Dot (Unit (sub (position c) (position p)))
                    (Unit (sub (position n) (position c))))
                 (-1) 1))
      || negb (PathWaypointAction_eqb (action c) Walk)
  | _, _, _ => false
  end.

(** The indices [simplifyPath] keeps in a list of more than two waypoints. *)
Definition simplifyKeeps (Unit : Vector3 -> Vector3)
    (Dot : Vector3 -> Vector3 -> R) (wps : list Waypoint)
    (tolerance : option R) (i : nat) : bool :=
  (i =? 0) || (i =? List.length wps - 1)
  || turnsOrActs Unit Dot wps tolerance i.

(** The waypoints the controller caches for what the search reports. *)
Definition cached (wps : list PathWaypoint) : list Waypoint :=
  map (fun wp => mkWaypoint (Position wp) (Action wp)) wps.

(** What a one-shot query leaves in the trace: the search, then the
    destruction of the handle; after a success the [stop] inside [destroy]
    is turned down, since the controller is still in [Computing]. *)
Definition oneShotTrace (start finish : Vector3) (status : PathStatus)
  : list Obs :=
  SearchCall start finish
  :: (if PathStatus_eqb status Success
      then [Warn (invalidTransition Computing Idle)] else [])
  ++ [DestroyCall].

(** The store a one-shot query leaves behind: nothing connected. *)
Definition released (start finish : Vector3) (status : PathStatus)
    (w : World) : Prop :=
  pathBlockedConnection w = false
  /\ followConnection w = None
  /\ heartbeat w = []
  /\ suspended w = []
  /\ trace w = oneShotTrace start finish status.

(** ** Runs of an instance

    What the caller and the host can do to an instance, in any order: the
    caller's calls, a tick on a connection of the per-frame signal, the
    blocked signal of the search handle, and the end of a suspended
    recovery's wait. *)
Inductive Op : Type :=
| DoComputeAsync (start finish : Vector3)
    (answer : PathStatus * list PathWaypoint)
| DoStartFollowing (h : Humanoid) (d : option R)
| DoPause
| DoResume (h : Humanoid) (d : option R)
| DoStop
| DoTick (id : nat) (rootPart : option Vector3)
| DoBlockedSignal
| DoWake (k : nat) (answer : PathStatus * list PathWaypoint)
| DoResetRetries.

(** Only a [SmartPath] suspends recoveries and has [resetRetries]. *)
Definition wake_of (i : Instance) (k : nat)
    (answer : PathStatus * list PathWaypoint) (w : World) : World :=
  match i with
  | APath _ => w
  | ASmartPath c o => SmartPath.wake (callerEvents c) o k answer w
  end.

Definition resetRetries_of (i : Instance) (w : World) : World :=
  match i with
  | APath _ => w
  | ASmartPath _ _ => SmartPath.resetRetries w
  end.

Definition step (i : Instance) (op : Op) (w : World) : World :=
  match op with
  | DoComputeAsync start finish answer =>
      snd (computeAsync_of i start finish answer w)
  | DoStartFollowing h d => startFollowing_of i h d w
  | DoPause => Path.pause (eventsOf i) w
  | DoResume h d => Path.resume (eventsOf i) h d w
  | DoStop => Path.stop (eventsOf i) w
  | DoTick id rootPart => Path.tick (eventsOf i) id rootPart w
  | DoBlockedSignal => Path.blockedSignal (eventsOf i) w
  | DoWake k answer => wake_of i k answer w
  | DoResetRetries => resetRetries_of i w
  end.

(** The store after the operations [ops], run in order on a new instance. *)
Definition run (i : Instance) (hostStatus : PathStatus) (ops : list Op)
  : World :=
  fold_left (fun w op => step i op w) ops (Path.construct hostStatus).

(** The retry budget of an instance. *)
Definition budget (i : Instance) : Z :=
  match i with
  | APath _ => 0%Z
  | ASmartPath _ o =>
      Z.max 0 (SmartPath.maxRetries (SmartPath.normalizeSmartOptions o))
  end.

(** What the getters guard on and read. *)
Definition search (w : World)
  : PathStatus * list PathWaypoint * list Waypoint :=
  (robloxStatus w, robloxWaypoints w, currentWaypoints w).

(** The cache is the one of the handle's waypoints whenever the handle's
    status is [Success]. *)
Definition neverStale (w : World) : Prop :=
  robloxStatus w = Success -> currentWaypoints w = cached (robloxWaypoints w).

Definition withinBudget (i : Instance) (w : World) : Prop :=
  (0 <= retryAttempts w <= budget i)%Z.

(** No follow connection is held in [Idle], [Paused] or [Completed]. *)
Definition settled (w : World) : Prop :=
  match currentState w with
  | Idle | Paused | Completed => followConnection w = None
  | _ => True
  end.

(** Every live connection, and the one the controller holds, was handed out
    before: a new connection is a new one. *)
Definition freshIds (w : World) : Prop :=
  Forall (fun t => tick_id t < nextConnection w) (heartbeat w)
  /\ forall c, followConnection w = Some c -> c < nextConnection w.

(** Two stores with the same handle status, waypoints, cache and retry
    counter. *)
Definition sameBase (w w' : World) : Prop :=
  search w' = search w /\ retryAttempts w' = retryAttempts w.

Definition sound (i : Instance) (w : World) : Prop :=
  neverStale w /\ withinBudget i w.

(** Two stores with the same connections. *)
Definition sameConn (w w' : World) : Prop :=
  followConnection w' = followConnection w
  /\ heartbeat w' = heartbeat w
  /\ nextConnection w' = nextConnection w.

Definition tidy (w : World) : Prop := settled w /\ freshIds w.

(** [transitionTo] for each state of [targets] in turn; the boolean tells
    whether all of them were accepted. *)
Fixpoint transitionAll (ev : PathFSMEvents) (targets : list PathState)
    (w : World) : bool * World :=
  match targets with
  | [] => (true, w)
  | T :: rest =>
      let (accepted, w) := PathFSM.transitionTo ev T w in
      let (others, w) := transitionAll ev rest w in
      (accepted && others, w)
  end.

(** A sequence of transitions that leads from [from] to [to]: back to
    [Idle] first, then out again. *)
Definition wayBetween (from to : PathState) : list PathState :=
  (match from with
   | Idle => []
   | Completed | Failed => [Idle]
   | Computing | Following | Blocked | Paused => [Failed; Idle]
   end)
  ++ (match to with
      | Idle => []
      | Computing => [Computing]
      | Following => [Computing; Following]
      | Failed => [Computing; Failed]
      | Blocked => [Computing; Following; Blocked]
      | Completed => [Computing; Following; Completed]
      | Paused => [Computing; Following; Paused]
      end).

(** The tick on the connection the controller holds, with the humanoid at
    the waypoint that connection is for. *)
Definition arrive (i : Instance) (w : World) : World :=
  match followConnection w with
  | Some c =>
      match find (fun t => tick_id t =? c) (heartbeat w) with
      | Some t =>
          Path.tick (eventsOf i) c (Some (position (tick_waypoint t))) w
      | None => w
      end
  | None => w
  end.

(** What the arrivals at the waypoints [l], the first of which has index
    [k], add to the trace: each is reported, then the humanoid is sent to
    the next one, and after the last the path is completed. *)
Fixpoint arrivalsTrace (i : Instance) (h : Humanoid) (k : nat)
    (l : list Waypoint) : list Obs :=
  match l with
  | [] => []
  | wp :: rest =>
      fired (with_onWaypointReached (callbacksOf i)) (WaypointReached wp k)
      ++ match rest with
         | [] =>
             fired (with_onStateChanged (callbacksOf i))
               (StateChanged Following Completed)
             ++ fired (with_onPathCompleted (callbacksOf i)) PathCompleted
         | next :: _ => driveTrace h next ++ arrivalsTrace i h (S k) rest
         end
  end.

(** The controller follows the waypoint at its current index: it is in
    [Following] and holds a live connection whose handler is for humanoid
    [h], that waypoint and threshold [d]. *)
Definition followingAt (h : Humanoid) (d : R) (w : World) : Prop :=
  currentState w = Following
  /\ freshIds w
  /\ exists c wp,
       followConnection w = Some c
       /\ nth_error (currentWaypoints w) (currentWaypointIndex w) = Some wp
       /\ find (fun t => tick_id t =? c) (heartbeat w)
          = Some (mkTick c h wp d).

(** ** Facts about the FSM *)

Lemma PathState_eqb_eq (a b : PathState) : PathState_eqb a b = true <-> a = b.
Proof. destruct a, b; simpl; split; intro H; congruence. Qed.

Lemma PathState_eqb_refl (a : PathState) : PathState_eqb a a = true.
Proof. destruct a; reflexivity. Qed.

Lemma PathStatus_eqb_eq (a b : PathStatus) : PathStatus_eqb a b = true <-> a = b.
Proof. destruct a, b; simpl; split; intro H; congruence. Qed.

Lemma includes_In (l : list PathState) (x : PathState) :
  PathFSM.includes l x = true <-> In x l.
Proof.
  unfold PathFSM.includes. rewrite existsb_exists. split.
  - intros [y [Hy Heq]]. apply PathState_eqb_eq in Heq. now subst.
  - intro H. exists x. split; [assumption | apply PathState_eqb_refl].
Qed.

(** The table has one entry per state, so [Map_get] finds the only entry. *)
Lemma Map_get_entry (S : PathState) (entry : list PathState) :
  PathFSM.Map_get PathFSM.validTransitions S = Some entry <->
  In (S, entry) PathFSM.validTransitions.
Proof.
  split.
  - destruct S; simpl; intro H; injection H as <-; tauto.
  - simpl. intro H.
    repeat (destruct H as [H | H]; [injection H as <- <-; reflexivity | ]).
    contradiction.
Qed.

Lemma canTransitionTo_table (T : PathState) (w : World) :
  PathFSM.canTransitionTo T w = true <->
  exists entry,
    In (currentState w, entry) PathFSM.validTransitions /\ In T entry.
Proof.
  unfold PathFSM.canTransitionTo. split.
  - destruct (PathFSM.Map_get _ _) as [entry | ] eqn:E; [ | discriminate].
    intro H. exists entry. split.
    + now apply Map_get_entry.
    + now apply includes_In.
  - intros [entry [Hin HT]]. apply Map_get_entry in Hin. rewrite Hin.
    now apply includes_In.
Qed.

(** The entries of the table, state by state. *)
Lemma getValidTransitions_entries (w : World) :
  PathFSM.getValidTransitions w
  = match currentState w with
    | Idle => [Computing]
    | Computing => [Following; Failed]
    | Following => [Blocked; Completed; Failed; Paused; Computing]
    | Blocked => [Computing; Failed; Following]
    | Paused => [Following; Computing; Failed]
    | Completed | Failed => [Idle; Computing]
    end.
Proof.
  unfold PathFSM.getValidTransitions. destruct (currentState w); reflexivity.
Qed.

Lemma canTransitionTo_allowed (T : PathState) (w : World) :
  PathFSM.canTransitionTo T w = allowed (currentState w) T.
Proof. reflexivity. Qed.

Lemma onStateChanged_eventsOf (i : Instance) :
  onStateChanged (eventsOf i) =
  if with_onStateChanged (callbacksOf i)
  then Some (fun o n => emit (StateChanged o n)) else None.
Proof. destruct i; reflexivity. Qed.

Lemma set_trace_same (w : World) : set_trace (trace w) w = w.
Proof. destruct w; reflexivity. Qed.

(** What a validated transition does on an instance. *)
Lemma transitionTo_eventsOf (i : Instance) (T : PathState) (w : World) :
  PathFSM.transitionTo (eventsOf i) T w =
  if PathFSM.canTransitionTo T w
  then (true,
        set_trace
          (trace w ++ fired (with_onStateChanged (callbacksOf i))
                        (StateChanged (currentState w) T))
          (set_currentState T w))
  else (false, warn (invalidTransition (currentState w) T) w).
Proof.
  unfold PathFSM.transitionTo. rewrite onStateChanged_eventsOf.
  destruct (PathFSM.canTransitionTo T w); simpl; [ | reflexivity].
  destruct (with_onStateChanged (callbacksOf i)); simpl.
  - reflexivity.
  - rewrite app_nil_r. destruct w; reflexivity.
Qed.

(** C1. For every pair of states S and T, [canTransitionTo(T)] called in
    state S is true exactly when T is in the table's entry for S.
    [transitionTo(T)] returns that same boolean.  When it is true the store
    afterwards is the store before with the current state set to T and the
    call of the state-changed callback, with (S, T), added to the trace, and
    T differs from S, so the state has changed; when it is false the state
    is unchanged and nothing but a warning is added to the trace, so no
    callback is called. *)
Theorem transitionTo_iff_table (i : Instance) (T : PathState) (w : World) :
  let S := currentState w in
  let r := PathFSM.transitionTo (eventsOf i) T w in
  (PathFSM.canTransitionTo T w = true <->
   exists entry, In (S, entry) PathFSM.validTransitions /\ In T entry)
  /\ fst r = PathFSM.canTransitionTo T w
  /\ (if PathFSM.canTransitionTo T w
      then currentState (snd r) = T
           /\ T <> S
           /\ snd r = set_trace
                        (trace w ++ fired (with_onStateChanged (callbacksOf i))
                                      (StateChanged S T))
                        (set_currentState T w)
      else currentState (snd r) = S
           /\ exists msg, snd r = set_trace (trace w ++ [Warn msg]) w).
Proof.
  cbv zeta. split; [apply canTransitionTo_table | ].
  rewrite transitionTo_eventsOf.
  destruct (PathFSM.canTransitionTo T w) eqn:E; simpl.
  - repeat split; try reflexivity.
    intros ->. unfold PathFSM.canTransitionTo in E.
    destruct (currentState w); discriminate.
  - split; [reflexivity | split; [reflexivity | ]].
    eexists. reflexivity.
Qed.

(** ** Facts about the retry hooks

    The synchronous part of a recovery sequence touches the retry counter and
    the list of suspended sequences, and nothing else. *)

Lemma retry_only_refl (w : World) : retry_only w w.
Proof. destruct w; reflexivity. Qed.

Lemma handleBlocked_retry_only (so : SmartPath.RequiredOptions) (w : World) :
  retry_only w (SmartPath.handleBlocked so w).
Proof.
  unfold SmartPath.handleBlocked.
  destruct (negb _); [apply retry_only_refl | destruct w; reflexivity].
Qed.

Lemma handleFailure_retry_only (so : SmartPath.RequiredOptions)
    (reason : PathStatus) (w : World) :
  retry_only w (SmartPath.handleFailure so reason w).
Proof.
  unfold SmartPath.handleFailure.
  destruct (negb _); [apply retry_only_refl | ].
  destruct (negb _); [apply retry_only_refl | destruct w; reflexivity].
Qed.

(** The fields [retry_only] leaves alone. *)
Lemma retry_only_frame (w w' : World) :
  retry_only w w' ->
  currentState w' = currentState w
  /\ trace w' = trace w
  /\ currentWaypoints w' = currentWaypoints w
  /\ currentWaypointIndex w' = currentWaypointIndex w
  /\ followConnection w' = followConnection w
  /\ heartbeat w' = heartbeat w
  /\ robloxStatus w' = robloxStatus w.
Proof.
  unfold retry_only. intros <-. repeat split; reflexivity.
Qed.

Lemma afterFailed_retry_only i reason w : retry_only w (afterFailed i reason w).
Proof.
  destruct i; [apply retry_only_refl | apply handleFailure_retry_only].
Qed.

Lemma afterBlocked_retry_only i w : retry_only w (afterBlocked i w).
Proof.
  destruct i; [apply retry_only_refl | apply handleBlocked_retry_only].
Qed.

Lemma emits_nil (w : World) : emits [] w = w.
Proof. unfold emits. rewrite app_nil_r. apply set_trace_same. Qed.

Lemma triggerPathCompleted_eventsOf (i : Instance) (w : World) :
  PathFSM.triggerPathCompleted (eventsOf i) w =
  emits (fired (with_onPathCompleted (callbacksOf i)) PathCompleted)
    (snd (PathFSM.transitionTo (eventsOf i) Completed w)).
Proof.
  unfold PathFSM.triggerPathCompleted.
  destruct i as [c | c o]; simpl;
    destruct (with_onPathCompleted c); simpl;
    first [reflexivity | now rewrite emits_nil].
Qed.

Lemma triggerPathFailed_eventsOf (i : Instance) (reason : PathStatus)
    (w : World) :
  PathFSM.triggerPathFailed (eventsOf i) reason w =
  afterFailed i reason
    (emits (fired (with_onPathFailed (callbacksOf i)) (PathFailed reason))
       (snd (PathFSM.transitionTo (eventsOf i) Failed w))).
Proof.
  unfold PathFSM.triggerPathFailed.
  destruct i as [c | c o]; simpl;
    destruct (with_onPathFailed c); simpl;
    first [reflexivity | now rewrite emits_nil].
Qed.

Lemma triggerPathBlocked_eventsOf (i : Instance) (w : World) :
  PathFSM.triggerPathBlocked (eventsOf i) w =
  afterBlocked i
    (emits (fired (with_onPathBlocked (callbacksOf i)) PathBlocked)
       (snd (PathFSM.transitionTo (eventsOf i) Blocked w))).
Proof.
  unfold PathFSM.triggerPathBlocked.
  destruct i as [c | c o]; simpl;
    destruct (with_onPathBlocked c); simpl;
    first [reflexivity | now rewrite emits_nil].
Qed.

Lemma transitionTo_state (i : Instance) (T : PathState) (w : World) :
  currentState (snd (PathFSM.transitionTo (eventsOf i) T w)) =
  if allowed (currentState w) T then T else currentState w.
Proof.
  rewrite transitionTo_eventsOf, canTransitionTo_allowed.
  destruct (allowed _ _); reflexivity.
Qed.

Lemma transitionTo_trace (i : Instance) (T : PathState) (w : World) :
  trace (snd (PathFSM.transitionTo (eventsOf i) T w)) =
  trace w ++ transitionTrace i (currentState w) T.
Proof.
  rewrite transitionTo_eventsOf, canTransitionTo_allowed.
  unfold transitionTrace. destruct (allowed _ _); reflexivity.
Qed.

Lemma triggerPathCompleted_effect (i : Instance) (w : World) :
  currentState (PathFSM.triggerPathCompleted (eventsOf i) w)
    = (if allowed (currentState w) Completed then Completed
       else currentState w)
  /\ trace (PathFSM.triggerPathCompleted (eventsOf i) w)
    = trace w ++ transitionTrace i (currentState w) Completed
        ++ fired (with_onPathCompleted (callbacksOf i)) PathCompleted.
Proof.
  rewrite triggerPathCompleted_eventsOf. unfold emits. simpl.
  rewrite transitionTo_state, transitionTo_trace, <- app_assoc.
  split; reflexivity.
Qed.

Lemma triggerPathFailed_effect (i : Instance) (reason : PathStatus)
    (w : World) :
  currentState (PathFSM.triggerPathFailed (eventsOf i) reason w)
    = (if allowed (currentState w) Failed then Failed else currentState w)
  /\ trace (PathFSM.triggerPathFailed (eventsOf i) reason w)
    = trace w ++ transitionTrace i (currentState w) Failed
        ++ fired (with_onPathFailed (callbacksOf i)) (PathFailed reason).
Proof.
  rewrite triggerPathFailed_eventsOf.
  match goal with |- context [afterFailed i reason ?x] =>
    pose proof (retry_only_frame _ _ (afterFailed_retry_only i reason x))
      as (Hs & Ht & _)
  end.
  rewrite Hs, Ht. unfold emits. simpl.
  rewrite transitionTo_state, transitionTo_trace, <- app_assoc.
  split; reflexivity.
Qed.

Lemma triggerPathBlocked_effect (i : Instance) (w : World) :
  currentState (PathFSM.triggerPathBlocked (eventsOf i) w)
    = (if allowed (currentState w) Blocked then Blocked else currentState w)
  /\ trace (PathFSM.triggerPathBlocked (eventsOf i) w)
    = trace w ++ transitionTrace i (currentState w) Blocked
        ++ fired (with_onPathBlocked (callbacksOf i)) PathBlocked.
Proof.
  rewrite triggerPathBlocked_eventsOf.
  match goal with |- context [afterBlocked i ?x] =>
    pose proof (retry_only_frame _ _ (afterBlocked_retry_only i x))
      as (Hs & Ht & _)
  end.
  rewrite Hs, Ht. unfold emits. simpl.
  rewrite transitionTo_state, transitionTo_trace, <- app_assoc.
  split; reflexivity.
Qed.

(** C5, as the code has it.  In every state and on every instance, each of
    [triggerPathCompleted], [triggerPathFailed(reason)] and
    [triggerPathBlocked] attempts the validated transition to its state: the
    FSM ends in that state when the table allows the transition from the
    current state, and otherwise keeps its state and logs a warning.  In both
    cases the corresponding callback is then called (with the reason, for
    failed); nothing else reaches the trace. *)
Theorem trigger_attempts_then_fires (i : Instance) (reason : PathStatus)
    (w : World) :
  let S := currentState w in
  let c := callbacksOf i in
  let ev := eventsOf i in
  (currentState (PathFSM.triggerPathCompleted ev w)
     = (if PathFSM.canTransitionTo Completed w then Completed else S)
   /\ trace (PathFSM.triggerPathCompleted ev w)
     = trace w ++ transitionTrace i S Completed
         ++ fired (with_onPathCompleted c) PathCompleted)
  /\ (currentState (PathFSM.triggerPathFailed ev reason w)
     = (if PathFSM.canTransitionTo Failed w then Failed else S)
   /\ trace (PathFSM.triggerPathFailed ev reason w)
     = trace w ++ transitionTrace i S Failed
         ++ fired (with_onPathFailed c) (PathFailed reason))
  /\ (currentState (PathFSM.triggerPathBlocked ev w)
     = (if PathFSM.canTransitionTo Blocked w then Blocked else S)
   /\ trace (PathFSM.triggerPathBlocked ev w)
     = trace w ++ transitionTrace i S Blocked
         ++ fired (with_onPathBlocked c) PathBlocked).
Proof.
  cbv zeta. rewrite !canTransitionTo_allowed.
  split; [ | split].
  - apply triggerPathCompleted_effect.
  - apply triggerPathFailed_effect.
  - apply triggerPathBlocked_effect.
Qed.

(** C5 as stated fails: on a new controller (state [Idle]) none of the three
    lands in its state, since the table has no edge from [Idle] to
    [Completed], [Failed] or [Blocked]. *)
Lemma trigger_does_not_force :
  let ev := eventsOf (APath allCallbacks) in
  let w := Path.construct NoPath in
  currentState (PathFSM.triggerPathCompleted ev w) = Idle
  /\ currentState (PathFSM.triggerPathFailed ev NoPath w) = Idle
  /\ currentState (PathFSM.triggerPathBlocked ev w) = Idle
  /\ currentState (PathFSM.triggerPathFailed ev NoPath w) <> Failed.
Proof.
  cbv zeta. vm_compute. repeat split. discriminate.
Qed.

(** ** Facts about the controller *)

Lemma allowed_Computing (S : PathState) :
  allowed S Computing = negb (PathState_eqb S Computing).
Proof. destruct S; reflexivity. Qed.

Lemma allowed_Following (S : PathState) :
  allowed S Following = true <-> S = Paused \/ S = Blocked \/ S = Computing.
Proof.
  destruct S; simpl; split; intro H; try discriminate; try tauto;
    repeat (destruct H as [H | H]; try discriminate).
Qed.

Lemma computeAsync_eventsOf (i : Instance) (start finish : Vector3)
    (answer : PathStatus * list PathWaypoint) (w : World) :
  Path.computeAsync (eventsOf i) start finish answer w =
  if PathState_eqb (currentState w) Computing
  then (Path.Raised (cannotCompute Computing),
        warn (invalidTransition Computing Computing) w)
  else (Path.Resolved (fst answer),
        if PathStatus_eqb (fst answer) Success
        then Path.extractWaypoints (searched i start finish answer w)
        else PathFSM.triggerPathFailed (eventsOf i) (fst answer)
               (searched i start finish answer w)).
Proof.
  unfold Path.computeAsync, searched.
  rewrite transitionTo_eventsOf, canTransitionTo_allowed, allowed_Computing.
  destruct (PathState_eqb (currentState w) Computing) eqn:E; simpl.
  - apply PathState_eqb_eq in E. unfold Path.getState, PathFSM.getCurrentState.
    simpl. rewrite E. reflexivity.
  - reflexivity.
Qed.

(** C7. [computeAsync] raises exactly when the transition to [Computing] is
    rejected, which is exactly when the controller is in [Computing].  When it
    raises, the store is the one before the call with the warning of the
    rejected transition added to the trace: state, caches, index and
    connections are untouched.  From every other state it resolves, with the
    status the search reported. *)
Theorem computeAsync_raises_iff_computing (i : Instance)
    (start finish : Vector3) (answer : PathStatus * list PathWaypoint)
    (w : World) :
  let r := Path.computeAsync (eventsOf i) start finish answer w in
  ((exists message, fst r = Path.Raised message) <->
   PathFSM.canTransitionTo Computing w = false)
  /\ (PathFSM.canTransitionTo Computing w = false <->
      currentState w = Computing)
  /\ (currentState w = Computing ->
      fst r = Path.Raised (cannotCompute Computing)
      /\ snd r = set_trace
                   (trace w ++ [Warn (invalidTransition Computing Computing)])
                   w)
  /\ (currentState w <> Computing -> fst r = Path.Resolved (fst answer)).
Proof.
  cbv zeta. rewrite computeAsync_eventsOf, canTransitionTo_allowed,
    allowed_Computing.
  destruct (PathState_eqb (currentState w) Computing) eqn:E; simpl.
  - apply PathState_eqb_eq in E. repeat split; try congruence.
    eexists; reflexivity.
  - assert (currentState w <> Computing) as N.
    { intro H. apply PathState_eqb_eq in H. congruence. }
    repeat split; try congruence; try tauto.
    intros [m Hm]. discriminate.
Qed.

(** A use of C7: the second of two calls in a row raises (the first leaves
    the controller in [Computing]) and changes nothing but the trace. *)
Lemma computeAsync_raises_iff_computing_witness :
  let i := APath allCallbacks in
  let w := snd (Path.computeAsync (eventsOf i) startPoint finishPoint
                  (Success, route) (Path.construct NoPath)) in
  let r := Path.computeAsync (eventsOf i) startPoint finishPoint
             (NoPath, []) w in
  currentState w = Computing
  /\ fst r = Path.Raised "Cannot compute path in current state: Computing"
  /\ snd r = set_trace
               (trace w
                ++ [Warn "Invalid state transition from Computing to Computing"])
               w.
Proof.
  cbv zeta. split; [reflexivity | ].
  apply (computeAsync_raises_iff_computing (APath allCallbacks)
           startPoint finishPoint (NoPath, [])).
  reflexivity.
Defined.

(** A validated transition touches the current state and the trace only. *)
Lemma transitionTo_frame (i : Instance) (T : PathState) (w : World) :
  set_trace (trace w)
    (set_currentState (currentState w)
       (snd (PathFSM.transitionTo (eventsOf i) T w))) = w.
Proof.
  rewrite transitionTo_eventsOf.
  destruct (PathFSM.canTransitionTo T w); destruct w; reflexivity.
Qed.

Lemma transitionTo_keeps (i : Instance) (T : PathState) (w : World) :
  let w' := snd (PathFSM.transitionTo (eventsOf i) T w) in
  currentWaypoints w' = currentWaypoints w
  /\ currentWaypointIndex w' = currentWaypointIndex w
  /\ followConnection w' = followConnection w
  /\ heartbeat w' = heartbeat w
  /\ nextConnection w' = nextConnection w.
Proof.
  cbv zeta. pose proof (transitionTo_frame i T w) as H.
  rewrite <- H at 2 4 6 8 10. repeat split; reflexivity.
Qed.

Lemma triggerPathFailed_keeps (i : Instance) (reason : PathStatus)
    (w : World) :
  let w' := PathFSM.triggerPathFailed (eventsOf i) reason w in
  currentWaypoints w' = currentWaypoints w
  /\ currentWaypointIndex w' = currentWaypointIndex w
  /\ followConnection w' = followConnection w
  /\ heartbeat w' = heartbeat w.
Proof.
  cbv zeta. rewrite triggerPathFailed_eventsOf.
  match goal with |- context [afterFailed i reason ?x] =>
    pose proof (retry_only_frame _ _ (afterFailed_retry_only i reason x))
      as (_ & _ & Hw & Hi & Hf & Hh & _)
  end.
  rewrite Hw, Hi, Hf, Hh. unfold emits. simpl.
  pose proof (transitionTo_keeps i Failed w) as (Kw & Ki & Kf & Kh & _).
  repeat split; assumption.
Qed.

Lemma startFollowing_empty (ev : PathFSMEvents) (h : Humanoid)
    (d : option R) (w : World) :
  currentWaypoints w = [] ->
  Path.startFollowing ev h d w = PathFSM.triggerPathFailed ev NoPath w.
Proof. unfold Path.startFollowing. intros ->. reflexivity. Qed.

(** C4, as the code has it.  A call of [computeAsync] that is not rejected
    resolves with the status the search reported, [Success] or not.  When
    that status is not [Success], the store afterwards is the result of
    [triggerPathFailed] with that status (so the failed callback is called
    with it and the FSM is in [Failed]) and the waypoint cache is the one of
    before the call: empty if it was empty, in which case a following
    [startFollowing] finds no waypoints and reports [NoPath]. *)
Theorem failed_compute_keeps_cache (i : Instance) (start finish : Vector3)
    (status : PathStatus) (wps : list PathWaypoint) (w : World) :
  currentState w <> Computing ->
  let ev := eventsOf i in
  let r := Path.computeAsync ev start finish (status, wps) w in
  fst r = Path.Resolved status
  /\ (status <> Success ->
      snd r = PathFSM.triggerPathFailed ev status
                (searched i start finish (status, wps) w)
      /\ currentState (snd r) = Failed
      /\ trace (snd r)
         = trace w ++ transitionTrace i (currentState w) Computing
             ++ [SearchCall start finish]
             ++ transitionTrace i Computing Failed
             ++ fired (with_onPathFailed (callbacksOf i)) (PathFailed status)
      /\ currentWaypoints (snd r) = currentWaypoints w
      /\ (currentWaypoints w = [] ->
          forall h d,
            Path.startFollowing ev h d (snd r)
            = PathFSM.triggerPathFailed ev NoPath (snd r))).
Proof.
  intros N. cbv zeta. rewrite computeAsync_eventsOf.
  destruct (PathState_eqb (currentState w) Computing) eqn:E.
  { apply PathState_eqb_eq in E. contradiction. }
  simpl. split; [reflexivity | ]. intros NS.
  destruct (PathStatus_eqb status Success) eqn:ES.
  { apply PathStatus_eqb_eq in ES. contradiction. }
  set (w2 := searched i start finish (status, wps) w).
  assert (currentState w2 = Computing) as S2.
  { unfold w2, searched. simpl. rewrite transitionTo_state, allowed_Computing, E.
    reflexivity. }
  assert (trace w2 = trace w ++ transitionTrace i (currentState w) Computing
                       ++ [SearchCall start finish]) as T2.
  { unfold w2, searched. simpl. rewrite transitionTo_trace, <- app_assoc.
    reflexivity. }
  assert (currentWaypoints w2 = currentWaypoints w) as W2.
  { unfold w2, searched. simpl. apply transitionTo_keeps. }
  pose proof (triggerPathFailed_effect i status w2) as (HS & HT).
  pose proof (triggerPathFailed_keeps i status w2) as (HW & _).
  rewrite S2 in HS. simpl in HS.
  rewrite S2, T2, <- !app_assoc in HT.
  repeat split.
  - exact HS.
  - exact HT.
  - now rewrite HW.
  - intros Hempty h d. apply startFollowing_empty. now rewrite HW, W2.
Qed.

(** A use of C4: a controller that follows [route] and recomputes, the
    search reporting [NoPath]. *)
Lemma failed_compute_keeps_cache_witness :
  let i := APath allCallbacks in
  let w := followingRoute i in
  let r := Path.computeAsync (eventsOf i) startPoint finishPoint
             (NoPath, []) w in
  fst r = Path.Resolved NoPath
  /\ currentState (snd r) = Failed
  /\ currentWaypoints (snd r) = currentWaypoints w.
Proof.
  cbv zeta.
  assert (currentState (followingRoute (APath allCallbacks)) <> Computing)
    as N by (vm_compute; discriminate).
  assert (NoPath <> Success) as NS by discriminate.
  pose proof (failed_compute_keeps_cache (APath allCallbacks) startPoint
                finishPoint NoPath [] (followingRoute (APath allCallbacks)) N)
    as (H1 & H2).
  pose proof (H2 NS) as (_ & H3 & _ & H4 & _).
  split; [exact H1 | split; [exact H3 | exact H4]].
Defined.

(** C4 as stated fails: a non-[Success] outcome does not leave the cache
    empty when an earlier computation filled it.  After the failed
    recomputation the three waypoints are still cached, and [startFollowing]
    finds them: it does not report [NoPath], it is turned down by the FSM
    (no edge from [Failed] to [Following]). *)
Lemma failed_compute_leaves_stale_waypoints :
  let i := APath allCallbacks in
  let r := Path.computeAsync (eventsOf i) startPoint finishPoint
             (NoPath, []) (followingRoute i) in
  fst r = Path.Resolved NoPath
  /\ List.length (currentWaypoints (snd r)) = 3
  /\ currentWaypoints (snd r) <> []
  /\ trace (Path.startFollowing (eventsOf i) 1 None (snd r))
     = trace (snd r)
         ++ [Warn "Invalid state transition from Failed to Following";
             Warn "Cannot start following in current state: Failed"].
Proof.
  cbv zeta. vm_compute. repeat split. discriminate.
Qed.

(** C6, as the code has it.  On a newly constructed controller, whatever
    its kind and callbacks, [startFollowing] calls the failed callback with
    [NoPath] and starts no follow loop: no connection is made on the tick
    signal and the waypoint cache stays empty.  The controller stays in
    [Idle]: the transition to [Failed] is turned down with a warning, the
    table having no edge from [Idle] to [Failed]. *)
Theorem startFollowing_before_compute (i : Instance) (hostStatus : PathStatus)
    (h : Humanoid) (d : option R) :
  let w' := startFollowing_of i h d (Path.construct hostStatus) in
  currentState w' = Idle
  /\ trace w'
     = Warn (invalidTransition Idle Failed)
       :: fired (with_onPathFailed (callbacksOf i)) (PathFailed NoPath)
  /\ currentWaypoints w' = []
  /\ currentWaypointIndex w' = 0
  /\ heartbeat w' = []
  /\ followConnection w' = None.
Proof.
  cbv zeta.
  assert (forall w0 : World,
            currentState w0 = Idle -> trace w0 = [] ->
            currentWaypoints w0 = [] -> currentWaypointIndex w0 = 0 ->
            heartbeat w0 = [] -> followConnection w0 = None ->
            forall d0,
            let w' := Path.startFollowing (eventsOf i) h d0 w0 in
            currentState w' = Idle
            /\ trace w'
               = Warn (invalidTransition Idle Failed)
                 :: fired (with_onPathFailed (callbacksOf i)) (PathFailed NoPath)
            /\ currentWaypoints w' = []
            /\ currentWaypointIndex w' = 0
            /\ heartbeat w' = []
            /\ followConnection w' = None) as K.
  { intros w0 Hs Ht Hw Hi Hh Hf d0. cbv zeta.
    rewrite (startFollowing_empty _ _ _ _ Hw).
    pose proof (triggerPathFailed_effect i NoPath w0) as (ES & ET).
    pose proof (triggerPathFailed_keeps i NoPath w0) as (KW & KI & KF & KH).
    rewrite Hs in ES, ET. rewrite Ht in ET. simpl in ES, ET.
    repeat split; congruence. }
  destruct i as [c | c o].
  - apply (K (Path.construct hostStatus)); reflexivity.
  - apply (K (set_followContext (Some h)
                (Some (Path.defaultReachedDistance d))
                (Path.construct hostStatus))); reflexivity.
Qed.

(** C6 as stated fails: after [startFollowing] on a new controller the
    state is [Idle], not [Failed]. *)
Lemma startFollowing_before_compute_stays_Idle :
  let w' := Path.startFollowing (eventsOf (APath allCallbacks)) 1 None
              (Path.construct NoPath) in
  currentState w' = Idle
  /\ currentState w' <> Failed
  /\ trace w' = [Warn "Invalid state transition from Idle to Failed";
                 PathFailed NoPath].
Proof.
  cbv zeta. vm_compute. repeat split. discriminate.
Qed.

Lemma cleanupConnections_keeps (w : World) :
  currentWaypointIndex (Path.cleanupConnections w) = currentWaypointIndex w
  /\ currentState (Path.cleanupConnections w) = currentState w
  /\ trace (Path.cleanupConnections w) = trace w
  /\ followConnection (Path.cleanupConnections w) = None.
Proof.
  unfold Path.cleanupConnections.
  destruct (followConnection w) eqn:E; simpl; auto.
Qed.

Lemma followNextWaypoint_index (i : Instance) (h : Humanoid) (d : R)
    (w : World) :
  currentWaypointIndex (Path.followNextWaypoint (eventsOf i) h d w)
  = currentWaypointIndex w.
Proof.
  unfold Path.followNextWaypoint.
  destruct (List.length (currentWaypoints w) <=? currentWaypointIndex w).
  - pose proof (cleanupConnections_keeps
                  (PathFSM.triggerPathCompleted (eventsOf i) w)) as (H & _).
    rewrite H, triggerPathCompleted_eventsOf. unfold emits. simpl.
    apply transitionTo_keeps.
  - destruct (nth_error _ _) as [wp | ]; [ | reflexivity].
    destruct (PathWaypointAction_eqb (action wp) Jump); reflexivity.
Qed.

(** With a waypoint at the current index, [followNextWaypoint] drives the
    humanoid to it and connects a new tick handler for it. *)
Lemma followNextWaypoint_drives (ev : PathFSMEvents) (h : Humanoid) (d : R)
    (w : World) (wp : Waypoint) :
  nth_error (currentWaypoints w) (currentWaypointIndex w) = Some wp ->
  let w' := Path.followNextWaypoint ev h d w in
  currentState w' = currentState w
  /\ followConnection w' = Some (nextConnection w)
  /\ heartbeat w' = heartbeat w ++ [mkTick (nextConnection w) h wp d]
  /\ trace w' = trace w ++ driveTrace h wp.
Proof.
  intros Hn. cbv zeta. unfold Path.followNextWaypoint, driveTrace.
  assert (currentWaypointIndex w < List.length (currentWaypoints w)) as L.
  { apply nth_error_Some. congruence. }
  apply Nat.leb_gt in L. rewrite L, Hn.
  destruct (PathWaypointAction_eqb (action wp) Jump); simpl;
    rewrite <- ?app_assoc; repeat split; reflexivity.
Qed.

(** C10. [resume] is accepted exactly in [Paused], [Blocked] and [Computing],
    the states with an edge to [Following], and never changes the waypoint
    index.  When accepted, the controller enters [Following] (the state-changed
    callback is called) and [followNextWaypoint] runs at the index of before
    the call: with a waypoint at that index the state is then [Following],
    the humanoid is sent to that waypoint and a new tick handler for it is
    connected.  In every other state the store is the one before the call
    with a warning added to the trace. *)
Theorem resume_iff_edge_to_Following (i : Instance) (h : Humanoid)
    (d : option R) (w : World) :
  let S := currentState w in
  let ev := eventsOf i in
  let w' := Path.resume ev h d w in
  let entered :=
    emits (fired (with_onStateChanged (callbacksOf i))
             (StateChanged S Following))
      (set_currentState Following w) in
  (PathFSM.canTransitionTo Following w = true <->
   S = Paused \/ S = Blocked \/ S = Computing)
  /\ currentWaypointIndex w' = currentWaypointIndex w
  /\ (if PathFSM.canTransitionTo Following w
      then w' = Path.followNextWaypoint ev h (Path.defaultReachedDistance d)
                  entered
           /\ forall wp,
                nth_error (currentWaypoints w) (currentWaypointIndex w)
                = Some wp ->
                currentState w' = Following
                /\ followConnection w' = Some (nextConnection w)
                /\ heartbeat w'
                   = heartbeat w
                     ++ [mkTick (nextConnection w) h wp
                           (Path.defaultReachedDistance d)]
                /\ trace w' = trace entered ++ driveTrace h wp
      else currentState w' = S
           /\ w' = set_trace
                     (trace w ++ [Warn (invalidTransition S Following)]) w).
Proof.
  cbv zeta. split.
  { rewrite canTransitionTo_allowed. apply allowed_Following. }
  unfold Path.resume. rewrite transitionTo_eventsOf.
  destruct (PathFSM.canTransitionTo Following w); simpl.
  - split; [ | split].
    + now rewrite followNextWaypoint_index.
    + reflexivity.
    + intros wp Hn.
      pose proof (followNextWaypoint_drives (eventsOf i) h
                    (Path.defaultReachedDistance d)
                    (emits (fired (with_onStateChanged (callbacksOf i))
                              (StateChanged (currentState w) Following))
                       (set_currentState Following w)) wp Hn) as H.
      exact H.
  - repeat split; reflexivity.
Qed.

Lemma sqrt_of_square (x y : R) : (0 <= x)%R -> (y = x * x)%R -> sqrt y = x.
Proof. intros Hx ->. now apply sqrt_square. Qed.

(** A tick that finds the humanoid within the threshold takes the branch
    that advances the index. *)
Lemma onHeartbeat_reached (ev : PathFSMEvents) (t : Tick) (p : Vector3)
    (w : World) :
  (Magnitude (sub p (position (tick_waypoint t))) <= tick_reachedDistance t)%R ->
  Path.onHeartbeat ev t (Some p) w
  = let w1 := Path.cleanupConnections w in
    let w2 := PathFSM.triggerWaypointReached ev (tick_waypoint t)
                (currentWaypointIndex w1) w1 in
    let w3 := set_currentWaypointIndex (S (currentWaypointIndex w2)) w2 in
    if PathState_eqb (Path.getState w3) Following
    then Path.followNextWaypoint ev (tick_humanoid t)
           (tick_reachedDistance t) w3
    else w3.
Proof.
  intros H. unfold Path.onHeartbeat.
  destruct (Rle_dec _ _) as [_ | N]; [reflexivity | contradiction].
Qed.

Lemma reachedFirst_unfold :
  reachedFirst (APath allCallbacks)
  = let ev := eventsOf (APath allCallbacks) in
    let first := mkWaypoint (mkVector3 0 0 0) Walk in
    let w1 := Path.cleanupConnections (followingRoute (APath allCallbacks)) in
    let w2 := PathFSM.triggerWaypointReached ev first
                (currentWaypointIndex w1) w1 in
    let w3 := set_currentWaypointIndex (S (currentWaypointIndex w2)) w2 in
    if PathState_eqb (Path.getState w3) Following
    then Path.followNextWaypoint ev 1 5%R w3
    else w3.
Proof.
  unfold reachedFirst, Path.tick.
  assert (find (fun t => tick_id t =? 0)
            (heartbeat (followingRoute (APath allCallbacks)))
          = Some (mkTick 0 1 (mkWaypoint (mkVector3 0 0 0) Walk) 5%R)) as E
    by (vm_compute; reflexivity).
  rewrite E, onHeartbeat_reached.
  - reflexivity.
  - unfold Magnitude, sub, startPoint. simpl.
    rewrite (sqrt_of_square 0 _) by lra. lra.
Qed.

(** After that tick the controller follows the second waypoint; paused, it
    keeps index 1. *)
Lemma pausedAfterFirst_facts :
  let w := Path.pause (eventsOf (APath allCallbacks))
             (reachedFirst (APath allCallbacks)) in
  currentState w = Paused
  /\ currentWaypointIndex w = 1
  /\ nth_error (currentWaypoints w) 1
     = Some (mkWaypoint (mkVector3 3 0 0) Walk)
  /\ heartbeat w = []
  /\ nextConnection w = 2.
Proof.
  cbv zeta. rewrite reachedFirst_unfold. vm_compute. repeat split.
Qed.

(** A use of C10: the controller has reached the first waypoint of [route]
    and follows the second; it is paused, then resumed.  The index is still 1
    and the new tick handler is for the second waypoint. *)
Lemma resume_iff_edge_to_Following_witness :
  let i := APath allCallbacks in
  let w := Path.pause (eventsOf i) (reachedFirst i) in
  let w' := Path.resume (eventsOf i) 1 None w in
  currentState w' = Following
  /\ currentWaypointIndex w' = 1
  /\ followConnection w' = Some 2
  /\ heartbeat w' = [mkTick 2 1 (mkWaypoint (mkVector3 3 0 0) Walk) 5%R].
Proof.
  cbv zeta.
  destruct pausedAfterFirst_facts as (SP & IP & WP & HB & NC).
  cbv zeta in SP, IP, WP, HB, NC.
  pose proof (resume_iff_edge_to_Following (APath allCallbacks) 1 None
                (Path.pause (eventsOf (APath allCallbacks))
                   (reachedFirst (APath allCallbacks))))
    as (_ & Hidx & H).
  cbv zeta in H. rewrite canTransitionTo_allowed, SP in H.
  change (allowed Paused Following) with true in H. cbv iota in H.
  destruct H as (_ & H).
  pose proof (H (mkWaypoint (mkVector3 3 0 0) Walk)) as K.
  rewrite IP in K. specialize (K WP).
  destruct K as (K1 & K2 & K3 & _).
  rewrite NC in K2. rewrite HB, NC in K3. rewrite IP in Hidx.
  split; [exact K1 | split; [exact Hidx | split; [exact K2 | exact K3]]].
Defined.

(** What [stop] does to the state, the index and the follow connection. *)
Lemma stop_effect (i : Instance) (w : World) :
  let w' := Path.stop (eventsOf i) w in
  currentState w'
    = (if allowed (currentState w) Idle then Idle else currentState w)
  /\ currentWaypointIndex w' = 0
  /\ followConnection w' = None.
Proof.
  cbv zeta. unfold Path.stop. simpl.
  pose proof (cleanupConnections_keeps w) as (_ & Hs & _ & Hf).
  rewrite transitionTo_state, Hs.
  pose proof (transitionTo_keeps i Idle (Path.cleanupConnections w))
    as (_ & _ & Kf & _).
  cbv zeta in Kf. rewrite Kf, Hf. repeat split; reflexivity.
Qed.

(** [stop] reaches [Idle] from the states that have an edge to it, and from
    [Idle] itself; from the four others the state is kept. *)
Lemma stop_reaches_Idle_iff (i : Instance) (w : World) :
  currentState (Path.stop (eventsOf i) w) = Idle <->
  currentState w = Idle \/ currentState w = Completed
  \/ currentState w = Failed.
Proof.
  pose proof (stop_effect i w) as (H & _). cbv zeta in H. rewrite H.
  destruct (currentState w); simpl; split; intro K; try discriminate;
    try tauto; repeat (destruct K as [K | K]; try discriminate).
Qed.

(** C2 fails on the code.  [stop] on a controller that is following a path
    cancels the tick connection and resets the index, but the state stays
    [Following]: [stop] asks for the validated transition to [Idle], and the
    table has no edge from [Following] to [Idle]. *)
Theorem stop_while_following_stays_Following :
  let i := APath allCallbacks in
  let w := followingRoute i in
  let w' := Path.stop (eventsOf i) w in
  currentState w = Following
  /\ followConnection w = Some 0
  /\ currentState w' = Following
  /\ currentState w' <> Idle
  /\ followConnection w' = None
  /\ heartbeat w' = []
  /\ currentWaypointIndex w' = 0
  /\ trace w'
     = trace w ++ [Warn "Invalid state transition from Following to Idle"].
Proof.
  cbv zeta. vm_compute. repeat split. discriminate.
Qed.

(** ** The length of the path *)

Lemma Magnitude_sub (a b : Vector3) : Magnitude (sub a b) = euclid a b.
Proof. reflexivity. Qed.

(** The loop, started at the end of [pre] with [rest] still ahead, adds the
    consecutive distances of [rest] to the running total. *)
Lemma getDistance_loop_sum (rest pre : list Waypoint) (total : R) :
  Path.getDistance_loop (pre ++ rest) (List.length rest - 1)
    (List.length pre) total
  = (total + consecutiveSum rest)%R.
Proof.
  revert pre total. induction rest as [ | a rest IH]; intros pre total.
  - simpl. ring.
  - destruct rest as [ | b rest].
    + simpl. ring.
    + replace (List.length (a :: b :: rest) - 1)
        with (S (List.length (b :: rest) - 1)) by (simpl; lia).
      cbn [Path.getDistance_loop].
      rewrite nth_error_app2 by lia.
      replace (List.length pre - List.length pre) with 0 by lia.
      rewrite nth_error_app2 by lia.
      replace (List.length pre + 1 - List.length pre) with 1 by lia.
      cbn [nth_error].
      specialize (IH (pre ++ [a])
                    (total + Magnitude (sub (position a) (position b)))%R).
      rewrite <- app_assoc, length_app in IH.
      change ([a] ++ b :: rest) with (a :: b :: rest) in IH.
      change (List.length [a]) with 1 in IH.
      rewrite IH, Magnitude_sub.
      change (consecutiveSum (a :: b :: rest))
        with (euclid (position a) (position b) + consecutiveSum (b :: rest))%R.
      ring.
Qed.

(** C9. [getDistance] is the sum of the Euclidean distances between
    consecutive cached waypoints when the handle's status is [Success], and 0
    when it is not; it is 0 when the cache is empty.  With waypoints at
    (0,0,0), (3,0,0) and (3,4,0) after a successful computation it is 7. *)
Theorem getDistance_sum (w : World) :
  Path.getDistance w
  = (if Path.isSuccess w then consecutiveSum (currentWaypoints w) else 0%R)
  /\ (currentWaypoints w = [] -> Path.getDistance w = 0%R)
  /\ (robloxStatus w <> Success -> Path.getDistance w = 0%R)
  /\ (robloxStatus w = Success ->
      forall a1 a2 a3,
        currentWaypoints w
        = [mkWaypoint (mkVector3 0 0 0) a1; mkWaypoint (mkVector3 3 0 0) a2;
           mkWaypoint (mkVector3 3 4 0) a3] ->
        Path.getDistance w = 7%R).
Proof.
  assert (Path.getDistance w
          = (if Path.isSuccess w then consecutiveSum (currentWaypoints w)
             else 0%R)) as Main.
  { unfold Path.getDistance, Path.isSuccess.
    destruct (PathStatus_eqb (robloxStatus w) Success); simpl;
      [ | reflexivity].
    destruct (currentWaypoints w) as [ | a l] eqn:E; [reflexivity | ].
    pose proof (getDistance_loop_sum (a :: l) [] 0%R) as H.
    rewrite Rplus_0_l in H. exact H. }
  split; [exact Main | ]. split; [ | split].
  - intros E. rewrite Main, E. destruct (Path.isSuccess w); reflexivity.
  - intros N. rewrite Main. unfold Path.isSuccess.
    destruct (PathStatus_eqb (robloxStatus w) Success) eqn:E;
      [ | reflexivity].
    apply PathStatus_eqb_eq in E. contradiction.
  - intros S a1 a2 a3 E. rewrite Main. unfold Path.isSuccess.
    rewrite S, E. simpl. unfold euclid. simpl.
    rewrite (sqrt_of_square 3 _) by lra.
    rewrite (sqrt_of_square 4 _) by lra.
    lra.
Qed.

(** A use of C9: the length of [route] once it has been computed. *)
Lemma getDistance_sum_witness :
  Path.getDistance
    (snd (Path.computeAsync (eventsOf (APath allCallbacks)) startPoint
            finishPoint (Success, route) (Path.construct NoPath)))
  = 7%R.
Proof.
  pose proof (getDistance_sum
                (snd (Path.computeAsync (eventsOf (APath allCallbacks))
                        startPoint finishPoint (Success, route)
                        (Path.construct NoPath))))
    as (_ & _ & _ & H).
  apply (H eq_refl Walk Walk Jump). reflexivity.
Defined.

(** ** The retry policy *)

(** Two to an integer power, as [math.pow(2, k)] computes it, is the integer
    power when the exponent is not negative. *)
Lemma pow2_integer (k : Z) :
  (0 <= k)%Z -> (2 ^ k == inject_Z (2 ^ k))%Q.
Proof.
  intros Hk. rewrite (Zpower_Qpower 2 k Hk). reflexivity.
Qed.

Lemma retryWait_formula (so : SmartPath.RequiredOptions) (w : World) :
  (1 <= retryAttempts w)%Z ->
  (SmartPath.retryWait so w
   == SmartPath.retryDelay so * backoffFactor so (retryAttempts w))%Q.
Proof.
  intros H. unfold SmartPath.retryWait, backoffFactor.
  destruct (SmartPath.useExponentialBackoff so).
  - rewrite pow2_integer by lia. reflexivity.
  - now rewrite Qmult_1_r.
Qed.

(** C8. A recovery sequence that goes ahead increments [retryAttempts] to n
    and is suspended for [retryDelay] times 2^(n - 1) with exponential
    backoff, and for [retryDelay] times 1 without; this holds for the
    sequence after a blocked event and for the one after a failure. *)
Theorem backoff_delay_formula (so : SmartPath.RequiredOptions)
    (reason : PathStatus) (w : World) :
  (0 <= retryAttempts w)%Z ->
  SmartPath.shouldAttemptRetry so w = true ->
  let n := (retryAttempts w + 1)%Z in
  (exists delay,
     SmartPath.handleBlocked so w
     = set_suspended (suspended w ++ [mkSuspended AfterBlocked delay])
         (set_retryAttempts n w)
     /\ (delay == SmartPath.retryDelay so * backoffFactor so n)%Q)
  /\ (SmartPath.shouldRetry so reason (retryAttempts w) = true ->
      exists delay,
        SmartPath.handleFailure so reason w
        = set_suspended (suspended w ++ [mkSuspended AfterFailure delay])
            (set_retryAttempts n w)
        /\ (delay == SmartPath.retryDelay so * backoffFactor so n)%Q).
Proof.
  intros H0 HA. cbv zeta.
  assert (1 <= retryAttempts (set_retryAttempts (retryAttempts w + 1) w))%Z
    as H1 by (simpl; lia).
  split.
  - unfold SmartPath.handleBlocked, SmartPath.waitForRetry. rewrite HA.
    simpl negb. cbv iota. eexists. split; [reflexivity | ].
    apply (retryWait_formula so _ H1).
  - intros HR.
    unfold SmartPath.handleFailure, SmartPath.waitForRetry. rewrite HA, HR.
    simpl negb. cbv iota. eexists. split; [reflexivity | ].
    apply (retryWait_formula so _ H1).
Qed.

(** A use of C8: with [retryDelay] 1 and exponential backoff, attempts 1, 2
    and 3 wait 1, 2 and 4 seconds. *)
Lemma backoff_delay_formula_witness :
  let before (k : Z) := set_retryAttempts k (Path.construct NoPath) in
  let waits (k : Z) :=
    map sus_delay (suspended (SmartPath.handleBlocked oneSecond (before k))) in
  Forall2 Qeq (waits 0%Z) [1%Q]
  /\ Forall2 Qeq (waits 1%Z) [2%Q]
  /\ Forall2 Qeq (waits 2%Z) [4%Q].
Proof.
  cbv zeta.
  assert (forall k : Z, (0 <= k < 3)%Z ->
            Forall2 Qeq
              (map sus_delay
                 (suspended
                    (SmartPath.handleBlocked oneSecond
                       (set_retryAttempts k (Path.construct NoPath)))))
              [(1 * inject_Z (2 ^ (k + 1 - 1)))%Q]) as K.
  { intros k Hk.
    destruct (backoff_delay_formula oneSecond NoPath
                (set_retryAttempts k (Path.construct NoPath)))
      as ((delay & E & D) & _).
    - simpl. lia.
    - unfold SmartPath.shouldAttemptRetry. simpl. apply Z.ltb_lt. lia.
    - rewrite E. simpl. constructor; [exact D | constructor]. }
  split; [ | split].
  - apply (K 0%Z). lia.
  - apply (K 1%Z). lia.
  - apply (K 2%Z). lia.
Defined.

Lemma transitionTo_retryAttempts (i : Instance) (T : PathState) (w : World) :
  retryAttempts (snd (PathFSM.transitionTo (eventsOf i) T w))
  = retryAttempts w.
Proof.
  pose proof (transitionTo_frame i T w) as H.
  rewrite <- H at 2. reflexivity.
Qed.

Lemma handleFailure_retryAttempts (so : SmartPath.RequiredOptions)
    (reason : PathStatus) (w : World) :
  retryAttempts (SmartPath.handleFailure so reason w) = retryAttempts w
  \/ retryAttempts (SmartPath.handleFailure so reason w)
     = (retryAttempts w + 1)%Z.
Proof.
  unfold SmartPath.handleFailure.
  destruct (negb _); [now left | ].
  destruct (negb _); [now left | now right].
Qed.

(** Every [computeAsync] of a [SmartPath], the caller's or a recovery's,
    starts the count again: afterwards the counter is 0, or 1 when the
    computation failed and its failure started a recovery. *)
Lemma recompute_resets_retryAttempts (c : Callbacks)
    (o : SmartPath.SmartPathOptions) (start finish : Vector3)
    (answer : PathStatus * list PathWaypoint) (w : World) :
  let w' := snd (SmartPath.computeAsync (callerEvents c) o start finish
                   answer w) in
  (0 <= retryAttempts w' <= 1)%Z
  /\ (fst answer = Success -> retryAttempts w' = 0%Z).
Proof.
  cbv zeta. unfold SmartPath.computeAsync.
  change (SmartPath.enhancedEvents (callerEvents c)
            (SmartPath.normalizeSmartOptions o))
    with (eventsOf (ASmartPath c o)).
  rewrite computeAsync_eventsOf.
  set (w0 := set_retryAttempts 0%Z
               (set_lastEndpoints (Some start) (Some finish) w)).
  destruct (PathState_eqb (currentState w0) Computing); cbn [snd].
  { simpl. split; [lia | reflexivity]. }
  assert (retryAttempts (searched (ASmartPath c o) start finish answer w0)
          = 0%Z) as Z0.
  { unfold searched, set_roblox, emit, set_trace. cbn [retryAttempts].
    rewrite transitionTo_retryAttempts. reflexivity. }
  destruct (PathStatus_eqb (fst answer) Success) eqn:E.
  { unfold Path.extractWaypoints, set_currentWaypointIndex,
      set_currentWaypoints. cbn [retryAttempts].
    rewrite Z0. split; [lia | reflexivity]. }
  rewrite triggerPathFailed_eventsOf. unfold afterFailed.
  match goal with |- context [SmartPath.handleFailure ?so ?r ?x] =>
    assert (retryAttempts x = 0%Z) as X0
      by (unfold emits, set_trace; cbn [retryAttempts];
          rewrite transitionTo_retryAttempts; exact Z0);
    destruct (handleFailure_retryAttempts so r x) as [H | H]
  end.
  - rewrite H, X0. split; [lia | reflexivity].
  - rewrite H, X0. split; [lia | ].
    intros S. rewrite S in E. discriminate.
Qed.

(** C3 fails on the code.  With [maxRetries] 2, remembered endpoints and two
    recoveries done, the counter is back at 0, because each recovery
    recomputes through the overriding [computeAsync], which resets it.
    [areRetriesExhausted] is false, and a third blocked event suspends a third
    recovery, which recomputes: the search is called four times in all, once
    for the caller and three times for recoveries.  If that third search
    fails, the failed event suspends yet another recovery. *)
Theorem retry_budget_not_respected :
  let so := SmartPath.normalizeSmartOptions twoRetries in
  let w2 := blockedAndRecovered (blockedAndRecovered smartFollowing) in
  let w3 := Path.blockedSignal (eventsOf smartTwo) w2 in
  SmartPath.maxRetries so = 2%Z
  /\ currentState smartFollowing = Following
  /\ searchCalls (trace w2) = 3
  /\ retryAttempts w2 = 0%Z
  /\ SmartPath.areRetriesExhausted twoRetries w2 = false
  /\ currentState w2 = Following
  /\ suspended w3 = [mkSuspended AfterBlocked 1%Q]
  /\ searchCalls
       (trace (SmartPath.wake (callerEvents allCallbacks) twoRetries 0
                 (Success, route) w3)) = 4
  /\ suspended
       (SmartPath.wake (callerEvents allCallbacks) twoRetries 0
          (ClosestNoPath, []) w3) = [mkSuspended AfterFailure 1%Q].
Proof.
  cbv zeta. vm_compute. repeat split.
Qed.

(** ** Facts about the loops of utils.ts *)

Lemma forLoop_fold {A : Type} (count from : nat) (body : nat -> A -> A)
    (acc : A) :
  forLoop count from body acc
  = fold_left (fun a i => body i a) (seq from count) acc.
Proof.
  revert from acc. induction count as [ | n IH]; intros from acc.
  - reflexivity.
  - simpl. apply IH.
Qed.

Lemma euclid_same (a : Vector3) : euclid a a = 0%R.
Proof.
  unfold euclid. apply sqrt_of_square; [lra | ring].
Qed.

Lemma euclid_nonneg (a b : Vector3) : (0 <= euclid a b)%R.
Proof. unfold euclid. apply sqrt_pos. Qed.


Lemma last_default {A : Type} (l : list A) (x a b : A) :
  last (x :: l) a = last (x :: l) b.
Proof.
  revert x. induction l as [ | y l IH]; intros x; [reflexivity | ].
  change (last (x :: y :: l) a) with (last (y :: l) a).
  change (last (x :: y :: l) b) with (last (y :: l) b).
  apply IH.
Qed.

Lemma last_cons_cons {A : Type} (b : A) (r : list A) (a : A) :
  last (b :: r) a = last r b.
Proof.
  destruct r as [ | c r]; [reflexivity | ].
  change (last (b :: c :: r) a) with (last (c :: r) a).
  apply last_default.
Qed.

(** The running total of [calculateWaypointDistance], started after [pre]
    and [a] with [rest] ahead. *)
Lemma calculateWaypointDistance_loop (rest pre : list Waypoint) (a : Waypoint)
    (total : R) :
  forLoop (List.length rest) (List.length pre + 1)
    (fun i totalDistance =>
       match nth_error (pre ++ a :: rest) (i - 1),
             nth_error (pre ++ a :: rest) i with
       | Some x, Some y =>
           (totalDistance + Magnitude (sub (position x) (position y)))%R
       | _, _ => totalDistance
       end)
    total
  = (total + consecutiveSum (a :: rest))%R.
Proof.
  revert pre a total. induction rest as [ | b rest IH]; intros pre a total.
  - simpl. ring.
  - cbn [List.length forLoop].
    replace (List.length pre + 1 - 1) with (List.length pre) by lia.
    rewrite nth_error_app2 by lia.
    replace (List.length pre - List.length pre) with 0 by lia.
    rewrite nth_error_app2 by lia.
    replace (List.length pre + 1 - List.length pre) with 1 by lia.
    cbn [nth_error].
    specialize (IH (pre ++ [a]) b
                  (total + Magnitude (sub (position a) (position b)))%R).
    rewrite <- app_assoc, length_app in IH.
    change ([a] ++ b :: rest) with (a :: b :: rest) in IH.
    change (List.length [a]) with 1 in IH.
    replace (S (List.length pre + 1)) with (List.length pre + 1 + 1) by lia.
    rewrite IH, Magnitude_sub.
    change (consecutiveSum (a :: b :: rest))
      with (euclid (position a) (position b) + consecutiveSum (b :: rest))%R.
    ring.
Qed.

Lemma calculateWaypointDistance_consecutive (wps : list Waypoint) :
  PathfindingUtils.calculateWaypointDistance wps = consecutiveSum wps.
Proof.
  unfold PathfindingUtils.calculateWaypointDistance.
  destruct wps as [ | a [ | b rest]]; try reflexivity.
  change (List.length (a :: b :: rest) <? 2) with false. cbv iota.
  pose proof (calculateWaypointDistance_loop (b :: rest) [] a 0%R) as H.
  rewrite Rplus_0_l in H. exact H.
Qed.

Lemma getDistance_consecutive (w : World) :
  Path.getDistance w
  = if Path.isSuccess w then consecutiveSum (currentWaypoints w) else 0%R.
Proof.
  unfold Path.getDistance, Path.isSuccess.
  destruct (PathStatus_eqb (robloxStatus w) Success); simpl; [ | reflexivity].
  destruct (currentWaypoints w) as [ | a l] eqn:E; [reflexivity | ].
  pose proof (getDistance_loop_sum (a :: l) [] 0%R) as H.
  rewrite Rplus_0_l in H. exact H.
Qed.

Lemma consecutiveSum_nonneg (wps : list Waypoint) :
  (0 <= consecutiveSum wps)%R.
Proof.
  induction wps as [ | a [ | b rest] IH]; simpl; try lra.
  pose proof (euclid_nonneg (position a) (position b)). simpl in IH. lra.
Qed.


(** X1. The two length computations agree.  [calculateWaypointDistance] is
    the sum of the distances between consecutive waypoints (0 for fewer than
    two waypoints), it is never negative, and [Path.getDistance] is that same
    number for the cached waypoints when the status is [Success]. *)
Theorem calculateWaypointDistance_agrees (wps : list Waypoint) (w : World) :
  PathfindingUtils.calculateWaypointDistance wps = consecutiveSum wps
  /\ (0 <= PathfindingUtils.calculateWaypointDistance wps)%R
  /\ Path.getDistance w
     = (if Path.isSuccess w
        then PathfindingUtils.calculateWaypointDistance (currentWaypoints w)
        else 0%R).
Proof.
  split; [apply calculateWaypointDistance_consecutive | split].
  - rewrite calculateWaypointDistance_consecutive.
    apply consecutiveSum_nonneg.
  - rewrite calculateWaypointDistance_consecutive.
    apply getDistance_consecutive.
Qed.


(** A loop that appends the indices passing a test collects the filtered
    range. *)
Lemma forLoop_collect (p : nat -> bool) (count from : nat) (acc : list nat) :
  forLoop count from (fun i l => if p i then l ++ [i] else l) acc
  = acc ++ filter p (seq from count).
Proof.
  revert from acc. induction count as [ | n IH]; intros from acc.
  - simpl. now rewrite app_nil_r.
  - cbn [forLoop seq filter]. rewrite IH.
    destruct (p from); [now rewrite <- app_assoc | reflexivity].
Qed.

Lemma filter_seq_sorted (p : nat -> bool) (count from : nat) :
  StronglySorted lt (filter p (seq from count)).
Proof.
  revert from. induction count as [ | n IH]; intros from.
  - constructor.
  - cbn [seq filter]. destruct (p from); [ | apply IH].
    constructor; [apply IH | ].
    apply Forall_forall. intros x Hx.
    apply filter_In in Hx. destruct Hx as [Hx _].
    apply in_seq in Hx. lia.
Qed.

Lemma forLoop_ext {A : Type} (count from : nat) (f g : nat -> A -> A)
    (acc : A) :
  (forall i a, f i a = g i a) ->
  forLoop count from f acc = forLoop count from g acc.
Proof.
  intros E. revert from acc. induction count as [ | n IH]; intros from acc.
  - reflexivity.
  - simpl. rewrite E. apply IH.
Qed.

Lemma findJumpWaypoints_filter (wps : list Waypoint) :
  PathfindingUtils.findJumpWaypoints wps
  = filter (isJumpAt wps) (seq 0 (List.length wps)).
Proof.
  unfold PathfindingUtils.findJumpWaypoints.
  rewrite <- (app_nil_l (filter _ _)), <- forLoop_collect.
  apply forLoop_ext. intros i l. unfold isJumpAt.
  destruct (nth_error wps i); reflexivity.
Qed.

Lemma PathWaypointAction_eqb_eq (a b : PathWaypointAction) :
  PathWaypointAction_eqb a b = true <-> a = b.
Proof. destruct a, b; simpl; split; intro H; congruence. Qed.

(** X3. [findJumpWaypoints] returns exactly the indices of the waypoints
    whose action is [Jump], each once and in increasing order. *)
Theorem findJumpWaypoints_exact (wps : list Waypoint) :
  (forall i,
     In i (PathfindingUtils.findJumpWaypoints wps) <->
     exists wp, nth_error wps i = Some wp /\ action wp = Jump)
  /\ StronglySorted lt (PathfindingUtils.findJumpWaypoints wps)
  /\ NoDup (PathfindingUtils.findJumpWaypoints wps).
Proof.
  rewrite findJumpWaypoints_filter.
  assert (StronglySorted lt (filter (isJumpAt wps) (seq 0 (List.length wps))))
    as S by apply filter_seq_sorted.
  split; [ | split; [exact S | ]].
  - intros i. rewrite filter_In, in_seq. unfold isJumpAt. split.
    + intros [_ H]. destruct (nth_error wps i) as [wp | ]; [ | discriminate].
      exists wp. split; [reflexivity | now apply PathWaypointAction_eqb_eq].
    + intros [wp [Hn Ha]]. split.
      * assert (i < List.length wps) by (apply nth_error_Some; congruence).
        lia.
      * rewrite Hn. now apply PathWaypointAction_eqb_eq.
  - clear -S. induction S as [ | x l _ IH F]; constructor; [ | exact IH].
    intro Hin. rewrite Forall_forall in F. specialize (F x Hin). lia.
Qed.

Lemma Rltb_true (a b : R) : Rltb a b = true <-> (a < b)%R.
Proof.
  unfold Rltb. destruct (Rlt_dec a b); split; intro H;
    try reflexivity; try assumption; try discriminate; contradiction.
Qed.

Lemma Rltb_false (a b : R) : Rltb a b = false <-> (b <= a)%R.
Proof.
  unfold Rltb. destruct (Rlt_dec a b) as [L | N]; split; intro H;
    try reflexivity; try discriminate; lra.
Qed.

Lemma Rleb_true (a b : R) : Rleb a b = true <-> (a <= b)%R.
Proof.
  unfold Rleb. destruct (Rle_dec a b); split; intro H;
    try reflexivity; try assumption; try discriminate; contradiction.
Qed.

(** The loop of [findClosestWaypoint] keeps, in its state, the index of the
    first closest waypoint seen so far and its distance. *)
Lemma findClosestWaypoint_loop (p : Vector3) (wps : list Waypoint)
    (count from ci : nat) (cd : R) :
  from + count = List.length wps ->
  closestAmong p wps from ci ->
  (forall wc, nth_error wps ci = Some wc -> cd = euclid p (position wc)) ->
  closestAmong p wps (List.length wps)
    (fst (forLoop count from
            (fun i (closest : nat * R) =>
               match nth_error wps i with
               | Some wp =>
                   let distance := Magnitude (sub p (position wp)) in
                   if Rltb distance (snd closest) then (i, distance)
                   else closest
               | None => closest
               end)
            (ci, cd))).
Proof.
  revert from ci cd. induction count as [ | n IH]; intros from ci cd L C D.
  - simpl. replace (List.length wps) with from by lia. exact C.
  - cbn [forLoop].
    destruct (nth_error wps from) as [wf | ] eqn:Ef.
    2:{ apply nth_error_None in Ef. lia. }
    cbv zeta. cbn [snd]. rewrite Magnitude_sub.
    destruct C as (Lt & wk & Ek & Min & First).
    pose proof (D wk Ek) as Dk.
    destruct (Rltb (euclid p (position wf)) cd) eqn:Cmp.
    + apply Rltb_true in Cmp.
      apply (IH (S from) from (euclid p (position wf))); [lia | | ].
      * split; [lia | ]. exists wf. split; [exact Ef | split].
        -- intros j wj Hj Ej.
           destruct (Nat.eq_dec j from) as [-> | Ne].
           ++ rewrite Ef in Ej. injection Ej as <-. lra.
           ++ assert (j < from) as Hj' by lia.
              pose proof (Min j wj Hj' Ej). lra.
        -- intros j wj Hj Ej. pose proof (Min j wj Hj Ej). lra.
      * intros wc Ec. rewrite Ef in Ec. now injection Ec as <-.
    + apply Rltb_false in Cmp.
      apply (IH (S from) ci cd); [lia | | exact D].
      split; [lia | ]. exists wk. split; [exact Ek | split].
      * intros j wj Hj Ej.
        destruct (Nat.eq_dec j from) as [-> | Ne].
        -- rewrite Ef in Ej. injection Ej as <-. lra.
        -- apply (Min j wj); [lia | exact Ej].
      * exact First.
Qed.

(** X4. [findClosestWaypoint] returns -1 exactly for an empty list; for a
    non-empty list it returns the index of a waypoint at the least distance
    from the position, and among those at that distance the first. *)
Theorem findClosestWaypoint_minimal (p : Vector3) (wps : list Waypoint) :
  (PathfindingUtils.findClosestWaypoint p wps = (-1)%Z <-> wps = [])
  /\ (wps = []
      \/ exists k,
           PathfindingUtils.findClosestWaypoint p wps = Z.of_nat k
           /\ closestAmong p wps (List.length wps) k).
Proof.
  destruct wps as [ | first rest].
  - split; [split; reflexivity | now left].
  - assert (exists k,
              PathfindingUtils.findClosestWaypoint p (first :: rest)
              = Z.of_nat k
              /\ closestAmong p (first :: rest)
                   (List.length (first :: rest)) k) as (k & E & C).
    { unfold PathfindingUtils.findClosestWaypoint.
      pose proof (findClosestWaypoint_loop p (first :: rest)
                    (List.length (first :: rest) - 1) 1 0
                    (Magnitude (sub p (position first)))) as H.
      destruct (forLoop _ _ _ _) as [k d]. exists k. split; [reflexivity | ].
      apply H.
      - simpl. lia.
      - split; [lia | ]. exists first. split; [reflexivity | split].
        + intros j wj Hj Ej. assert (j = 0) as -> by lia.
          simpl in Ej. injection Ej as <-. lra.
        + intros j wj Hj. lia.
      - intros wc Ec. simpl in Ec. injection Ec as <-. reflexivity. }
    split.
    + rewrite E. split; [lia | discriminate].
    + right. exists k. split; assumption.
Qed.







Lemma nth_error_last {A : Type} (rest : list A) (first : A) :
  nth_error (first :: rest) (List.length rest) = Some (last rest first).
Proof.
  revert first. induction rest as [ | b rest IH]; intros first.
  - reflexivity.
  - cbn [List.length nth_error]. rewrite IH.
    now rewrite <- (last_cons_cons b rest first).
Qed.

(** X6. The edges of [filterWaypoints].  A list within the limit is returned
    as it is.  With [maxWaypoints] 1 or less and a longer, non-empty list,
    the result is the first and the last waypoint: two waypoints, more than
    the limit (and twice the same one if the list has one element). *)
Theorem filterWaypoints_edges (first : Waypoint) (rest : list Waypoint)
    (wps : list Waypoint) (maxWaypoints : Z) :
  ((Z.of_nat (List.length wps) <= maxWaypoints)%Z ->
   PathfindingUtils.filterWaypoints wps maxWaypoints = wps)
  /\ ((maxWaypoints <= 1)%Z ->
      (maxWaypoints < Z.of_nat (List.length (first :: rest)))%Z ->
      PathfindingUtils.filterWaypoints (first :: rest) maxWaypoints
      = [first; last rest first]).
Proof.
  split.
  - intros H. unfold PathfindingUtils.filterWaypoints.
    apply Z.leb_le in H. now rewrite H.
  - intros H1 H2. unfold PathfindingUtils.filterWaypoints.
    destruct (Z.of_nat (List.length (first :: rest)) <=? maxWaypoints)%Z
      eqn:E; [apply Z.leb_le in E; lia | ].
    cbv zeta.
    replace (Z.to_nat (maxWaypoints - 1 - 1)) with 0 by lia.
    cbn [forLoop].
    unfold PathfindingUtils.at_ at 2.
    destruct (Z.of_nat (List.length (first :: rest)) - 1 <? 0)%Z eqn:En;
      [apply Z.ltb_lt in En; cbn [List.length] in En; lia | ].
    replace (Z.to_nat (Z.of_nat (List.length (first :: rest)) - 1))
      with (List.length rest) by (cbn [List.length]; lia).
    rewrite nth_error_last. reflexivity.
Qed.

(** A use of X6: asked for at most one waypoint of
    five, [filterWaypoints] returns two. *)
Lemma filterWaypoints_edges_witness :
  List.length (PathfindingUtils.filterWaypoints fiveWaypoints 1) = 2
  /\ PathfindingUtils.filterWaypoints fiveWaypoints 5 = fiveWaypoints.
Proof.
  destruct (filterWaypoints_edges (mkWaypoint (mkVector3 0 0 0) Walk)
              (tl fiveWaypoints) fiveWaypoints 1) as (_ & H).
  destruct (filterWaypoints_edges (mkWaypoint (mkVector3 0 0 0) Walk)
              (tl fiveWaypoints) fiveWaypoints 5) as (K & _).
  split.
  - change fiveWaypoints
      with (mkWaypoint (mkVector3 0 0 0) Walk :: tl fiveWaypoints).
    rewrite H; [reflexivity | lia | simpl; lia].
  - apply K. simpl. lia.
Defined.

Lemma seq_split_ends (n : nat) :
  2 <= n -> seq 0 n = 0 :: seq 1 (n - 1 - 1) ++ [n - 1].
Proof.
  intros H. destruct n as [ | [ | k]]; try lia.
  replace (S (S k) - 1 - 1) with k by lia.
  replace (S (S k) - 1) with (1 + k) by lia.
  cbn [seq]. f_equal. rewrite <- seq_S. reflexivity.
Qed.

(** A loop that pushes the waypoints at the indices passing a test. *)
Lemma forLoop_keep (wps : list Waypoint) (p : nat -> bool)
    (count from : nat) (acc : list Waypoint) :
  from + count <= List.length wps ->
  map Some
    (forLoop count from
       (fun i simplified =>
          if p i then push simplified (nth_error wps i) else simplified) acc)
  = map Some acc ++ map (nth_error wps) (filter p (seq from count)).
Proof.
  revert from acc. induction count as [ | n IH]; intros from acc L.
  - simpl. now rewrite app_nil_r.
  - cbn [forLoop seq filter]. rewrite IH by lia.
    destruct (p from); [ | reflexivity].
    destruct (nth_error wps from) as [v | ] eqn:E.
    + cbn [push map]. rewrite map_app, <- app_assoc, E. reflexivity.
    + apply nth_error_None in E. lia.
Qed.

Lemma simplifyPath_filter (Unit : Vector3 -> Vector3)
    (Dot : Vector3 -> Vector3 -> R) (wps : list Waypoint)
    (tolerance : option R) :
  2 < List.length wps ->
  map Some (PathfindingUtils.simplifyPath Unit Dot wps tolerance)
  = map (nth_error wps)
      (filter (simplifyKeeps Unit Dot wps tolerance)
         (seq 0 (List.length wps))).
Proof.
  intros L. unfold PathfindingUtils.simplifyPath.
  destruct (List.length wps <=? 2) eqn:E; [apply Nat.leb_le in E; lia | ].
  cbv zeta.
  destruct (nth_error wps 0) as [w0 | ] eqn:N0;
    [ | apply nth_error_None in N0; lia].
  destruct (nth_error wps (List.length wps - 1)) as [wl | ] eqn:Nl;
    [ | apply nth_error_None in Nl; lia].
  cbn [push app].
  rewrite (forLoop_ext _ _ _
             (fun i simplified =>
                if turnsOrActs Unit Dot wps tolerance i
                then push simplified (nth_error wps i) else simplified)).
  2:{ intros i a. unfold turnsOrActs.
      destruct (nth_error wps (i - 1)); [ | reflexivity].
      destruct (nth_error wps i); [ | reflexivity].
      destruct (nth_error wps (i + 1)); reflexivity. }
  rewrite map_app, forLoop_keep by lia.
  rewrite (seq_split_ends (List.length wps)) by lia.
  cbn [filter]. rewrite filter_app. cbn [filter].
  assert (simplifyKeeps Unit Dot wps tolerance 0 = true) as K0 by reflexivity.
  assert (simplifyKeeps Unit Dot wps tolerance (List.length wps - 1) = true)
    as Kl.
  { unfold simplifyKeeps. rewrite Nat.eqb_refl, orb_true_r. reflexivity. }
  rewrite K0, Kl. cbn [map]. rewrite map_app. cbn [map]. rewrite N0, Nl.
  rewrite (filter_ext_in (simplifyKeeps Unit Dot wps tolerance)
             (turnsOrActs Unit Dot wps tolerance)).
  - reflexivity.
  - intros i Hi. apply in_seq in Hi. unfold simplifyKeeps.
    destruct (i =? 0) eqn:E0; [apply Nat.eqb_eq in E0; lia | ].
    destruct (i =? List.length wps - 1) eqn:E1;
      [apply Nat.eqb_eq in E1; lia | ].
    reflexivity.
Qed.

(** X7. What [simplifyPath] keeps, whatever the host's [Unit] and [Dot]
    compute.  Up to two waypoints are returned as they are.  Of a longer
    list it keeps, in their order, the first waypoint, the last, and each
    one in between that is not a plain walk or where the path turns by more
    than the tolerance.  So the result is never longer than the list, holds
    only waypoints of the list, and holds every waypoint whose action is not
    [Walk]. *)
Theorem simplifyPath_keeps (Unit : Vector3 -> Vector3)
    (Dot : Vector3 -> Vector3 -> R) (wps : list Waypoint)
    (tolerance : option R) :
  let n := List.length wps in
  let r := PathfindingUtils.simplifyPath Unit Dot wps tolerance in
  (n <= 2 -> r = wps)
  /\ (2 < n ->
      map Some r
      = map (nth_error wps)
          (filter (simplifyKeeps Unit Dot wps tolerance) (seq 0 n)))
  /\ List.length r <= n
  /\ (forall wp, In wp r -> In wp wps)
  /\ (forall wp, In wp wps -> action wp <> Walk -> In wp r).
Proof.
  cbv zeta.
  destruct (Nat.le_gt_cases (List.length wps) 2) as [Small | Big].
  - assert (PathfindingUtils.simplifyPath Unit Dot wps tolerance = wps) as E.
    { unfold PathfindingUtils.simplifyPath.
      apply Nat.leb_le in Small. now rewrite Small. }
    rewrite E. repeat split; auto; intros; lia.
  - pose proof (simplifyPath_filter Unit Dot wps tolerance Big) as F.
    split; [intros; lia | split; [intros _; exact F | split; [ | split]]].
    + apply (f_equal (@List.length _)) in F. rewrite !length_map in F.
      rewrite F.
      etransitivity; [apply filter_length_le | ].
      rewrite length_seq. lia.
    + intros wp Hin.
      apply (in_map Some) in Hin. rewrite F in Hin.
      apply in_map_iff in Hin. destruct Hin as (k & Ek & _).
      now apply nth_error_In in Ek.
    + intros wp Hin NW.
      apply In_nth_error in Hin. destruct Hin as (k & Ek).
      assert (k < List.length wps) as Lk by (apply nth_error_Some; congruence).
      assert (In (Some wp)
                (map Some
                   (PathfindingUtils.simplifyPath Unit Dot wps tolerance)))
        as H.
      { rewrite F, <- Ek. apply in_map. apply filter_In. split.
        - apply in_seq. lia.
        - unfold simplifyKeeps.
          destruct (k =? 0) eqn:E0; [reflexivity | ].
          destruct (k =? List.length wps - 1) eqn:E1; [reflexivity | ].
          apply Nat.eqb_neq in E0, E1. cbn [orb]. unfold turnsOrActs.
          destruct (nth_error wps (k - 1)) eqn:Ep;
            [ | apply nth_error_None in Ep; lia].
          rewrite Ek.
          destruct (nth_error wps (k + 1)) eqn:En;
            [ | apply nth_error_None in En; lia].
          apply orb_true_iff. right. apply negb_true_iff.
          destruct (PathWaypointAction_eqb (action wp) Walk) eqn:EW;
            [ | reflexivity].
          apply PathWaypointAction_eqb_eq in EW. contradiction. }
      apply in_map_iff in H. destruct H as (x & Ex & Hx).
      now injection Ex as ->.
Qed.

(** A use of X7: the jump among [fiveWaypoints] survives,
    whatever the angles are. *)
Lemma simplifyPath_keeps_witness :
  In (mkWaypoint (mkVector3 2 0 0) Jump)
    (PathfindingUtils.simplifyPath (fun v => v) (fun _ _ => 1%R)
       fiveWaypoints None).
Proof.
  apply (simplifyPath_keeps (fun v => v) (fun _ _ => 1%R) fiveWaypoints None).
  - simpl. tauto.
  - discriminate.
Defined.

(** ** Facts about the geometry helpers *)






(** ** Facts about the one-shot queries *)

(** [computeAsync] on a new path with no events. *)
Lemma computeAsync_fresh (hostStatus : PathStatus) (start finish : Vector3)
    (status : PathStatus) (wps : list PathWaypoint) :
  Path.computeAsync PathfindingUtils.noEvents start finish (status, wps)
    (Path.construct hostStatus)
  = (Path.Resolved status,
     if PathStatus_eqb status Success
     then mkWorld Computing status wps (cached wps) 0 None true 0%Z None None
            None None [] 0 [] [SearchCall start finish]
     else mkWorld Failed status wps [] 0 None true 0%Z None None
            None None [] 0 [] [SearchCall start finish]).
Proof. destruct status; reflexivity. Qed.

(** X10. The one-shot queries never reject, and answer from what the search
    reports: [pathExists] is true exactly for [Success]; [getWaypoints] gives
    the reported waypoints, position and action kept, for [Success] and
    nothing otherwise; [getPathDistance] gives the length of the reported
    path for [Success] and 0 otherwise.  Each destroys its path: nothing
    stays connected, and after a success the trace holds the warning of the
    [stop] that [destroy] attempts from [Computing]. *)
Theorem one_shot_queries (hostStatus : PathStatus) (start finish : Vector3)
    (status : PathStatus) (wps : list PathWaypoint) :
  let ok := PathStatus_eqb status Success in
  (exists w,
     PathfindingUtils.pathExists hostStatus start finish (status, wps)
     = PathfindingUtils.Fulfilled (ok, w)
     /\ released start finish status w)
  /\ (exists w,
        PathfindingUtils.getWaypoints hostStatus start finish (status, wps)
        = PathfindingUtils.Fulfilled
            (if ok then Some (cached wps) else None, w)
        /\ released start finish status w)
  /\ (exists w,
        PathfindingUtils.getPathDistance hostStatus start finish (status, wps)
        = PathfindingUtils.Fulfilled
            (if ok then consecutiveSum (cached wps) else 0%R, w)
        /\ released start finish status w).
Proof.
  cbv zeta.
  unfold PathfindingUtils.pathExists, PathfindingUtils.getWaypoints,
    PathfindingUtils.getPathDistance, PathfindingUtils.createPath.
  rewrite computeAsync_fresh.
  split; [ | split].
  - eexists. split; [destruct status; reflexivity | ].
    destruct status; repeat split.
  - eexists. split; [destruct status; reflexivity | ].
    destruct status; repeat split.
  - eexists. split.
    + rewrite getDistance_consecutive. destruct status; reflexivity.
    + destruct status; repeat split.
Qed.

(** ** Facts about the performance estimate *)

(** The loop over the modifiers adds one exactly when there are six or
    more. *)
Lemma modifiersLoop_six (entries : list (string * Q)) (count impact : nat) :
  count <= 5 ->
  PathfindingUtils.modifiersLoop entries count impact
  = if 6 <=? count + List.length entries then impact + 1 else impact.
Proof.
  revert count. induction entries as [ | e rest IH]; intros count H.
  - cbn [PathfindingUtils.modifiersLoop List.length].
    destruct (6 <=? count + 0) eqn:E; [ | reflexivity].
    apply Nat.leb_le in E. lia.
  - cbn [PathfindingUtils.modifiersLoop List.length].
    destruct (5 <? S count) eqn:E.
    + apply Nat.ltb_lt in E.
      destruct (6 <=? count + S (List.length rest)) eqn:F; [reflexivity | ].
      apply Nat.leb_gt in F. lia.
    + apply Nat.ltb_ge in E. rewrite IH by lia.
      replace (S count + List.length rest)
        with (count + S (List.length rest)) by lia.
      reflexivity.
Qed.

(** X11. The performance estimate.  With no options, or none that differs
    from the defaults, it is "medium" beyond 500 studs and "low" otherwise,
    never "high".  With any options, a distance beyond 500 is never "low",
    and at 200 studs or less "high" takes all four costly options at once:
    climbing, a radius above 5, a finite [maxDistance] above 1000 and six or
    more modifiers. *)
Theorem estimatePerformanceImpact_levels (start finish : Vector3)
    (options : PathOptions) :
  let d := PathfindingUtils.getStraightLineDistance start finish in
  let v := PathfindingUtils.validateOptions (Some options) in
  PathfindingUtils.estimatePerformanceImpact start finish None
  = (if Rltb 500 d then "medium"%string else "low"%string)
  /\ ((500 < d)%R ->
      PathfindingUtils.estimatePerformanceImpact start finish (Some options)
      <> "low"%string)
  /\ ((d <= 200)%R ->
      PathfindingUtils.estimatePerformanceImpact start finish (Some options)
      = "high"%string ->
      agentCanClimb v = true
      /\ (5 < agentRadius v)%Q
      /\ (exists q, maxDistance v = finite q /\ (1000 < q)%Q)
      /\ 6 <= List.length (modifiers v)).
Proof.
  cbv zeta. split; [ | split].
  - unfold PathfindingUtils.estimatePerformanceImpact. simpl.
    destruct (Rltb 500 _) eqn:E5; [reflexivity | ].
    destruct (Rltb 200 _); reflexivity.
  - intros H. apply Rltb_true in H.
    unfold PathfindingUtils.estimatePerformanceImpact. rewrite H.
    destruct (maxDistance _) as [ | q]; [ | destruct (Qlt_le_dec 1000 q)];
      destruct (agentCanClimb _); destruct (Qlt_le_dec 5 _);
      (destruct (modifiers _) as [ | e l];
       [ | rewrite modifiersLoop_six by lia;
           destruct (6 <=? 0 + List.length (e :: l))]);
      simpl; discriminate.
  - intros H. unfold PathfindingUtils.estimatePerformanceImpact.
    assert (Rltb 500 (PathfindingUtils.getStraightLineDistance start finish)
            = false) as F5 by (apply Rltb_false; lra).
    assert (Rltb 200 (PathfindingUtils.getStraightLineDistance start finish)
            = false) as F2 by (apply Rltb_false; lra).
    rewrite F5, F2.
    destruct (maxDistance _) as [ | q] eqn:EM;
      [ | destruct (Qlt_le_dec 1000 q) as [Lq | Lq]];
      destruct (agentCanClimb _) eqn:EC;
      destruct (Qlt_le_dec 5 _) as [Lr | Lr];
      (destruct (modifiers _) as [ | e l] eqn:EL;
       [ | rewrite modifiersLoop_six by lia;
           destruct (6 <=? 0 + List.length (e :: l)) eqn:E6]);
      simpl; intros K; try discriminate K.
    apply Nat.leb_le in E6.
    split; [reflexivity | split; [exact Lr | split]].
    + exists q. split; [reflexivity | exact Lq].
    + exact E6.
Qed.

(** A use of X11: a climbing agent of radius 6
    with [maxDistance] 2000 and six modifiers, over a short distance. *)
Lemma estimatePerformanceImpact_levels_witness :
  let heavy :=
    mkPathOptions (Some 6%Q) None None (Some true) (Some (finite 2000%Q))
      (Some [("a", 1%Q); ("b", 1%Q); ("c", 1%Q); ("d", 1%Q); ("e", 1%Q);
             ("f", 1%Q)]%string) in
  PathfindingUtils.estimatePerformanceImpact startPoint startPoint (Some heavy)
  = "high"%string
  /\ PathfindingUtils.estimatePerformanceImpact startPoint startPoint None
     = "low"%string.
Proof.
  cbv zeta.
  assert (PathfindingUtils.getStraightLineDistance startPoint startPoint = 0%R)
    as D0.
  { unfold PathfindingUtils.getStraightLineDistance. rewrite Magnitude_sub.
    apply euclid_same. }
  assert (Rltb 500 0 = false) as F5 by (apply Rltb_false; lra).
  assert (Rltb 200 0 = false) as F2 by (apply Rltb_false; lra).
  split.
  - unfold PathfindingUtils.estimatePerformanceImpact.
    rewrite D0, F5, F2. reflexivity.
  - destruct (estimatePerformanceImpact_levels startPoint startPoint
                (mkPathOptions None None None None None None)) as (H & _).
    rewrite H, D0, F5. reflexivity.
Defined.

(** ** Invariants of the runs: the cache and the retry counter *)

Lemma sameBase_refl (w : World) : sameBase w w.
Proof. split; reflexivity. Qed.

Lemma sameBase_trans (w1 w2 w3 : World) :
  sameBase w1 w2 -> sameBase w2 w3 -> sameBase w1 w3.
Proof. intros [A B] [C D]. split; congruence. Qed.

Lemma sameBase_transitionTo (i : Instance) (T : PathState) (w : World) :
  sameBase w (snd (PathFSM.transitionTo (eventsOf i) T w)).
Proof.
  pose proof (transitionTo_frame i T w) as H. unfold sameBase.
  rewrite <- H at 2 4. split; reflexivity.
Qed.

Lemma sameBase_emits (l : list Obs) (w : World) : sameBase w (emits l w).
Proof. split; reflexivity. Qed.

Lemma sameBase_cleanupConnections (w : World) :
  sameBase w (Path.cleanupConnections w).
Proof.
  unfold Path.cleanupConnections.
  destruct (followConnection w); split; reflexivity.
Qed.

Lemma sameBase_triggerPathCompleted (i : Instance) (w : World) :
  sameBase w (PathFSM.triggerPathCompleted (eventsOf i) w).
Proof.
  rewrite triggerPathCompleted_eventsOf.
  eapply sameBase_trans; [apply sameBase_transitionTo | apply sameBase_emits].
Qed.

Lemma triggerWaypointReached_eventsOf (i : Instance) (wp : Waypoint)
    (k : nat) (w : World) :
  PathFSM.triggerWaypointReached (eventsOf i) wp k w
  = emits (fired (with_onWaypointReached (callbacksOf i))
             (WaypointReached wp k)) w.
Proof.
  unfold PathFSM.triggerWaypointReached.
  destruct i as [c | c o]; simpl; destruct (with_onWaypointReached c);
    simpl; first [reflexivity | now rewrite emits_nil].
Qed.

Lemma sameBase_followNextWaypoint (i : Instance) (h : Humanoid) (d : R)
    (w : World) :
  sameBase w (Path.followNextWaypoint (eventsOf i) h d w).
Proof.
  unfold Path.followNextWaypoint.
  destruct (List.length (currentWaypoints w) <=? currentWaypointIndex w).
  - eapply sameBase_trans;
      [apply sameBase_triggerPathCompleted | apply sameBase_cleanupConnections].
  - destruct (nth_error _ _) as [wp | ]; [ | apply sameBase_refl].
    destruct (PathWaypointAction_eqb (action wp) Jump); split; reflexivity.
Qed.

Lemma sameBase_pause (i : Instance) (w : World) :
  sameBase w (Path.pause (eventsOf i) w).
Proof.
  unfold Path.pause.
  pose proof (sameBase_transitionTo i Paused w) as H.
  destruct (PathFSM.transitionTo (eventsOf i) Paused w) as [[ | ] w1];
    simpl in H; [ | exact H].
  eapply sameBase_trans; [exact H | apply sameBase_cleanupConnections].
Qed.

Lemma sameBase_resume (i : Instance) (h : Humanoid) (d : option R)
    (w : World) :
  sameBase w (Path.resume (eventsOf i) h d w).
Proof.
  unfold Path.resume.
  pose proof (sameBase_transitionTo i Following w) as H.
  destruct (PathFSM.transitionTo (eventsOf i) Following w) as [[ | ] w1];
    simpl in H; [ | exact H].
  eapply sameBase_trans; [exact H | apply sameBase_followNextWaypoint].
Qed.

Lemma sameBase_stop (i : Instance) (w : World) :
  sameBase w (Path.stop (eventsOf i) w).
Proof.
  unfold Path.stop.
  eapply sameBase_trans; [apply sameBase_cleanupConnections | ].
  eapply sameBase_trans; [apply sameBase_transitionTo | ].
  split; reflexivity.
Qed.

Lemma sameBase_tick (i : Instance) (id : nat) (rootPart : option Vector3)
    (w : World) :
  sameBase w (Path.tick (eventsOf i) id rootPart w).
Proof.
  unfold Path.tick. destruct (find _ _) as [t | ]; [ | apply sameBase_refl].
  unfold Path.onHeartbeat.
  destruct rootPart as [p | ]; [ | apply sameBase_refl].
  destruct (Rle_dec _ _); [ | apply sameBase_refl].
  rewrite triggerWaypointReached_eventsOf.
  match goal with
  | |- context [PathState_eqb (Path.getState ?x) Following] => set (w1 := x)
  end.
  assert (sameBase w w1) as H1.
  { unfold w1. eapply sameBase_trans; [apply sameBase_cleanupConnections | ].
    split; reflexivity. }
  destruct (PathState_eqb (Path.getState w1) Following); [ | exact H1].
  eapply sameBase_trans; [exact H1 | apply sameBase_followNextWaypoint].
Qed.

Lemma sound_sameBase (i : Instance) (w w' : World) :
  sameBase w w' -> sound i w -> sound i w'.
Proof.
  unfold sameBase, search, sound, neverStale, withinBudget.
  intros [S R] [N B]. injection S as S1 S2 S3.
  rewrite S1, S2, S3, R. split; assumption.
Qed.

Lemma budget_nonneg (i : Instance) : (0 <= budget i)%Z.
Proof. destruct i; simpl; lia. Qed.

Lemma sound_afterFailed (i : Instance) (reason : PathStatus) (w : World) :
  sound i w -> sound i (afterFailed i reason w).
Proof.
  destruct i as [c | c o]; [trivial | ].
  unfold afterFailed, SmartPath.handleFailure, SmartPath.shouldAttemptRetry,
    SmartPath.waitForRetry.
  destruct (negb _); [trivial | ].
  destruct (retryAttempts w <? _)%Z eqn:E; cbn [negb]; [ | trivial].
  apply Z.ltb_lt in E. intros [N B]. split; [exact N | ].
  unfold withinBudget, budget in *.
  cbn [retryAttempts set_suspended set_retryAttempts]. lia.
Qed.

Lemma sound_afterBlocked (i : Instance) (w : World) :
  sound i w -> sound i (afterBlocked i w).
Proof.
  destruct i as [c | c o]; [trivial | ].
  unfold afterBlocked, SmartPath.handleBlocked, SmartPath.shouldAttemptRetry,
    SmartPath.waitForRetry.
  destruct (retryAttempts w <? _)%Z eqn:E; cbn [negb]; [ | trivial].
  apply Z.ltb_lt in E. intros [N B]. split; [exact N | ].
  unfold withinBudget, budget in *.
  cbn [retryAttempts set_suspended set_retryAttempts]. lia.
Qed.

Lemma sound_triggerPathFailed (i : Instance) (reason : PathStatus)
    (w : World) :
  sound i w -> sound i (PathFSM.triggerPathFailed (eventsOf i) reason w).
Proof.
  intros H. rewrite triggerPathFailed_eventsOf. apply sound_afterFailed.
  eapply sound_sameBase; [ | exact H].
  eapply sameBase_trans; [apply sameBase_transitionTo | apply sameBase_emits].
Qed.

Lemma sound_triggerPathBlocked (i : Instance) (w : World) :
  sound i w -> sound i (PathFSM.triggerPathBlocked (eventsOf i) w).
Proof.
  intros H. rewrite triggerPathBlocked_eventsOf. apply sound_afterBlocked.
  eapply sound_sameBase; [ | exact H].
  eapply sameBase_trans; [apply sameBase_transitionTo | apply sameBase_emits].
Qed.

Lemma sound_startFollowing (i : Instance) (h : Humanoid) (d : option R)
    (w : World) :
  sound i w -> sound i (Path.startFollowing (eventsOf i) h d w).
Proof.
  intros H. unfold Path.startFollowing.
  destruct (List.length (currentWaypoints w) =? 0);
    [now apply sound_triggerPathFailed | ].
  pose proof (sameBase_transitionTo i Following w) as T.
  destruct (PathFSM.transitionTo (eventsOf i) Following w) as [[ | ] w1];
    simpl in T |- *.
  - eapply sound_sameBase; [ | exact H].
    eapply sameBase_trans; [exact T | ].
    eapply sameBase_trans;
      [apply sameBase_cleanupConnections | apply sameBase_followNextWaypoint].
  - eapply sound_sameBase; [ | exact H].
    eapply sameBase_trans; [exact T | split; reflexivity].
Qed.

Lemma sound_blockedSignal (i : Instance) (w : World) :
  sound i w -> sound i (Path.blockedSignal (eventsOf i) w).
Proof.
  intros H. unfold Path.blockedSignal, Path.onBlocked.
  destruct (pathBlockedConnection w); [ | exact H].
  destruct (PathState_eqb _ _); [now apply sound_triggerPathBlocked | exact H].
Qed.

(** [computeAsync] makes the cache current again. *)
Lemma sound_computeAsync (i : Instance) (start finish : Vector3)
    (answer : PathStatus * list PathWaypoint) (w : World) :
  sound i w ->
  sound i (snd (Path.computeAsync (eventsOf i) start finish answer w)).
Proof.
  intros H. rewrite computeAsync_eventsOf.
  destruct (PathState_eqb (currentState w) Computing); cbn [snd].
  { eapply sound_sameBase; [ | exact H]. split; reflexivity. }
  assert (withinBudget i (searched i start finish answer w)) as B.
  { destruct H as [_ B]. unfold withinBudget, searched, set_roblox, emit,
      set_trace in *. cbn [retryAttempts].
    destruct (sameBase_transitionTo i Computing w) as [_ R]. now rewrite R. }
  assert (robloxStatus (searched i start finish answer w) = fst answer
          /\ robloxWaypoints (searched i start finish answer w) = snd answer)
    as [RS RW] by (split; reflexivity).
  destruct (PathStatus_eqb (fst answer) Success) eqn:E.
  - split; [ | exact B]. unfold neverStale. intros _.
    unfold Path.extractWaypoints, set_currentWaypointIndex,
      set_currentWaypoints. cbn [currentWaypoints robloxWaypoints].
    reflexivity.
  - apply sound_triggerPathFailed. split; [ | exact B].
    unfold neverStale. rewrite RS. intros S. rewrite S in E. discriminate.
Qed.

Lemma sound_smart_computeAsync (c : Callbacks)
    (o : SmartPath.SmartPathOptions) (start finish : Vector3)
    (answer : PathStatus * list PathWaypoint) (w : World) :
  sound (ASmartPath c o) w ->
  sound (ASmartPath c o)
    (snd (SmartPath.computeAsync (callerEvents c) o start finish answer w)).
Proof.
  intros [N B]. unfold SmartPath.computeAsync.
  apply (sound_computeAsync (ASmartPath c o)). split.
  - exact N.
  - unfold withinBudget. cbn [retryAttempts set_retryAttempts].
    pose proof (budget_nonneg (ASmartPath c o)). lia.
Qed.

Lemma sound_smart_startFollowing (c : Callbacks)
    (o : SmartPath.SmartPathOptions) (h : Humanoid) (d : option R)
    (w : World) :
  sound (ASmartPath c o) w ->
  sound (ASmartPath c o) (SmartPath.startFollowing (callerEvents c) o h d w).
Proof.
  intros H. unfold SmartPath.startFollowing.
  apply (sound_startFollowing (ASmartPath c o)).
  eapply sound_sameBase; [ | exact H]. split; reflexivity.
Qed.

Lemma sound_wake (c : Callbacks) (o : SmartPath.SmartPathOptions) (k : nat)
    (answer : PathStatus * list PathWaypoint) (w : World) :
  sound (ASmartPath c o) w ->
  sound (ASmartPath c o) (SmartPath.wake (callerEvents c) o k answer w).
Proof.
  intros H. unfold SmartPath.wake.
  destruct (nth_error (suspended w) k) as [s | ]; [ | exact H].
  set (w0 := set_suspended _ w).
  assert (sound (ASmartPath c o) w0) as H0.
  { eapply sound_sameBase; [ | exact H]. split; reflexivity. }
  destruct (sus_kind s).
  - unfold SmartPath.handleBlocked_resumed.
    destruct (lastStart w0) as [s0 | ]; [ | exact H0].
    destruct (lastFinish w0) as [f0 | ]; [ | exact H0].
    pose proof (sound_smart_computeAsync c o s0 f0 answer w0 H0) as HC.
    destruct (SmartPath.computeAsync _ _ _ _ _ _) as [[status | msg] w1];
      cbn [snd] in HC.
    + destruct (PathStatus_eqb status Success); [ | exact HC].
      destruct (currentHumanoid w1); [ | exact HC].
      now apply sound_smart_startFollowing.
    + eapply sound_sameBase; [ | exact HC]. split; reflexivity.
  - unfold SmartPath.handleFailure_resumed.
    destruct (lastStart w0) as [s0 | ]; [ | exact H0].
    destruct (lastFinish w0) as [f0 | ]; [ | exact H0].
    pose proof (sound_smart_computeAsync c o s0 f0 answer w0 H0) as HC.
    destruct (SmartPath.computeAsync _ _ _ _ _ _) as [[status | msg] w1];
      cbn [snd] in HC; [exact HC | ].
    eapply sound_sameBase; [ | exact HC]. split; reflexivity.
Qed.

Lemma sound_step (i : Instance) (op : Op) (w : World) :
  sound i w -> sound i (step i op w).
Proof.
  intros H. destruct op; cbn [step].
  - destruct i as [c | c o];
      [apply (sound_computeAsync (APath c)); exact H
      | now apply sound_smart_computeAsync].
  - destruct i as [c | c o];
      [apply (sound_startFollowing (APath c)); exact H
      | now apply sound_smart_startFollowing].
  - eapply sound_sameBase; [apply sameBase_pause | exact H].
  - eapply sound_sameBase; [apply sameBase_resume | exact H].
  - eapply sound_sameBase; [apply sameBase_stop | exact H].
  - eapply sound_sameBase; [apply sameBase_tick | exact H].
  - now apply sound_blockedSignal.
  - destruct i as [c | c o]; [exact H | now apply sound_wake].
  - destruct i as [c | c o]; [exact H | ].
    destruct H as [N B]. split; [exact N | ].
    unfold withinBudget. simpl. lia.
Qed.

Lemma sound_run (i : Instance) (hostStatus : PathStatus) (ops : list Op) :
  sound i (run i hostStatus ops).
Proof.
  unfold run.
  assert (sound i (Path.construct hostStatus)) as H0.
  { split.
    - intros _. reflexivity.
    - unfold withinBudget. simpl. pose proof (budget_nonneg i). lia. }
  revert H0. generalize (Path.construct hostStatus).
  induction ops as [ | op ops IH]; intros w H; [exact H | ].
  simpl. apply IH. now apply sound_step.
Qed.

(** X12. The getters are always current.  After any run of caller calls and
    host events on a new [Path] or [SmartPath], [getWaypoints] is absent or
    the waypoints of the latest search, and [getDistance] is 0 or their
    length: waypoints cached by an earlier computation are never returned
    once a later search has failed. *)
Theorem getters_never_stale (i : Instance) (hostStatus : PathStatus)
    (ops : list Op) :
  let w := run i hostStatus ops in
  Path.getWaypoints w
  = (if Path.isSuccess w then Some (cached (robloxWaypoints w)) else None)
  /\ Path.getDistance w
     = (if Path.isSuccess w then consecutiveSum (cached (robloxWaypoints w))
        else 0%R).
Proof.
  cbv zeta. destruct (sound_run i hostStatus ops) as [N _].
  rewrite getDistance_consecutive.
  unfold Path.getWaypoints, Path.isSuccess. unfold neverStale in N.
  destruct (PathStatus_eqb (robloxStatus (run i hostStatus ops)) Success)
    eqn:E; [ | split; reflexivity].
  apply PathStatus_eqb_eq in E. rewrite (N E). split; reflexivity.
Qed.

(** X13. The retry counter stays within the budget.  After any run on a new
    instance it is between 0 and [maxRetries] (0 for a negative
    [maxRetries]); on a plain [Path] it stays 0. *)
Theorem retryAttempts_within_budget (i : Instance) (hostStatus : PathStatus)
    (ops : list Op) :
  (0 <= retryAttempts (run i hostStatus ops) <= budget i)%Z.
Proof.
  destruct (sound_run i hostStatus ops) as [_ B]. exact B.
Qed.

(** ** Invariants of the runs: the connections *)

Lemma sameConn_refl (w : World) : sameConn w w.
Proof. repeat split. Qed.

Lemma sameConn_trans (w1 w2 w3 : World) :
  sameConn w1 w2 -> sameConn w2 w3 -> sameConn w1 w3.
Proof. intros (A & B & C) (D & E & F). repeat split; congruence. Qed.

Lemma sameConn_transitionTo (i : Instance) (T : PathState) (w : World) :
  sameConn w (snd (PathFSM.transitionTo (eventsOf i) T w)).
Proof.
  pose proof (transitionTo_frame i T w) as H. unfold sameConn.
  rewrite <- H at 2 4 6. repeat split.
Qed.

Lemma sameConn_retry_only (w w' : World) : retry_only w w' -> sameConn w w'.
Proof. unfold retry_only, sameConn. intros <-. repeat split. Qed.

Lemma sameConn_triggerPathCompleted (i : Instance) (w : World) :
  sameConn w (PathFSM.triggerPathCompleted (eventsOf i) w).
Proof.
  rewrite triggerPathCompleted_eventsOf.
  eapply sameConn_trans; [apply sameConn_transitionTo | repeat split].
Qed.

Lemma sameConn_triggerPathFailed (i : Instance) (reason : PathStatus)
    (w : World) :
  sameConn w (PathFSM.triggerPathFailed (eventsOf i) reason w).
Proof.
  rewrite triggerPathFailed_eventsOf.
  eapply sameConn_trans; [apply sameConn_transitionTo | ].
  eapply sameConn_trans;
    [ | apply sameConn_retry_only, afterFailed_retry_only].
  repeat split.
Qed.

Lemma sameConn_triggerPathBlocked (i : Instance) (w : World) :
  sameConn w (PathFSM.triggerPathBlocked (eventsOf i) w).
Proof.
  rewrite triggerPathBlocked_eventsOf.
  eapply sameConn_trans; [apply sameConn_transitionTo | ].
  eapply sameConn_trans;
    [ | apply sameConn_retry_only, afterBlocked_retry_only].
  repeat split.
Qed.

Lemma freshIds_sameConn (w w' : World) :
  sameConn w w' -> freshIds w -> freshIds w'.
Proof.
  unfold sameConn, freshIds. intros (A & B & C) [F G].
  rewrite A, B, C. split; assumption.
Qed.

Lemma settled_None (w : World) : followConnection w = None -> settled w.
Proof. unfold settled. intros ->. destruct (currentState w); trivial. Qed.

Lemma settled_busy (w : World) :
  currentState w = Computing \/ currentState w = Following
  \/ currentState w = Blocked \/ currentState w = Failed ->
  settled w.
Proof.
  unfold settled. intros [-> | [-> | [-> | ->]]]; exact I.
Qed.

(** Two stores with the same state and connections. *)
Lemma tidy_same (w w' : World) :
  currentState w' = currentState w -> sameConn w w' -> tidy w -> tidy w'.
Proof.
  intros S C [G F]. split; [ | now apply (freshIds_sameConn w)].
  unfold settled in *. destruct C as (A & _). rewrite S, A. exact G.
Qed.

Lemma cleanupConnections_fresh (w : World) :
  freshIds w -> freshIds (Path.cleanupConnections w).
Proof.
  unfold Path.cleanupConnections, freshIds. intros [F G].
  destruct (followConnection w) as [c | ] eqn:E.
  - split; [ | discriminate]. simpl.
    apply Forall_forall. intros t Ht. apply filter_In in Ht.
    rewrite Forall_forall in F. apply F. tauto.
  - split; [exact F | now rewrite E].
Qed.

Lemma tidy_cleanupConnections (w : World) :
  freshIds w -> tidy (Path.cleanupConnections w).
Proof.
  intros F. split; [ | now apply cleanupConnections_fresh].
  apply settled_None. apply cleanupConnections_keeps.
Qed.

(** [followNextWaypoint] is only run in [Following]. *)
Lemma tidy_followNextWaypoint (i : Instance) (h : Humanoid) (d : R)
    (w : World) :
  currentState w = Following -> freshIds w ->
  tidy (Path.followNextWaypoint (eventsOf i) h d w).
Proof.
  intros S F. unfold Path.followNextWaypoint.
  destruct (List.length (currentWaypoints w) <=? currentWaypointIndex w).
  - apply tidy_cleanupConnections.
    apply (freshIds_sameConn w); [apply sameConn_triggerPathCompleted | exact F].
  - destruct (nth_error _ _) as [wp | ].
    + split.
      * apply settled_busy. right. left.
        destruct (PathWaypointAction_eqb (action wp) Jump); exact S.
      * destruct F as [F G]. unfold freshIds.
        destruct (PathWaypointAction_eqb (action wp) Jump); simpl;
          (split;
           [apply Forall_app; split;
            [eapply Forall_impl; [ | exact F]; simpl; intros; lia
            | constructor; [simpl; lia | constructor]]
           | intros c Hc; injection Hc as <-; lia]).
    + split; [apply settled_busy; tauto | exact F].
Qed.

Lemma searched_state (i : Instance) (start finish : Vector3)
    (answer : PathStatus * list PathWaypoint) (w : World) :
  PathState_eqb (currentState w) Computing = false ->
  currentState (searched i start finish answer w) = Computing.
Proof.
  intros E. unfold searched. simpl.
  rewrite transitionTo_state, allowed_Computing, E. reflexivity.
Qed.

Lemma sameConn_searched (i : Instance) (start finish : Vector3)
    (answer : PathStatus * list PathWaypoint) (w : World) :
  sameConn w (searched i start finish answer w).
Proof.
  unfold searched.
  eapply sameConn_trans; [apply sameConn_transitionTo | repeat split].
Qed.

Lemma tidy_computeAsync (i : Instance) (start finish : Vector3)
    (answer : PathStatus * list PathWaypoint) (w : World) :
  tidy w -> tidy (snd (Path.computeAsync (eventsOf i) start finish answer w)).
Proof.
  intros H. rewrite computeAsync_eventsOf.
  destruct (PathState_eqb (currentState w) Computing) eqn:E; cbn [snd].
  { apply (tidy_same w); [reflexivity | repeat split | exact H]. }
  pose proof (searched_state i start finish answer w E) as S.
  pose proof (sameConn_searched i start finish answer w) as C.
  destruct H as [_ F].
  destruct (PathStatus_eqb (fst answer) Success).
  - split; [apply settled_busy; left; exact S | ].
    apply (freshIds_sameConn w); [ | exact F].
    eapply sameConn_trans; [exact C | repeat split].
  - split.
    + apply settled_busy. right. right. right.
      destruct (triggerPathFailed_effect i (fst answer)
                  (searched i start finish answer w)) as [HS _].
      rewrite HS, S. reflexivity.
    + apply (freshIds_sameConn w); [ | exact F].
      eapply sameConn_trans; [exact C | apply sameConn_triggerPathFailed].
Qed.

Lemma tidy_startFollowing (i : Instance) (h : Humanoid) (d : option R)
    (w : World) :
  tidy w -> tidy (Path.startFollowing (eventsOf i) h d w).
Proof.
  intros H. unfold Path.startFollowing.
  destruct (List.length (currentWaypoints w) =? 0).
  - destruct (triggerPathFailed_effect i NoPath w) as [HS _].
    pose proof (sameConn_triggerPathFailed i NoPath w) as C.
    destruct (allowed (currentState w) Failed).
    + split; [apply settled_busy; tauto | ].
      apply (freshIds_sameConn w); [exact C | apply H].
    + apply (tidy_same w); assumption.
  - rewrite transitionTo_eventsOf.
    destruct (PathFSM.canTransitionTo Following w).
    + apply tidy_followNextWaypoint.
      * destruct (cleanupConnections_keeps
                    (set_trace
                       (trace w
                        ++ fired (with_onStateChanged (callbacksOf i))
                             (StateChanged (currentState w) Following))
                       (set_currentState Following w))) as (_ & -> & _).
        reflexivity.
      * apply cleanupConnections_fresh.
        apply (freshIds_sameConn w); [repeat split | apply H].
    + apply (tidy_same w); [reflexivity | repeat split | exact H].
Qed.

Lemma tidy_pause (i : Instance) (w : World) :
  tidy w -> tidy (Path.pause (eventsOf i) w).
Proof.
  intros H. unfold Path.pause. rewrite transitionTo_eventsOf.
  destruct (PathFSM.canTransitionTo Paused w).
  - apply tidy_cleanupConnections.
    apply (freshIds_sameConn w); [repeat split | apply H].
  - apply (tidy_same w); [reflexivity | repeat split | exact H].
Qed.

Lemma tidy_resume (i : Instance) (h : Humanoid) (d : option R) (w : World) :
  tidy w -> tidy (Path.resume (eventsOf i) h d w).
Proof.
  intros H. unfold Path.resume. rewrite transitionTo_eventsOf.
  destruct (PathFSM.canTransitionTo Following w).
  - apply tidy_followNextWaypoint; [reflexivity | ].
    apply (freshIds_sameConn w); [repeat split | apply H].
  - apply (tidy_same w); [reflexivity | repeat split | exact H].
Qed.

Lemma tidy_stop (i : Instance) (w : World) :
  tidy w -> tidy (Path.stop (eventsOf i) w).
Proof.
  intros [_ F]. unfold Path.stop.
  pose proof (cleanupConnections_fresh w F) as F1.
  destruct (cleanupConnections_keeps w) as (_ & _ & _ & N).
  pose proof (sameConn_transitionTo i Idle (Path.cleanupConnections w))
    as (A & B & C).
  split.
  - apply settled_None. simpl. now rewrite A.
  - apply (freshIds_sameConn (Path.cleanupConnections w));
      [repeat split; assumption | exact F1].
Qed.

Lemma tidy_tick (i : Instance) (id : nat) (rootPart : option Vector3)
    (w : World) :
  tidy w -> tidy (Path.tick (eventsOf i) id rootPart w).
Proof.
  intros H. unfold Path.tick. destruct (find _ _) as [t | ]; [ | exact H].
  unfold Path.onHeartbeat.
  destruct rootPart as [p | ]; [ | exact H].
  destruct (Rle_dec _ _); [ | exact H].
  rewrite triggerWaypointReached_eventsOf.
  match goal with
  | |- context [PathState_eqb (Path.getState ?x) Following] => set (w1 := x)
  end.
  destruct H as [_ F].
  pose proof (cleanupConnections_fresh w F) as F1.
  destruct (cleanupConnections_keeps w) as (_ & _ & _ & N).
  assert (freshIds w1) as Fw
    by (apply (freshIds_sameConn (Path.cleanupConnections w));
        [repeat split | exact F1]).
  destruct (PathState_eqb (Path.getState w1) Following) eqn:E.
  - apply PathState_eqb_eq in E. now apply tidy_followNextWaypoint.
  - split; [apply settled_None; exact N | exact Fw].
Qed.

Lemma tidy_blockedSignal (i : Instance) (w : World) :
  tidy w -> tidy (Path.blockedSignal (eventsOf i) w).
Proof.
  intros H. unfold Path.blockedSignal, Path.onBlocked.
  destruct (pathBlockedConnection w); [ | exact H].
  destruct (PathState_eqb (Path.getState w) Following) eqn:E; [ | exact H].
  apply PathState_eqb_eq in E. unfold Path.getState,
    PathFSM.getCurrentState in E.
  destruct (triggerPathBlocked_effect i w) as [HS _].
  rewrite E in HS. simpl in HS.
  split; [apply settled_busy; tauto | ].
  apply (freshIds_sameConn w); [apply sameConn_triggerPathBlocked | apply H].
Qed.

Lemma tidy_smart_computeAsync (c : Callbacks)
    (o : SmartPath.SmartPathOptions) (start finish : Vector3)
    (answer : PathStatus * list PathWaypoint) (w : World) :
  tidy w ->
  tidy (snd (SmartPath.computeAsync (callerEvents c) o start finish answer w)).
Proof.
  intros H. unfold SmartPath.computeAsync.
  apply (tidy_computeAsync (ASmartPath c o)).
  apply (tidy_same w); [reflexivity | repeat split | exact H].
Qed.

Lemma tidy_smart_startFollowing (c : Callbacks)
    (o : SmartPath.SmartPathOptions) (h : Humanoid) (d : option R)
    (w : World) :
  tidy w -> tidy (SmartPath.startFollowing (callerEvents c) o h d w).
Proof.
  intros H. unfold SmartPath.startFollowing.
  apply (tidy_startFollowing (ASmartPath c o)).
  apply (tidy_same w); [reflexivity | repeat split | exact H].
Qed.

Lemma tidy_wake (c : Callbacks) (o : SmartPath.SmartPathOptions) (k : nat)
    (answer : PathStatus * list PathWaypoint) (w : World) :
  tidy w -> tidy (SmartPath.wake (callerEvents c) o k answer w).
Proof.
  intros H. unfold SmartPath.wake.
  destruct (nth_error (suspended w) k) as [s | ]; [ | exact H].
  match goal with
  | |- context [SmartPath.handleBlocked_resumed _ _ _ ?x] => set (w0 := x)
  end.
  assert (tidy w0) as H0
    by (apply (tidy_same w); [reflexivity | repeat split | exact H]).
  destruct (sus_kind s).
  - unfold SmartPath.handleBlocked_resumed.
    destruct (lastStart w0) as [s0 | ]; [ | exact H0].
    destruct (lastFinish w0) as [f0 | ]; [ | exact H0].
    pose proof (tidy_smart_computeAsync c o s0 f0 answer w0 H0) as HC.
    destruct (SmartPath.computeAsync _ _ _ _ _ _) as [[status | msg] w1];
      cbn [snd] in HC.
    + destruct (PathStatus_eqb status Success); [ | exact HC].
      destruct (currentHumanoid w1); [ | exact HC].
      now apply tidy_smart_startFollowing.
    + apply (tidy_same w1); [reflexivity | repeat split | exact HC].
  - unfold SmartPath.handleFailure_resumed.
    destruct (lastStart w0) as [s0 | ]; [ | exact H0].
    destruct (lastFinish w0) as [f0 | ]; [ | exact H0].
    pose proof (tidy_smart_computeAsync c o s0 f0 answer w0 H0) as HC.
    destruct (SmartPath.computeAsync _ _ _ _ _ _) as [[status | msg] w1];
      cbn [snd] in HC; [exact HC | ].
    apply (tidy_same w1); [reflexivity | repeat split | exact HC].
Qed.

Lemma tidy_step (i : Instance) (op : Op) (w : World) :
  tidy w -> tidy (step i op w).
Proof.
  intros H. destruct op; cbn [step].
  - destruct i as [c | c o];
      [apply (tidy_computeAsync (APath c)); exact H
      | now apply tidy_smart_computeAsync].
  - destruct i as [c | c o];
      [apply (tidy_startFollowing (APath c)); exact H
      | now apply tidy_smart_startFollowing].
  - now apply tidy_pause.
  - now apply tidy_resume.
  - now apply tidy_stop.
  - now apply tidy_tick.
  - now apply tidy_blockedSignal.
  - destruct i as [c | c o]; [exact H | now apply tidy_wake].
  - destruct i as [c | c o]; [exact H | ].
    apply (tidy_same w); [reflexivity | repeat split | exact H].
Qed.

Lemma tidy_run (i : Instance) (hostStatus : PathStatus) (ops : list Op) :
  tidy (run i hostStatus ops).
Proof.
  unfold run.
  assert (tidy (Path.construct hostStatus)) as H0.
  { split; [reflexivity | ]. split; [constructor | discriminate]. }
  revert H0. generalize (Path.construct hostStatus).
  induction ops as [ | op ops IH]; intros w H; [exact H | ].
  simpl. apply IH. now apply tidy_step.
Qed.

(** X14. A controller at rest holds no follow connection.  After any run on
    a new instance, in [Idle], [Paused] or [Completed] the controller's
    follow connection is unset; and every connection on the tick signal, as
    well as the one the controller holds, has an identifier handed out
    earlier, so a new connection never reuses one. *)
Theorem at_rest_no_follow_connection (i : Instance) (hostStatus : PathStatus)
    (ops : list Op) :
  let w := run i hostStatus ops in
  (currentState w = Idle \/ currentState w = Paused
   \/ currentState w = Completed ->
   followConnection w = None)
  /\ Forall (fun t => tick_id t < nextConnection w) (heartbeat w)
  /\ (forall c, followConnection w = Some c -> c < nextConnection w).
Proof.
  cbv zeta. destruct (tidy_run i hostStatus ops) as [G [F1 F2]].
  split; [ | split; assumption].
  unfold settled in G. intros [E | [E | E]]; rewrite E in G; exact G.
Qed.

(** ** More facts about the FSM *)

Lemma transitionAll_app (ev : PathFSMEvents) (l1 l2 : list PathState)
    (w : World) :
  transitionAll ev (l1 ++ l2) w
  = let (a, w1) := transitionAll ev l1 w in
    let (b, w2) := transitionAll ev l2 w1 in
    (a && b, w2).
Proof.
  revert w. induction l1 as [ | T l1 IH]; intros w.
  - simpl. destruct (transitionAll ev l2 w). reflexivity.
  - simpl. destruct (PathFSM.transitionTo ev T w) as [a w1].
    rewrite IH. destruct (transitionAll ev l1 w1) as [b w2].
    destruct (transitionAll ev l2 w2) as [c w3].
    now rewrite andb_assoc.
Qed.

(** The states a sequence of transitions goes through, read off the
    table. *)
Lemma transitionAll_allowed (i : Instance) (targets : list PathState)
    (w : World) :
  (fix legal (S : PathState) (l : list PathState) : bool :=
     match l with
     | [] => true
     | T :: rest => allowed S T && legal T rest
     end) (currentState w) targets = true ->
  fst (transitionAll (eventsOf i) targets w) = true
  /\ currentState (snd (transitionAll (eventsOf i) targets w))
     = last targets (currentState w).
Proof.
  revert w. induction targets as [ | T rest IH]; intros w H.
  - split; reflexivity.
  - apply andb_true_iff in H. destruct H as [HA HL].
    cbn [transitionAll].
    pose proof (transitionTo_state i T w) as S.
    pose proof (transitionTo_eventsOf i T w) as E.
    rewrite canTransitionTo_allowed, HA in E.
    rewrite HA in S.
    destruct (PathFSM.transitionTo (eventsOf i) T w) as [a w1].
    injection E as -> _. cbn [snd] in S.
    rewrite <- S in HL. destruct (IH w1 HL) as [F L].
    destruct (transitionAll (eventsOf i) rest w1) as [b w2].
    cbn [fst snd] in *. subst b. split; [reflexivity | ].
    rewrite L, S. symmetry. apply last_cons_cons.
Qed.

(** X15. No state of the FSM is a dead end.  From every state, every state
    can be reached by [transitionTo] calls that are all accepted; five calls
    are enough. *)
Theorem every_state_reachable (i : Instance) (T : PathState) (w : World) :
  exists targets,
    List.length targets <= 5
    /\ fst (transitionAll (eventsOf i) targets w) = true
    /\ currentState (snd (transitionAll (eventsOf i) targets w)) = T.
Proof.
  exists (wayBetween (currentState w) T).
  split; [destruct (currentState w), T; simpl; lia | ].
  destruct (transitionAll_allowed i (wayBetween (currentState w) T) w)
    as [F L].
  - destruct (currentState w), T; reflexivity.
  - split; [exact F | ]. rewrite L.
    destruct (currentState w), T; reflexivity.
Qed.

(** X16. Only a finished path goes back to [Idle].  [transitionTo(Idle)] is
    accepted exactly in the terminal states, where the only other accepted
    target is [Computing]; a state is never both terminal and active; and in
    an active state a failure is always accepted. *)
Theorem terminal_states (w : World) :
  PathFSM.canTransitionTo Idle w = PathFSM.isTerminalState w
  /\ (PathFSM.isTerminalState w = true ->
      PathFSM.getValidTransitions w = [Idle; Computing])
  /\ PathFSM.isTerminalState w && PathFSM.isActiveState w = false
  /\ (PathFSM.isActiveState w = true ->
      PathFSM.canTransitionTo Failed w = true).
Proof.
  unfold PathFSM.canTransitionTo, PathFSM.isTerminalState,
    PathFSM.isActiveState, PathFSM.getValidTransitions.
  destruct (currentState w); simpl; repeat split;
    intros; try reflexivity; discriminate.
Qed.

(** ** Facts about the follow loop *)

(** The tick that finds the humanoid close enough, on the connection the
    controller holds while it is following. *)
Lemma tick_arrival (i : Instance) (c : nat) (t : Tick) (p : Vector3)
    (w : World) :
  currentState w = Following ->
  followConnection w = Some c ->
  find (fun t => tick_id t =? c) (heartbeat w) = Some t ->
  (Magnitude (sub p (position (tick_waypoint t))) <= tick_reachedDistance t)%R ->
  Path.tick (eventsOf i) c (Some p) w
  = Path.followNextWaypoint (eventsOf i) (tick_humanoid t)
      (tick_reachedDistance t)
      (set_currentWaypointIndex (S (currentWaypointIndex w))
         (emits (fired (with_onWaypointReached (callbacksOf i))
                   (WaypointReached (tick_waypoint t)
                      (currentWaypointIndex w)))
            (set_followConnection None (Path.Disconnect c w)))).
Proof.
  intros S C F D. unfold Path.tick. rewrite F.
  rewrite onHeartbeat_reached by exact D. cbv zeta.
  rewrite triggerWaypointReached_eventsOf.
  unfold Path.cleanupConnections. rewrite C.
  assert (forall x y, Path.getState
            (set_currentWaypointIndex x
               (emits y (set_followConnection None (Path.Disconnect c w))))
          = Following) as G by (intros; exact S).
  rewrite G. reflexivity.
Qed.

Lemma followNextWaypoint_completes (i : Instance) (h : Humanoid) (d : R)
    (w : World) :
  currentState w = Following ->
  followConnection w = None ->
  List.length (currentWaypoints w) <= currentWaypointIndex w ->
  let w' := Path.followNextWaypoint (eventsOf i) h d w in
  currentState w' = Completed
  /\ followConnection w' = None
  /\ heartbeat w' = heartbeat w
  /\ currentWaypointIndex w' = currentWaypointIndex w
  /\ trace w'
     = trace w
       ++ fired (with_onStateChanged (callbacksOf i))
            (StateChanged Following Completed)
       ++ fired (with_onPathCompleted (callbacksOf i)) PathCompleted.
Proof.
  intros S N L. cbv zeta.
  pose proof (followNextWaypoint_index i h d w) as I.
  destruct (triggerPathCompleted_effect i w) as [HS HT].
  destruct (sameConn_triggerPathCompleted i w) as (A & B & _).
  rewrite S in HS, HT. simpl in HS. unfold transitionTrace in HT.
  simpl in HT.
  assert (Path.followNextWaypoint (eventsOf i) h d w
          = PathFSM.triggerPathCompleted (eventsOf i) w) as E.
  { unfold Path.followNextWaypoint. apply Nat.leb_le in L. rewrite L.
    unfold Path.cleanupConnections. rewrite A, N. reflexivity. }
  rewrite E in *.
  split; [exact HS | split; [congruence | split; [exact B | split]]];
    assumption.
Qed.

Lemma find_fresh (l : list Tick) (x : Tick) :
  Forall (fun t => tick_id t < tick_id x) l ->
  find (fun t => tick_id t =? tick_id x) (l ++ [x]) = Some x.
Proof.
  induction l as [ | y l IH]; intros F.
  - simpl. now rewrite Nat.eqb_refl.
  - inversion F as [ | ? ? Hy Hl]; subst. simpl.
    destruct (tick_id y =? tick_id x) eqn:E;
      [apply Nat.eqb_eq in E; lia | now apply IH].
Qed.

(** One arrival: the index advances by one, and the controller either
    follows the next waypoint or, past the last, completes. *)
Lemma arrive_step (i : Instance) (h : Humanoid) (d : R) (w : World) :
  (0 <= d)%R -> followingAt h d w ->
  let k := currentWaypointIndex w in
  let w' := arrive i w in
  currentWaypoints w' = currentWaypoints w
  /\ currentWaypointIndex w' = S k
  /\ match nth_error (currentWaypoints w) k,
           nth_error (currentWaypoints w) (S k) with
     | Some wp, Some next =>
         followingAt h d w'
         /\ trace w'
            = trace w
              ++ fired (with_onWaypointReached (callbacksOf i))
                   (WaypointReached wp k)
              ++ driveTrace h next
     | Some wp, None =>
         currentState w' = Completed
         /\ followConnection w' = None
         /\ trace w'
            = trace w
              ++ fired (with_onWaypointReached (callbacksOf i))
                   (WaypointReached wp k)
              ++ fired (with_onStateChanged (callbacksOf i))
                   (StateChanged Following Completed)
              ++ fired (with_onPathCompleted (callbacksOf i)) PathCompleted
     | None, _ => False
     end.
Proof.
  intros Hd (HF & F & c & wp & C & N & Fd). cbv zeta.
  assert (arrive i w
          = Path.tick (eventsOf i) c (Some (position wp)) w) as EA.
  { unfold arrive. rewrite C, Fd. reflexivity. }
  rewrite EA.
  assert (Magnitude (sub (position wp) (position wp)) <= d)%R as D0.
  { rewrite Magnitude_sub, euclid_same. exact Hd. }
  rewrite (tick_arrival i c (mkTick c h wp d) (position wp) w HF C Fd D0).
  cbn [tick_humanoid tick_reachedDistance tick_waypoint].
  set (w1 := set_currentWaypointIndex _ _).
  assert (currentState w1 = Following) as S1 by exact HF.
  assert (followConnection w1 = None) as C1 by reflexivity.
  assert (currentWaypoints w1 = currentWaypoints w) as W1 by reflexivity.
  assert (currentWaypointIndex w1 = S (currentWaypointIndex w)) as I1
    by reflexivity.
  assert (trace w1
          = trace w
            ++ fired (with_onWaypointReached (callbacksOf i))
                 (WaypointReached wp (currentWaypointIndex w))) as T1
    by reflexivity.
  assert (nextConnection w1 = nextConnection w) as N1 by reflexivity.
  assert (heartbeat w1
          = filter (fun t => negb (tick_id t =? c)) (heartbeat w)) as H1
    by reflexivity.
  assert (freshIds w1) as F1.
  { destruct F as [FA FB]. split; [ | rewrite C1; discriminate].
    rewrite H1, N1. apply Forall_forall. intros t Ht.
    apply filter_In in Ht. rewrite Forall_forall in FA. apply FA. tauto. }
  destruct (sameBase_followNextWaypoint i h d w1) as [SB _].
  unfold search in SB. injection SB as _ _ SW.
  split; [congruence | ].
  split; [rewrite followNextWaypoint_index; exact I1 | ].
  rewrite N.
  destruct (nth_error (currentWaypoints w) (S (currentWaypointIndex w)))
    as [next | ] eqn:EN.
  - assert (nth_error (currentWaypoints w1) (currentWaypointIndex w1)
            = Some next) as N1' by (rewrite W1, I1; exact EN).
    destruct (followNextWaypoint_drives (eventsOf i) h d w1 next N1')
      as (DS & DC & DH & DT).
    split.
    + split; [congruence | split].
      * apply (tidy_followNextWaypoint i h d w1 S1 F1).
      * exists (nextConnection w1), next.
        split; [exact DC | split].
        -- rewrite SW, followNextWaypoint_index. exact EN.
        -- rewrite DH.
           apply (find_fresh (heartbeat w1)
                    (mkTick (nextConnection w1) h next d)).
           destruct F1 as [FA _]. exact FA.
    + rewrite DT, T1, <- app_assoc. reflexivity.
  - apply nth_error_None in EN.
    assert (List.length (currentWaypoints w1) <= currentWaypointIndex w1)
      as L1 by (rewrite W1, I1; lia).
    destruct (followNextWaypoint_completes i h d w1 S1 C1 L1)
      as (ES & EC & _ & _ & ET).
    split; [exact ES | split; [exact EC | ]].
    rewrite ET, T1, <- app_assoc. reflexivity.
Qed.

Lemma skipn_cons_nth {A : Type} (l : list A) (k : nat) (x : A)
    (rest : list A) :
  skipn k l = x :: rest -> nth_error l k = Some x /\ skipn (S k) l = rest.
Proof.
  revert k. induction l as [ | y l IH]; intros k H.
  - destruct k; discriminate.
  - destruct k as [ | k].
    + simpl in H. injection H as -> ->. split; reflexivity.
    + simpl in H. destruct (IH k H) as [P Q]. split; assumption.
Qed.

(** [startFollowing], accepted and with a waypoint at the current index,
    starts following that waypoint. *)
Lemma startFollowing_follows (i : Instance) (h : Humanoid) (d : option R)
    (w : World) (wp : Waypoint) :
  PathFSM.canTransitionTo Following w = true ->
  freshIds w ->
  nth_error (currentWaypoints w) (currentWaypointIndex w) = Some wp ->
  let w' := Path.startFollowing (eventsOf i) h d w in
  followingAt h (Path.defaultReachedDistance d) w'
  /\ currentWaypoints w' = currentWaypoints w
  /\ currentWaypointIndex w' = currentWaypointIndex w
  /\ trace w'
     = trace w
       ++ fired (with_onStateChanged (callbacksOf i))
            (StateChanged (currentState w) Following)
       ++ driveTrace h wp.
Proof.
  intros A F N. cbv zeta. unfold Path.startFollowing.
  destruct (currentWaypoints w) as [ | w0 l] eqn:EW.
  { destruct (currentWaypointIndex w); discriminate. }
  change (List.length (w0 :: l) =? 0) with false. cbv iota.
  rewrite transitionTo_eventsOf, A. cbv iota. cbn [negb].
  set (w1 := Path.cleanupConnections _).
  assert (currentState w1 = Following) as S1.
  { unfold w1. match goal with |- currentState (Path.cleanupConnections ?x) = _
      => destruct (cleanupConnections_keeps x) as (_ & -> & _) end.
    reflexivity. }
  assert (freshIds w1) as F1.
  { unfold w1. apply cleanupConnections_fresh.
    apply (freshIds_sameConn w); [repeat split | exact F]. }
  assert (sameBase w w1) as B1.
  { unfold w1. eapply sameBase_trans;
      [ | apply sameBase_cleanupConnections]. split; reflexivity. }
  destruct B1 as [B1 _]. unfold search in B1. injection B1 as _ _ W1.
  assert (currentWaypointIndex w1 = currentWaypointIndex w) as I1.
  { unfold w1. match goal with
      |- currentWaypointIndex (Path.cleanupConnections ?x) = _
      => destruct (cleanupConnections_keeps x) as (-> & _) end.
    reflexivity. }
  assert (trace w1
          = trace w
            ++ fired (with_onStateChanged (callbacksOf i))
                 (StateChanged (currentState w) Following)) as T1.
  { unfold w1. match goal with |- trace (Path.cleanupConnections ?x) = _
      => destruct (cleanupConnections_keeps x) as (_ & _ & -> & _) end.
    reflexivity. }
  assert (nth_error (currentWaypoints w1) (currentWaypointIndex w1)
          = Some wp) as N1 by (rewrite W1, I1, EW; exact N).
  destruct (followNextWaypoint_drives (eventsOf i) h
              (Path.defaultReachedDistance d) w1 wp N1)
    as (DS & DC & DH & DT).
  destruct (sameBase_followNextWaypoint i h (Path.defaultReachedDistance d)
              w1) as [SB _].
  unfold search in SB. injection SB as _ _ SW.
  split; [ | split; [ | split]].
  - split; [congruence | split].
    + apply (tidy_followNextWaypoint i h _ w1 S1 F1).
    + exists (nextConnection w1), wp. split; [exact DC | split].
      * rewrite SW, followNextWaypoint_index. exact N1.
      * rewrite DH.
        apply (find_fresh (heartbeat w1)
                 (mkTick (nextConnection w1) h wp
                    (Path.defaultReachedDistance d))).
        destruct F1 as [FA _]. exact FA.
  - rewrite SW, W1, EW. reflexivity.
  - rewrite followNextWaypoint_index. exact I1.
  - rewrite DT, T1, <- app_assoc. reflexivity.
Qed.

(** As many arrivals as waypoints are left complete the path. *)
Lemma arrivals_complete (i : Instance) (h : Humanoid) (d : R)
    (l : list Waypoint) (w : World) :
  (0 <= d)%R -> followingAt h d w ->
  skipn (currentWaypointIndex w) (currentWaypoints w) = l ->
  let w' := Nat.iter (List.length l) (arrive i) w in
  currentState w' = Completed
  /\ followConnection w' = None
  /\ currentWaypoints w' = currentWaypoints w
  /\ currentWaypointIndex w' = currentWaypointIndex w + List.length l
  /\ trace w' = trace w ++ arrivalsTrace i h (currentWaypointIndex w) l.
Proof.
  intros Hd. revert w. induction l as [ | wp rest IH]; intros w FA SK.
  - exfalso. destruct FA as (_ & _ & c & wp & _ & N & _).
    assert (currentWaypointIndex w < List.length (currentWaypoints w)) as L
      by (apply nth_error_Some; congruence).
    apply (f_equal (@List.length _)) in SK. rewrite length_skipn in SK.
    simpl in SK. lia.
  - cbv zeta. cbn [List.length]. rewrite Nat.iter_succ_r.
    destruct (skipn_cons_nth _ _ _ _ SK) as [N SK'].
    pose proof (arrive_step i h d w Hd FA) as (EW & EI & ST).
    cbv zeta in EW, EI, ST. rewrite N in ST.
    destruct rest as [ | next rest'].
    + assert (nth_error (currentWaypoints w) (S (currentWaypointIndex w))
              = None) as NN.
      { apply nth_error_None.
        apply (f_equal (@List.length _)) in SK'. rewrite length_skipn in SK'.
        simpl in SK'. lia. }
      rewrite NN in ST. destruct ST as (ES & EC & ET).
      change (Nat.iter (List.length (@nil Waypoint)) (arrive i) (arrive i w))
        with (arrive i w).
      split; [exact ES | split; [exact EC | split; [exact EW | split]]].
      * rewrite EI. cbn [List.length]. lia.
      * exact ET.
    + destruct (skipn_cons_nth _ _ _ _ SK') as [N' _].
      rewrite N' in ST. destruct ST as (FA' & ET).
      assert (skipn (currentWaypointIndex (arrive i w))
                (currentWaypoints (arrive i w)) = next :: rest') as SK2
        by (rewrite EW, EI; exact SK').
      destruct (IH (arrive i w) FA' SK2) as (RS & RC & RW & RI & RT).
      cbv zeta in RS, RC, RW, RI, RT.
      split; [exact RS | split; [exact RC | split; [congruence | split]]].
      * rewrite RI, EI. cbn [List.length]. lia.
      * rewrite RT, ET, EI, <- !app_assoc. reflexivity.
Qed.

(** X17. Following runs to completion.  When [startFollowing] is accepted
    with waypoints left from the current index and a threshold that is not
    negative, then as many arrivals as waypoints are left (each a tick that
    finds the humanoid at the waypoint being followed) bring the controller
    to [Completed] with the index at the end of the unchanged cache and no
    follow connection; the trace shows the humanoid sent to each waypoint in
    turn, each arrival reported with its waypoint and index, and the path
    completed once, last. *)
Theorem following_to_completion (i : Instance) (h : Humanoid)
    (d : option R) (w : World) (wp : Waypoint) (rest : list Waypoint) :
  (0 <= Path.defaultReachedDistance d)%R ->
  PathFSM.canTransitionTo Following w = true ->
  freshIds w ->
  skipn (currentWaypointIndex w) (currentWaypoints w) = wp :: rest ->
  let w1 := Path.startFollowing (eventsOf i) h d w in
  let wn := Nat.iter (S (List.length rest)) (arrive i) w1 in
  currentState wn = Completed
  /\ followConnection wn = None
  /\ currentWaypoints wn = currentWaypoints w
  /\ currentWaypointIndex wn = List.length (currentWaypoints w)
  /\ trace wn
     = trace w
       ++ fired (with_onStateChanged (callbacksOf i))
            (StateChanged (currentState w) Following)
       ++ driveTrace h wp
       ++ arrivalsTrace i h (currentWaypointIndex w) (wp :: rest).
Proof.
  intros Hd A F SK. cbv zeta.
  destruct (skipn_cons_nth _ _ _ _ SK) as [N _].
  destruct (startFollowing_follows i h d w wp A F N) as (FA & EW & EI & ET).
  cbv zeta in FA, EW, EI, ET.
  assert (skipn (currentWaypointIndex (Path.startFollowing (eventsOf i) h d w))
            (currentWaypoints (Path.startFollowing (eventsOf i) h d w))
          = wp :: rest) as SK1 by (rewrite EW, EI; exact SK).
  destruct (arrivals_complete i h (Path.defaultReachedDistance d) (wp :: rest)
              (Path.startFollowing (eventsOf i) h d w) Hd FA SK1)
    as (RS & RC & RW & RI & RT).
  cbv zeta in RS, RC, RW, RI, RT. cbn [List.length] in RS, RC, RW, RI, RT.
  split; [exact RS | split; [exact RC | split; [congruence | split]]].
  - rewrite RI, EI.
    apply (f_equal (@List.length _)) in SK. rewrite length_skipn in SK.
    cbn [List.length] in SK.
    assert (currentWaypointIndex w < List.length (currentWaypoints w))
      by (apply nth_error_Some; congruence).
    lia.
  - rewrite RT, ET, EI, <- !app_assoc. reflexivity.
Qed.

(** A use of X17: [route], computed on a new path,
    is followed to its end in three arrivals. *)
Lemma following_to_completion_witness :
  let i := APath allCallbacks in
  let w := snd (Path.computeAsync (eventsOf i) startPoint finishPoint
                  (Success, route) (Path.construct NoPath)) in
  let wn := Nat.iter 3 (arrive i)
              (Path.startFollowing (eventsOf i) 1 None w) in
  currentState wn = Completed
  /\ followConnection wn = None
  /\ currentWaypointIndex wn = 3.
Proof.
  cbv zeta.
  set (w := snd (Path.computeAsync (eventsOf (APath allCallbacks)) startPoint
                   finishPoint (Success, route) (Path.construct NoPath))).
  assert (0 <= Path.defaultReachedDistance None)%R as Hd
    by (unfold Path.defaultReachedDistance; lra).
  assert (PathFSM.canTransitionTo Following w = true) as A by reflexivity.
  assert (freshIds w) as F
    by (split; [constructor | vm_compute; discriminate]).
  assert (skipn (currentWaypointIndex w) (currentWaypoints w)
          = mkWaypoint (mkVector3 0 0 0) Walk
            :: [mkWaypoint (mkVector3 3 0 0) Walk;
                mkWaypoint (mkVector3 3 4 0) Jump]) as SK by reflexivity.
  pose proof (following_to_completion (APath allCallbacks) 1 None w _ _
                Hd A F SK) as (H1 & H2 & _ & H4 & _).
  split; [exact H1 | split; [exact H2 | exact H4]].
Defined.

(** ** Facts about pause, resume and the blocked signal *)

Lemma allowed_Paused (S : PathState) :
  allowed S Paused = true <-> S = Following.
Proof.
  destruct S; simpl; split; intro H; try discriminate; reflexivity.
Qed.

(** X18. [pause] is accepted exactly in [Following].  It never changes the
    waypoint index or the cache.  When accepted the controller is in
    [Paused], holds no follow connection, and the connection it held is off
    the tick signal; otherwise the store only gains the warning of the
    rejected transition. *)
Theorem pause_only_when_following (i : Instance) (w : World) :
  let w' := Path.pause (eventsOf i) w in
  (PathFSM.canTransitionTo Paused w = true <-> currentState w = Following)
  /\ currentWaypointIndex w' = currentWaypointIndex w
  /\ currentWaypoints w' = currentWaypoints w
  /\ (if PathFSM.canTransitionTo Paused w
      then currentState w' = Paused
           /\ followConnection w' = None
           /\ heartbeat w'
              = match followConnection w with
                | Some c =>
                    filter (fun t => negb (tick_id t =? c)) (heartbeat w)
                | None => heartbeat w
                end
           /\ trace w'
              = trace w
                ++ fired (with_onStateChanged (callbacksOf i))
                     (StateChanged (currentState w) Paused)
      else w' = warn (invalidTransition (currentState w) Paused) w).
Proof.
  cbv zeta. split.
  { rewrite canTransitionTo_allowed. apply allowed_Paused. }
  unfold Path.pause. rewrite transitionTo_eventsOf.
  destruct (PathFSM.canTransitionTo Paused w).
  - set (w1 := set_trace _ _).
    assert (followConnection w1 = followConnection w) as E by reflexivity.
    unfold Path.cleanupConnections. rewrite E.
    destruct (followConnection w) eqn:C; repeat split.
    exact E.
  - repeat split.
Qed.

Lemma resume_follows (i : Instance) (h : Humanoid) (d : option R)
    (w : World) (wp : Waypoint) :
  PathFSM.canTransitionTo Following w = true ->
  freshIds w ->
  nth_error (currentWaypoints w) (currentWaypointIndex w) = Some wp ->
  let w' := Path.resume (eventsOf i) h d w in
  followingAt h (Path.defaultReachedDistance d) w'
  /\ followConnection w' = Some (nextConnection w)
  /\ heartbeat w'
     = heartbeat w
       ++ [mkTick (nextConnection w) h wp (Path.defaultReachedDistance d)]
  /\ currentWaypoints w' = currentWaypoints w
  /\ currentWaypointIndex w' = currentWaypointIndex w
  /\ trace w'
     = trace w
       ++ fired (with_onStateChanged (callbacksOf i))
            (StateChanged (currentState w) Following)
       ++ driveTrace h wp.
Proof.
  intros A F N. cbv zeta. unfold Path.resume.
  rewrite transitionTo_eventsOf, A.
  set (w1 := set_trace _ _).
  assert (currentState w1 = Following) as S1 by reflexivity.
  assert (freshIds w1) as F1
    by (apply (freshIds_sameConn w); [repeat split | exact F]).
  assert (nth_error (currentWaypoints w1) (currentWaypointIndex w1)
          = Some wp) as N1 by exact N.
  destruct (followNextWaypoint_drives (eventsOf i) h
              (Path.defaultReachedDistance d) w1 wp N1)
    as (DS & DC & DH & DT).
  destruct (sameBase_followNextWaypoint i h (Path.defaultReachedDistance d)
              w1) as [SB _].
  unfold search in SB. injection SB as _ _ SW.
  split; [ | split; [exact DC | split; [exact DH | split; [ | split]]]].
  - split; [congruence | split].
    + apply (tidy_followNextWaypoint i h _ w1 S1 F1).
    + exists (nextConnection w1), wp. split; [exact DC | split].
      * rewrite SW, followNextWaypoint_index. exact N1.
      * rewrite DH.
        apply (find_fresh (heartbeat w1)
                 (mkTick (nextConnection w1) h wp
                    (Path.defaultReachedDistance d))).
        destruct F1 as [FA _]. exact FA.
  - exact SW.
  - rewrite followNextWaypoint_index. reflexivity.
  - rewrite DT. unfold w1. cbn [trace set_trace].
    rewrite <- app_assoc. reflexivity.
Qed.

Lemma find_filtered_out (l : list Tick) (c : nat) :
  find (fun t => tick_id t =? c)
    (filter (fun t => negb (tick_id t =? c)) l) = None.
Proof.
  induction l as [ | y l IH]; [reflexivity | ].
  simpl. destruct (tick_id y =? c) eqn:E; simpl; [exact IH | ].
  now rewrite E.
Qed.

Lemma find_app_none (l : list Tick) (x : Tick) (c : nat) :
  find (fun t => tick_id t =? c) l = None -> tick_id x <> c ->
  find (fun t => tick_id t =? c) (l ++ [x]) = None.
Proof.
  intros H N. induction l as [ | y l IH].
  - simpl. apply Nat.eqb_neq in N. now rewrite N.
  - simpl in *. destruct (tick_id y =? c); [discriminate | now apply IH].
Qed.

(** X19. Pausing and resuming while following comes back to the same
    waypoint.  The controller is in [Following] again with index and cache
    unchanged; the connection it held is gone from the tick signal and a new
    one, for the same humanoid and waypoint, has taken its place; the trace
    shows the two state changes and the humanoid sent to that waypoint
    again. *)
Theorem pause_resume_round_trip (i : Instance) (h : Humanoid) (d : R)
    (w : World) (c : nat) (wp : Waypoint) :
  followingAt h d w ->
  followConnection w = Some c ->
  nth_error (currentWaypoints w) (currentWaypointIndex w) = Some wp ->
  let w' := Path.resume (eventsOf i) h (Some d) (Path.pause (eventsOf i) w) in
  followingAt h d w'
  /\ currentWaypointIndex w' = currentWaypointIndex w
  /\ currentWaypoints w' = currentWaypoints w
  /\ followConnection w' = Some (nextConnection w)
  /\ find (fun t => tick_id t =? c) (heartbeat w') = None
  /\ find (fun t => tick_id t =? nextConnection w) (heartbeat w')
     = Some (mkTick (nextConnection w) h wp d)
  /\ trace w'
     = trace w
       ++ fired (with_onStateChanged (callbacksOf i))
            (StateChanged Following Paused)
       ++ fired (with_onStateChanged (callbacksOf i))
            (StateChanged Paused Following)
       ++ driveTrace h wp.
Proof.
  intros (HF & F & _) C N. cbv zeta.
  set (w1 := Path.pause (eventsOf i) w).
  assert (w1 = set_followConnection None
                 (Path.Disconnect c
                    (set_trace
                       (trace w
                        ++ fired (with_onStateChanged (callbacksOf i))
                             (StateChanged Following Paused))
                       (set_currentState Paused w)))) as E1.
  { unfold w1, Path.pause. rewrite transitionTo_eventsOf.
    rewrite canTransitionTo_allowed, HF.
    change (allowed Following Paused) with true. cbv iota.
    unfold Path.cleanupConnections. cbn [followConnection set_trace
      set_currentState]. rewrite C. reflexivity. }
  assert (currentState w1 = Paused) as S1 by (rewrite E1; reflexivity).
  assert (PathFSM.canTransitionTo Following w1 = true) as A1
    by (rewrite canTransitionTo_allowed, S1; reflexivity).
  assert (nextConnection w1 = nextConnection w) as N1
    by (rewrite E1; reflexivity).
  assert (heartbeat w1
          = filter (fun t => negb (tick_id t =? c)) (heartbeat w)) as H1
    by (rewrite E1; reflexivity).
  assert (freshIds w1) as F1.
  { destruct F as [FA FB]. split.
    - rewrite H1, N1. apply Forall_forall. intros t Ht.
      apply filter_In in Ht. rewrite Forall_forall in FA. apply FA. tauto.
    - rewrite E1. discriminate. }
  assert (nth_error (currentWaypoints w1) (currentWaypointIndex w1) = Some wp)
    as NW by (rewrite E1; exact N).
  destruct (resume_follows i h (Some d) w1 wp A1 F1 NW)
    as (RF & RC & RH & RW & RI & RT).
  cbv zeta in RF, RC, RH, RW, RI, RT.
  change (Path.defaultReachedDistance (Some d)) with d in RF, RH.
  assert (c < nextConnection w) as Lc by (destruct F as [_ FB]; now apply FB).
  split; [exact RF | split; [ | split; [ | split; [ | split; [ | split]]]]].
  - rewrite RI, E1. reflexivity.
  - rewrite RW, E1. reflexivity.
  - rewrite RC, N1. reflexivity.
  - rewrite RH, H1. apply find_app_none; [apply find_filtered_out | ].
    simpl. lia.
  - rewrite RH, N1.
    apply (find_fresh (heartbeat w1) (mkTick (nextConnection w) h wp d)).
    destruct F1 as [FA _]. rewrite N1 in FA. exact FA.
  - rewrite RT, S1, E1. cbn [trace set_followConnection Path.Disconnect
      set_heartbeat set_trace]. rewrite <- app_assoc. reflexivity.
Qed.

(** A use of X19: [route] is being followed, at its
    first waypoint. *)
Lemma pause_resume_round_trip_witness :
  let i := APath allCallbacks in
  let w := Path.startFollowing (eventsOf i) 1 None
             (snd (Path.computeAsync (eventsOf i) startPoint finishPoint
                     (Success, route) (Path.construct NoPath))) in
  let w' := Path.resume (eventsOf i) 1 (Some 5%R)
              (Path.pause (eventsOf i) w) in
  followingAt 1 5 w'
  /\ currentWaypointIndex w' = 0
  /\ followConnection w' = Some 1.
Proof.
  cbv zeta.
  set (w0 := snd (Path.computeAsync (eventsOf (APath allCallbacks)) startPoint
                    finishPoint (Success, route) (Path.construct NoPath))).
  assert (PathFSM.canTransitionTo Following w0 = true) as A by reflexivity.
  assert (freshIds w0) as F0
    by (split; [constructor | vm_compute; discriminate]).
  assert (nth_error (currentWaypoints w0) (currentWaypointIndex w0)
          = Some (mkWaypoint (mkVector3 0 0 0) Walk)) as N0 by reflexivity.
  destruct (startFollowing_follows (APath allCallbacks) 1 None w0 _ A F0 N0)
    as (FA & _).
  cbv zeta in FA.
  change (Path.defaultReachedDistance None) with 5%R in FA.
  set (w := Path.startFollowing (eventsOf (APath allCallbacks)) 1 None w0)
    in *.
  assert (followConnection w = Some 0) as C by (vm_compute; reflexivity).
  assert (nth_error (currentWaypoints w) (currentWaypointIndex w)
          = Some (mkWaypoint (mkVector3 0 0 0) Walk)) as N
    by (vm_compute; reflexivity).
  assert (currentWaypointIndex w = 0) as I0 by (vm_compute; reflexivity).
  assert (nextConnection w = 1) as N1 by (vm_compute; reflexivity).
  pose proof (pause_resume_round_trip (APath allCallbacks) 1 5 w 0 _ FA C N)
    as (H1 & H2 & _ & H4 & _).
  split; [exact H1 | split; [congruence | congruence]].
Defined.

Lemma find_app_some (l : list Tick) (x t : Tick) (c : nat) :
  find (fun t => tick_id t =? c) l = Some t ->
  find (fun t => tick_id t =? c) (l ++ [x]) = Some t.
Proof.
  induction l as [ | y l IH]; [discriminate | ].
  simpl. destruct (tick_id y =? c); [trivial | exact IH].
Qed.

Lemma blockedSignal_following (i : Instance) (w : World) :
  currentState w = Following ->
  pathBlockedConnection w = true ->
  let wb := Path.blockedSignal (eventsOf i) w in
  currentState wb = Blocked
  /\ sameConn w wb
  /\ currentWaypoints wb = currentWaypoints w
  /\ currentWaypointIndex wb = currentWaypointIndex w
  /\ trace wb
     = trace w
       ++ fired (with_onStateChanged (callbacksOf i))
            (StateChanged Following Blocked)
       ++ fired (with_onPathBlocked (callbacksOf i)) PathBlocked.
Proof.
  intros HF HB. cbv zeta. unfold Path.blockedSignal. rewrite HB.
  unfold Path.onBlocked.
  change (Path.getState w) with (currentState w). rewrite HF.
  change (PathState_eqb Following Following) with true. cbv iota.
  destruct (triggerPathBlocked_effect i w) as [ES ET].
  rewrite HF in ES, ET.
  split; [exact ES | split; [apply sameConn_triggerPathBlocked | ]].
  rewrite triggerPathBlocked_eventsOf.
  match goal with |- context [afterBlocked i ?x] =>
    pose proof (retry_only_frame _ _ (afterBlocked_retry_only i x))
      as (_ & _ & RW & RI & _)
  end.
  rewrite RW, RI.
  destruct (transitionTo_keeps i Blocked w) as (KW & KI & _).
  cbv zeta in KW, KI.
  split; [exact KW | split; [exact KI | ]].
  rewrite <- triggerPathBlocked_eventsOf. exact ET.
Qed.

Lemma tick_arrival_elsewhere (i : Instance) (c : nat) (t : Tick)
    (p : Vector3) (w : World) :
  currentState w <> Following ->
  followConnection w = Some c ->
  find (fun t => tick_id t =? c) (heartbeat w) = Some t ->
  (Magnitude (sub p (position (tick_waypoint t))) <= tick_reachedDistance t)%R ->
  Path.tick (eventsOf i) c (Some p) w
  = set_currentWaypointIndex (S (currentWaypointIndex w))
      (emits (fired (with_onWaypointReached (callbacksOf i))
                (WaypointReached (tick_waypoint t)
                   (currentWaypointIndex w)))
         (set_followConnection None (Path.Disconnect c w))).
Proof.
  intros HS C F D. unfold Path.tick. rewrite F.
  rewrite onHeartbeat_reached by exact D. cbv zeta.
  rewrite triggerWaypointReached_eventsOf.
  unfold Path.cleanupConnections. rewrite C.
  assert (forall x y, Path.getState
            (set_currentWaypointIndex x
               (emits y (set_followConnection None (Path.Disconnect c w))))
          = currentState w) as G by (intros; reflexivity).
  rewrite G.
  destruct (PathState_eqb (currentState w) Following) eqn:E;
    [apply PathState_eqb_eq in E; contradiction | reflexivity].
Qed.

(** X20. The blocked signal does not disconnect the tick handler.  When it
    arrives while a waypoint is being followed, the controller goes to
    [Blocked] but keeps its follow connection; the arrival at that waypoint
    is then still reported and the index still advances, after which the
    controller holds no connection, stays in [Blocked] and the humanoid is
    not sent on. *)
Theorem blocked_arrival_still_counts (i : Instance) (h : Humanoid) (d : R)
    (w : World) (c : nat) (wp : Waypoint) :
  (0 <= d)%R ->
  followingAt h d w ->
  followConnection w = Some c ->
  nth_error (currentWaypoints w) (currentWaypointIndex w) = Some wp ->
  pathBlockedConnection w = true ->
  let wb := Path.blockedSignal (eventsOf i) w in
  let wa := arrive i wb in
  (currentState wb = Blocked
   /\ followConnection wb = Some c
   /\ heartbeat wb = heartbeat w
   /\ trace wb
      = trace w
        ++ fired (with_onStateChanged (callbacksOf i))
             (StateChanged Following Blocked)
        ++ fired (with_onPathBlocked (callbacksOf i)) PathBlocked)
  /\ currentState wa = Blocked
  /\ followConnection wa = None
  /\ heartbeat wa = filter (fun t => negb (tick_id t =? c)) (heartbeat w)
  /\ currentWaypointIndex wa = S (currentWaypointIndex w)
  /\ trace wa
     = trace wb
       ++ fired (with_onWaypointReached (callbacksOf i))
            (WaypointReached wp (currentWaypointIndex w)).
Proof.
  intros Hd (HF & F & c' & wp' & C' & N' & Fd) C N HB. cbv zeta.
  rewrite C in C'. injection C' as <-.
  rewrite N in N'. injection N' as <-.
  destruct (blockedSignal_following i w HF HB)
    as (BS & (BC & BH & BN) & BW & BI & BT).
  cbv zeta in BS, BC, BH, BN, BW, BI, BT.
  set (wb := Path.blockedSignal (eventsOf i) w) in *.
  split.
  { split; [exact BS | split; [congruence | split; [exact BH | exact BT]]]. }
  assert (followConnection wb = Some c) as Cb by congruence.
  assert (find (fun t => tick_id t =? c) (heartbeat wb)
          = Some (mkTick c h wp d)) as Fb by (rewrite BH; exact Fd).
  assert (arrive i wb
          = Path.tick (eventsOf i) c (Some (position wp)) wb) as EA.
  { unfold arrive. rewrite Cb, Fb. reflexivity. }
  rewrite EA.
  assert (Magnitude (sub (position wp) (position wp)) <= d)%R as D0.
  { rewrite Magnitude_sub, euclid_same. exact Hd. }
  assert (currentState wb <> Following) as NF by (rewrite BS; discriminate).
  rewrite (tick_arrival_elsewhere i c (mkTick c h wp d) (position wp) wb
             NF Cb Fb D0).
  cbn [tick_waypoint].
  split; [exact BS | split; [reflexivity | split; [ | split]]].
  - cbn [heartbeat set_currentWaypointIndex emits set_trace
      set_followConnection Path.Disconnect set_heartbeat].
    rewrite BH. reflexivity.
  - cbn [currentWaypointIndex set_currentWaypointIndex]. now rewrite BI.
  - rewrite BI. reflexivity.
Qed.

(** X21. [resume] from [Blocked] adds a second tick handler.  After the
    blocked signal the old connection is still live; [resume] is accepted
    from [Blocked] and connects a new handler for the same waypoint without
    disconnecting the old one, so two handlers for that waypoint are then
    on the tick signal and the controller only holds the new one. *)
Theorem resume_from_blocked_second_handler (i : Instance) (h : Humanoid)
    (d : R) (w : World) (c : nat) (wp : Waypoint) :
  followingAt h d w ->
  followConnection w = Some c ->
  nth_error (currentWaypoints w) (currentWaypointIndex w) = Some wp ->
  pathBlockedConnection w = true ->
  let wr := Path.resume (eventsOf i) h (Some d)
              (Path.blockedSignal (eventsOf i) w) in
  followingAt h d wr
  /\ currentWaypointIndex wr = currentWaypointIndex w
  /\ followConnection wr = Some (nextConnection w)
  /\ c <> nextConnection w
  /\ find (fun t => tick_id t =? c) (heartbeat wr) = Some (mkTick c h wp d)
  /\ find (fun t => tick_id t =? nextConnection w) (heartbeat wr)
     = Some (mkTick (nextConnection w) h wp d)
  /\ heartbeat wr = heartbeat w ++ [mkTick (nextConnection w) h wp d].
Proof.
  intros (HF & F & c' & wp' & C' & N' & Fd) C N HB. cbv zeta.
  rewrite C in C'. injection C' as <-.
  rewrite N in N'. injection N' as <-.
  destruct (blockedSignal_following i w HF HB)
    as (BS & BC & BW & BI & BT).
  cbv zeta in BS, BC, BW, BI, BT.
  set (wb := Path.blockedSignal (eventsOf i) w) in *.
  assert (freshIds wb) as Fb by (apply (freshIds_sameConn w); assumption).
  destruct BC as (BC & BH & BN).
  assert (PathFSM.canTransitionTo Following wb = true) as A
    by (rewrite canTransitionTo_allowed, BS; reflexivity).
  assert (nth_error (currentWaypoints wb) (currentWaypointIndex wb)
          = Some wp) as Nb by (rewrite BW, BI; exact N).
  destruct (resume_follows i h (Some d) wb wp A Fb Nb)
    as (RF & RC & RH & RW & RI & RT).
  cbv zeta in RF, RC, RH, RW, RI, RT.
  change (Path.defaultReachedDistance (Some d)) with d in RF, RH.
  rewrite BN in RC, RH. rewrite BH in RH.
  assert (c < nextConnection w) as Lc by (destruct F as [_ FB]; now apply FB).
  split; [exact RF | split; [congruence | split; [exact RC | ]]].
  split; [lia | split; [ | split; [ | exact RH]]].
  - rewrite RH. apply find_app_some. exact Fd.
  - rewrite RH.
    apply (find_fresh (heartbeat w) (mkTick (nextConnection w) h wp d)).
    destruct F as [FA _]. exact FA.
Qed.

(** The controller following [route] is at its first waypoint, on
    connection 0, with the blocked listener connected. *)
Lemma followingRoute_facts :
  let w := followingRoute (APath allCallbacks) in
  followingAt 1 5 w
  /\ followConnection w = Some 0
  /\ nth_error (currentWaypoints w) (currentWaypointIndex w)
     = Some (mkWaypoint (mkVector3 0 0 0) Walk)
  /\ pathBlockedConnection w = true
  /\ currentWaypointIndex w = 0
  /\ nextConnection w = 1.
Proof.
  cbv zeta. unfold followingRoute.
  set (w0 := snd (Path.computeAsync (eventsOf (APath allCallbacks)) startPoint
                    finishPoint (Success, route) (Path.construct NoPath))).
  assert (PathFSM.canTransitionTo Following w0 = true) as A by reflexivity.
  assert (freshIds w0) as F0
    by (split; [constructor | vm_compute; discriminate]).
  assert (nth_error (currentWaypoints w0) (currentWaypointIndex w0)
          = Some (mkWaypoint (mkVector3 0 0 0) Walk)) as N0 by reflexivity.
  destruct (startFollowing_follows (APath allCallbacks) 1 None w0 _ A F0 N0)
    as (FA & _).
  cbv zeta in FA.
  change (Path.defaultReachedDistance None) with 5%R in FA.
  split; [exact FA | ].
  repeat split; vm_compute; reflexivity.
Qed.

(** A use of X20: the blocked signal while
    [route] is followed, then the arrival at its first waypoint. *)
Lemma blocked_arrival_still_counts_witness :
  let i := APath allCallbacks in
  let wa := arrive i (Path.blockedSignal (eventsOf i) (followingRoute i)) in
  currentState wa = Blocked
  /\ followConnection wa = None
  /\ currentWaypointIndex wa = 1.
Proof.
  cbv zeta.
  destruct followingRoute_facts as (FA & C & N & HB & I0 & _).
  assert (0 <= 5)%R as Hd by lra.
  pose proof (blocked_arrival_still_counts (APath allCallbacks) 1 5 _ 0 _
                Hd FA C N HB) as (_ & H1 & H2 & _ & H4 & _).
  split; [exact H1 | split; [exact H2 | congruence]].
Defined.

(** A use of X21: the blocked signal while
    [route] is followed, then [resume]. *)
Lemma resume_from_blocked_second_handler_witness :
  let i := APath allCallbacks in
  let wr := Path.resume (eventsOf i) 1 (Some 5%R)
              (Path.blockedSignal (eventsOf i) (followingRoute i)) in
  followConnection wr = Some 1
  /\ find (fun t => tick_id t =? 0) (heartbeat wr)
     = Some (mkTick 0 1 (mkWaypoint (mkVector3 0 0 0) Walk) 5).
Proof.
  cbv zeta.
  destruct followingRoute_facts as (FA & C & N & HB & _ & N1).
  pose proof (resume_from_blocked_second_handler (APath allCallbacks) 1 5 _
                0 _ FA C N HB) as (_ & _ & H3 & _ & H5 & _).
  split; [congruence | exact H5].
Defined.

(** ** Facts about the recoveries of SmartPath *)

Lemma transitionTo_suspended (i : Instance) (T : PathState) (w : World) :
  suspended (snd (PathFSM.transitionTo (eventsOf i) T w)) = suspended w.
Proof.
  pose proof (transitionTo_frame i T w) as H.
  rewrite <- H at 2. reflexivity.
Qed.

Lemma first_retryWait (so : SmartPath.RequiredOptions) (w : World) :
  retryAttempts w = 1%Z ->
  (SmartPath.retryWait so w == SmartPath.retryDelay so)%Q.
Proof.
  intros E. unfold SmartPath.retryWait. rewrite E.
  destruct (SmartPath.useExponentialBackoff so); [ | reflexivity].
  change (2 ^ (1 - 1))%Q with 1%Q. apply Qmult_1_r.
Qed.

(** X22. A failed search on a [SmartPath] that uses the default retry
    predicate.  The call resolves with the reported status and leaves the
    controller in [Failed].  For [NoPath] and [ClosestOutOfRange], and when
    [maxRetries] is not positive, no recovery is started and the counter is
    0.  For every other failure exactly one recovery is suspended, for
    [retryDelay], and the counter is 1. *)
Theorem failed_search_default_recovery (c : Callbacks)
    (o : SmartPath.SmartPathOptions) (s f : Vector3) (status : PathStatus)
    (wps : list PathWaypoint) (w : World) :
  SmartPath.opt_shouldRetry o = None ->
  currentState w <> Computing ->
  status <> Success ->
  let so := SmartPath.normalizeSmartOptions o in
  let r := SmartPath.computeAsync (callerEvents c) o s f (status, wps) w in
  fst r = Path.Resolved status
  /\ currentState (snd r) = Failed
  /\ if PathStatus_eqb status NoPath
        || PathStatus_eqb status ClosestOutOfRange
        || (SmartPath.maxRetries so <=? 0)%Z
     then retryAttempts (snd r) = 0%Z /\ suspended (snd r) = suspended w
     else retryAttempts (snd r) = 1%Z
          /\ exists delay,
               suspended (snd r)
               = suspended w ++ [mkSuspended AfterFailure delay]
               /\ (delay == SmartPath.retryDelay so)%Q.
Proof.
  intros HN HC HS. cbv zeta. unfold SmartPath.computeAsync.
  change (SmartPath.enhancedEvents (callerEvents c)
            (SmartPath.normalizeSmartOptions o))
    with (eventsOf (ASmartPath c o)).
  rewrite computeAsync_eventsOf.
  set (w0 := set_retryAttempts 0%Z (set_lastEndpoints (Some s) (Some f) w)).
  assert (PathState_eqb (currentState w0) Computing = false) as E0.
  { destruct (PathState_eqb (currentState w0) Computing) eqn:E;
      [apply PathState_eqb_eq in E; contradiction | reflexivity]. }
  rewrite E0. cbn [fst snd].
  assert (PathStatus_eqb status Success = false) as ES.
  { destruct (PathStatus_eqb status Success) eqn:E;
      [apply PathStatus_eqb_eq in E; contradiction | reflexivity]. }
  rewrite ES.
  split; [reflexivity | ].
  pose proof (searched_state (ASmartPath c o) s f (status, wps) w0 E0) as SS.
  set (w1 := searched (ASmartPath c o) s f (status, wps) w0) in *.
  split.
  { destruct (triggerPathFailed_effect (ASmartPath c o) status w1) as [H _].
    rewrite H, SS. reflexivity. }
  rewrite triggerPathFailed_eventsOf.
  set (w2 := emits _ _).
  assert (retryAttempts w2 = 0%Z) as R2.
  { unfold w2, emits. cbn [retryAttempts set_trace].
    rewrite transitionTo_retryAttempts. unfold w1, searched.
    cbn [retryAttempts set_roblox emit set_trace].
    rewrite transitionTo_retryAttempts. reflexivity. }
  assert (suspended w2 = suspended w) as S2.
  { unfold w2, emits. cbn [suspended set_trace].
    rewrite transitionTo_suspended. unfold w1, searched.
    cbn [suspended set_roblox emit set_trace].
    rewrite transitionTo_suspended. reflexivity. }
  clearbody w2.
  cbn [afterFailed]. unfold SmartPath.handleFailure.
  unfold SmartPath.shouldAttemptRetry. rewrite R2.
  assert (SmartPath.shouldRetry (SmartPath.normalizeSmartOptions o) status 0%Z
          = SmartPath.defaultShouldRetry
              (SmartPath.maxRetries (SmartPath.normalizeSmartOptions o))
              status 0%Z) as ED.
  { unfold SmartPath.normalizeSmartOptions. rewrite HN. reflexivity. }
  rewrite ED. unfold SmartPath.defaultShouldRetry.
  set (m := SmartPath.maxRetries (SmartPath.normalizeSmartOptions o)).
  destruct (PathStatus_eqb status NoPath);
    [cbn [negb orb]; split; assumption | ].
  destruct (PathStatus_eqb status ClosestOutOfRange);
    [cbn [negb orb]; split; assumption | ].
  cbn [orb].
  destruct (Z.ltb_spec 0 m) as [L | L]; destruct (Z.leb_spec m 0) as [K | K];
    try lia; cbn [negb].
  - unfold SmartPath.waitForRetry.
    cbn [retryAttempts suspended set_suspended set_retryAttempts].
    rewrite ?R2, S2. split; [reflexivity | ].
    eexists. split; [reflexivity | ].
    apply first_retryWait. reflexivity.
  - split; assumption.
Qed.

(** A use of X22: a new [SmartPath] with
    [maxRetries] 2 whose first search finds the start occupied. *)
Lemma failed_search_default_recovery_witness :
  let r := SmartPath.computeAsync (callerEvents allCallbacks) twoRetries
             startPoint finishPoint (FailStartNotEmpty, [])
             (Path.construct NoPath) in
  currentState (snd r) = Failed /\ retryAttempts (snd r) = 1%Z.
Proof.
  cbv zeta.
  assert (SmartPath.opt_shouldRetry twoRetries = None) as HN by reflexivity.
  assert (currentState (Path.construct NoPath) <> Computing) as HC
    by discriminate.
  assert (FailStartNotEmpty <> Success) as HS by discriminate.
  pose proof (failed_search_default_recovery allCallbacks twoRetries
                startPoint finishPoint FailStartNotEmpty []
                (Path.construct NoPath) HN HC HS) as (_ & H2 & H3).
  cbv zeta in H2, H3.
  split; [exact H2 | exact (proj1 H3)].
Defined.

Lemma startFollowing_accepted (i : Instance) (h : Humanoid) (d : option R)
    (w : World) (wp : Waypoint) :
  PathFSM.canTransitionTo Following w = true ->
  nth_error (currentWaypoints w) (currentWaypointIndex w) = Some wp ->
  Path.startFollowing (eventsOf i) h d w
  = Path.followNextWaypoint (eventsOf i) h (Path.defaultReachedDistance d)
      (Path.cleanupConnections
         (set_trace
            (trace w
             ++ fired (with_onStateChanged (callbacksOf i))
                  (StateChanged (currentState w) Following))
            (set_currentState Following w))).
Proof.
  intros A N. unfold Path.startFollowing.
  destruct (currentWaypoints w) as [ | w0 l] eqn:EW.
  { destruct (currentWaypointIndex w); discriminate. }
  change (List.length (w0 :: l) =? 0) with false. cbv iota.
  rewrite transitionTo_eventsOf, A. reflexivity.
Qed.

Lemma followNextWaypoint_suspended (i : Instance) (h : Humanoid) (d : R)
    (w : World) :
  suspended (Path.followNextWaypoint (eventsOf i) h d w) = suspended w.
Proof.
  unfold Path.followNextWaypoint.
  destruct (List.length (currentWaypoints w) <=? currentWaypointIndex w).
  - unfold Path.cleanupConnections.
    rewrite triggerPathCompleted_eventsOf.
    match goal with |- context [followConnection ?x] =>
      destruct (followConnection x)
    end; cbn [suspended set_followConnection Path.Disconnect set_heartbeat
              emits set_trace]; apply transitionTo_suspended.
  - destruct (nth_error _ _) as [wp | ]; [ | reflexivity].
    destruct (PathWaypointAction_eqb (action wp) Jump); reflexivity.
Qed.

(** X23. The recovery after a blocked event, when the new search succeeds.
    Waking it searches again between the remembered end points, resets the
    retry counter, and follows the new route from its first waypoint with
    the remembered humanoid and distance; a connection held from before is
    disconnected. *)
Theorem blocked_recovery_refollows (c : Callbacks)
    (o : SmartPath.SmartPathOptions) (k : nat) (q : Q) (s f : Vector3)
    (h : Humanoid) (d : R) (wp : PathWaypoint) (rest : list PathWaypoint)
    (w : World) :
  nth_error (suspended w) k = Some (mkSuspended AfterBlocked q) ->
  lastStart w = Some s ->
  lastFinish w = Some f ->
  currentHumanoid w = Some h ->
  currentWaypointDistance w = Some d ->
  currentState w <> Computing ->
  freshIds w ->
  let i := ASmartPath c o in
  let w' := SmartPath.wake (callerEvents c) o k (Success, wp :: rest) w in
  followingAt h d w'
  /\ currentWaypoints w' = cached (wp :: rest)
  /\ currentWaypointIndex w' = 0
  /\ retryAttempts w' = 0%Z
  /\ suspended w' = firstn k (suspended w) ++ skipn (S k) (suspended w)
  /\ heartbeat w'
     = match followConnection w with
       | Some c0 => filter (fun t => negb (tick_id t =? c0)) (heartbeat w)
       | None => heartbeat w
       end
       ++ [mkTick (nextConnection w) h
             (mkWaypoint (Position wp) (Action wp)) d]
  /\ trace w'
     = trace w
       ++ fired (with_onStateChanged c) (StateChanged (currentState w) Computing)
       ++ [SearchCall s f]
       ++ fired (with_onStateChanged c) (StateChanged Computing Following)
       ++ driveTrace h (mkWaypoint (Position wp) (Action wp)).
Proof.
  intros HK HS HF HH HD HC F. cbv zeta.
  unfold SmartPath.wake. rewrite HK. cbn [sus_kind].
  set (w0 := set_suspended _ w).
  unfold SmartPath.handleBlocked_resumed.
  assert (lastStart w0 = Some s) as E1 by exact HS.
  assert (lastFinish w0 = Some f) as E2 by exact HF.
  rewrite E1, E2.
  set (w00 := set_retryAttempts 0%Z
                (set_lastEndpoints (Some s) (Some f) w0)).
  set (w1 := set_currentWaypointIndex 0
               (set_currentWaypoints (cached (wp :: rest))
                  (set_roblox Success (wp :: rest)
                     (emit (SearchCall s f)
                        (set_trace
                           (trace w
                            ++ fired (with_onStateChanged c)
                                 (StateChanged (currentState w) Computing))
                           (set_currentState Computing w00)))))).
  assert (PathState_eqb (currentState w00) Computing = false) as E0.
  { destruct (PathState_eqb (currentState w00) Computing) eqn:E;
      [apply PathState_eqb_eq in E; contradiction | reflexivity]. }
  assert (SmartPath.computeAsync (callerEvents c) o s f (Success, wp :: rest)
            w0 = (Path.Resolved Success, w1)) as EC.
  { unfold SmartPath.computeAsync.
    change (SmartPath.enhancedEvents (callerEvents c)
              (SmartPath.normalizeSmartOptions o))
      with (eventsOf (ASmartPath c o)).
    rewrite computeAsync_eventsOf. fold w00. rewrite E0. cbn [fst].
    change (PathStatus_eqb Success Success) with true. cbv iota.
    unfold searched. rewrite transitionTo_eventsOf.
    rewrite canTransitionTo_allowed, allowed_Computing, E0. reflexivity. }
  rewrite EC. change (PathStatus_eqb Success Success) with true. cbv iota.
  assert (currentHumanoid w1 = Some h) as H1 by exact HH.
  assert (currentWaypointDistance w1 = Some d) as D1 by exact HD.
  rewrite H1, D1. unfold SmartPath.startFollowing.
  change (SmartPath.enhancedEvents (callerEvents c)
            (SmartPath.normalizeSmartOptions o))
    with (eventsOf (ASmartPath c o)).
  change (Path.defaultReachedDistance (Some d)) with d.
  set (w2 := set_followContext (Some h) (Some d) w1).
  assert (PathFSM.canTransitionTo Following w2 = true) as A2 by reflexivity.
  assert (freshIds w2) as F2
    by (apply (freshIds_sameConn w); [repeat split | exact F]).
  assert (nth_error (currentWaypoints w2) (currentWaypointIndex w2)
          = Some (mkWaypoint (Position wp) (Action wp))) as N2 by reflexivity.
  destruct (startFollowing_follows (ASmartPath c o) h (Some d) w2 _ A2 F2 N2)
    as (SF & SW & SI & ST).
  cbv zeta in SF, SW, SI, ST.
  change (Path.defaultReachedDistance (Some d)) with d in SF.
  split; [exact SF | split; [exact SW | split; [exact SI | ]]].
  rewrite (startFollowing_accepted (ASmartPath c o) h (Some d) w2 _ A2 N2)
    in *.
  change (Path.defaultReachedDistance (Some d)) with d in *.
  set (w3 := Path.cleanupConnections _) in *.
  assert (nth_error (currentWaypoints w3) (currentWaypointIndex w3)
          = Some (mkWaypoint (Position wp) (Action wp))) as N3.
  { unfold w3, Path.cleanupConnections.
    match goal with |- context [followConnection ?x] =>
      destruct (followConnection x)
    end; reflexivity. }
  assert (retryAttempts w3 = 0%Z /\
          suspended w3
          = firstn k (suspended w) ++ skipn (S k) (suspended w)) as [R3 S3].
  { unfold w3, Path.cleanupConnections.
    match goal with |- context [followConnection ?x] =>
      destruct (followConnection x)
    end; split; reflexivity. }
  assert (heartbeat w3
          = match followConnection w with
            | Some c0 =>
                filter (fun t => negb (tick_id t =? c0)) (heartbeat w)
            | None => heartbeat w
            end
          /\ nextConnection w3 = nextConnection w) as [H3 X3].
  { unfold w3, Path.cleanupConnections.
    change (followConnection
              (set_trace
                 (trace w2
                  ++ fired (with_onStateChanged
                              (callbacksOf (ASmartPath c o)))
                       (StateChanged (currentState w2) Following))
                 (set_currentState Following w2)))
      with (followConnection w).
    destruct (followConnection w); split; reflexivity. }
  destruct (followNextWaypoint_drives (eventsOf (ASmartPath c o)) h d w3 _ N3)
    as (_ & _ & DH & _).
  cbv zeta in DH.
  destruct (sameBase_followNextWaypoint (ASmartPath c o) h d w3) as [_ SR].
  split; [congruence | split; [ | split]].
  - rewrite followNextWaypoint_suspended. exact S3.
  - rewrite DH, H3, X3. reflexivity.
  - rewrite ST. cbn [callbacksOf].
    change (trace w2)
      with ((trace w
             ++ fired (with_onStateChanged c)
                  (StateChanged (currentState w) Computing))
            ++ [SearchCall s f]).
    change (currentState w2) with Computing.
    rewrite <- !app_assoc. reflexivity.
Qed.

(** A use of X23: the blocked signal while a
    [SmartPath] follows [route], then the recovery finds [route] again. *)
Lemma blocked_recovery_refollows_witness :
  let w' := blockedAndRecovered smartFollowing in
  followingAt 1 5 w'
  /\ currentWaypointIndex w' = 0
  /\ retryAttempts w' = 0%Z
  /\ suspended w' = [].
Proof.
  cbv zeta. unfold blockedAndRecovered.
  set (w := Path.blockedSignal (eventsOf smartTwo) smartFollowing).
  assert (nth_error (suspended w) 0 = Some (mkSuspended AfterBlocked 1%Q))
    as HK by (vm_compute; reflexivity).
  assert (lastStart w = Some startPoint) as HS by (vm_compute; reflexivity).
  assert (lastFinish w = Some finishPoint) as HF by (vm_compute; reflexivity).
  assert (currentHumanoid w = Some 1) as HH by (vm_compute; reflexivity).
  assert (currentWaypointDistance w = Some 5%R) as HD
    by (vm_compute; reflexivity).
  assert (currentState w <> Computing) as HC by (vm_compute; discriminate).
  assert (heartbeat w
          = [mkTick 0 1 (mkWaypoint (mkVector3 0 0 0) Walk) 5]) as EH
    by (vm_compute; reflexivity).
  assert (nextConnection w = 1) as EN by (vm_compute; reflexivity).
  assert (followConnection w = Some 0) as EF by (vm_compute; reflexivity).
  assert (suspended w = [mkSuspended AfterBlocked 1%Q]) as ES
    by (vm_compute; reflexivity).
  assert (freshIds w) as F.
  { split.
    - rewrite EH, EN. repeat constructor.
    - rewrite EF, EN. intros c0 H. injection H as <-. lia. }
  pose proof (blocked_recovery_refollows allCallbacks twoRetries 0 1%Q
                startPoint finishPoint 1 5
                (mkPathWaypoint (mkVector3 0 0 0) Walk)
                [mkPathWaypoint (mkVector3 3 0 0) Walk;
                 mkPathWaypoint (mkVector3 3 4 0) Jump]
                w HK HS HF HH HD HC F) as (H1 & _ & H3 & H4 & H5 & _).
  split; [exact H1 | split; [exact H3 | split; [exact H4 | ]]].
  etransitivity; [exact H5 | rewrite ES; reflexivity].
Defined.

Lemma destroy_fields (i : Instance) (w : World) :
  let w' := Path.destroy (eventsOf i) w in
  followConnection w' = None
  /\ pathBlockedConnection w' = false
  /\ currentWaypointIndex w' = 0
  /\ retryAttempts w' = retryAttempts w
  /\ suspended w' = suspended w
  /\ lastStart w' = lastStart w
  /\ lastFinish w' = lastFinish w
  /\ currentState w'
     = (if allowed (currentState w) Idle then Idle else currentState w)
  /\ trace w'
     = trace w ++ transitionTrace i (currentState w) Idle ++ [DestroyCall].
Proof.
  cbv zeta. unfold Path.destroy, Path.stop, transitionTrace.
  rewrite transitionTo_eventsOf, canTransitionTo_allowed.
  assert (currentState (Path.cleanupConnections w) = currentState w) as ES
    by apply cleanupConnections_keeps.
  rewrite ES.
  unfold Path.cleanupConnections.
  destruct (allowed (currentState w) Idle);
    destruct (followConnection w) eqn:EF;
    destruct (pathBlockedConnection w) eqn:EP;
    cbn [snd pathBlockedConnection set_currentWaypointIndex set_trace
         set_currentState set_followConnection Path.Disconnect set_heartbeat
         warn emit];
    rewrite ?EP; cbn [trace emit set_trace set_pathBlockedConnection
                      set_currentWaypointIndex set_currentState
                      set_followConnection Path.Disconnect set_heartbeat
                      currentState];
    rewrite <- ?app_assoc; repeat split; try assumption; try reflexivity.
  all: unfold warn, emit; cbn [trace set_trace];
    rewrite <- app_assoc; reflexivity.
Qed.

(** X24. [destroy] on a [SmartPath] disarms what is still waiting.  It
    resets the counter, disconnects the tick handler and the blocked
    listener, and leaves the suspended recoveries in place; with the end
    points forgotten, a recovery that wakes afterwards is only removed: no
    search is made and nothing else changes.  The blocked signal has no
    effect either. *)
Theorem destroy_disarms_recoveries (c : Callbacks)
    (o : SmartPath.SmartPathOptions) (k : nat)
    (answer : PathStatus * list PathWaypoint) (w : World) :
  let i := ASmartPath c o in
  let wd := SmartPath.destroy (callerEvents c) o w in
  (retryAttempts wd = 0%Z
   /\ followConnection wd = None
   /\ pathBlockedConnection wd = false
   /\ suspended wd = suspended w
   /\ currentState wd
      = (if allowed (currentState w) Idle then Idle else currentState w)
   /\ trace wd
      = trace w ++ transitionTrace i (currentState w) Idle ++ [DestroyCall])
  /\ SmartPath.wake (callerEvents c) o k answer wd
     = match nth_error (suspended wd) k with
       | Some _ =>
           set_suspended
             (firstn k (suspended wd) ++ skipn (S k) (suspended wd)) wd
       | None => wd
       end
  /\ Path.blockedSignal (eventsOf i) wd = wd.
Proof.
  cbv zeta. unfold SmartPath.destroy.
  change (SmartPath.enhancedEvents (callerEvents c)
            (SmartPath.normalizeSmartOptions o))
    with (eventsOf (ASmartPath c o)).
  set (w0 := set_retryAttempts 0%Z
               (set_followContext None None
                  (set_lastEndpoints None None w))).
  destruct (destroy_fields (ASmartPath c o) w0)
    as (DF & DP & _ & DR & DS & DL & _ & DC & DT).
  cbv zeta in DF, DP, DR, DS, DL, DC, DT.
  set (wd := Path.destroy (eventsOf (ASmartPath c o)) w0) in *.
  split; [ | split].
  - split; [exact DR | split; [exact DF | split; [exact DP | ]]].
    split; [exact DS | split; [exact DC | exact DT]].
  - unfold SmartPath.wake.
    destruct (nth_error (suspended wd) k) as [x | ]; [ | reflexivity].
    set (w1 := set_suspended _ wd).
    assert (lastStart w1 = None) as L1 by exact DL.
    unfold SmartPath.handleBlocked_resumed, SmartPath.handleFailure_resumed.
    rewrite L1. destruct (sus_kind x); reflexivity.
  - unfold Path.blockedSignal. rewrite DP. reflexivity.
Qed.

(** ** Facts about the options *)

(** X25. [validateOptions] fills in the defaults of the [Path] constructor:
    on given options it is [normalizeOptions], on none it is
    [normalizeOptions] of the empty options, that is radius 2, height 5,
    jumping, no climbing, no distance limit and no modifiers.  Validated
    options are complete: validating or normalizing them again changes
    nothing. *)
Theorem validateOptions_defaults (x : option PathOptions) :
  PathfindingUtils.validateOptions x
  = Path_normalizeOptions (match x with Some o => o | None => noOptions end)
  /\ PathfindingUtils.validateOptions None
     = mkRequiredPathOptions 2%Q 5%Q true false huge []
  /\ PathfindingUtils.validateOptions
       (Some (given (PathfindingUtils.validateOptions x)))
     = PathfindingUtils.validateOptions x
  /\ Path_normalizeOptions (given (PathfindingUtils.validateOptions x))
     = PathfindingUtils.validateOptions x.
Proof.
  destruct x as [o | ]; repeat split; reflexivity.
Qed.
